(** * mini_alloc: a first-fit allocator over one contiguous arena

    Shallow embedding of [src/allocator.cpp] (namespace [mini_alloc]) and the
    properties of its block chain.

    Platform: LP64.  [std::size_t] and pointers are 64-bit unsigned integers
    (modelled as [Z] with the wrap-around written out), the null pointer is 0,
    [alignof(std::max_align_t)] is 16 and [struct Block] occupies 32 bytes:
    [size] at offset 0 (8 bytes), [free] at offset 8 (1 byte), [next] at
    offset 16 and [prev] at offset 24 (8 bytes each), integers little-endian.

    The arena and the block headers live in the same byte-addressed memory.
    Every load and store of the allocator is checked against the bounds of
    the arena buffer; an access outside of it is undefined behaviour in C++
    and is reported as the outcome [Err OutOfBounds]. *)

From Stdlib Require Import ZArith List Bool Lia Sorted.
Import ListNotations.
Local Open Scope Z_scope.

(** ** Machine integers *)

Definition wbits : Z := 64.
Definition wB : Z := 2 ^ wbits.
Definition SIZE_MAX : Z := wB - 1.

(** [std::size_t] arithmetic wraps modulo [2^64]. *)
Definition wrap (z : Z) : Z := z mod wB.
Definition add64 (x y : Z) : Z := wrap (x + y).
Definition sub64 (x y : Z) : Z := wrap (x - y).
Definition mul64 (x y : Z) : Z := wrap (x * y).
(** [~x] on a 64-bit unsigned value. *)
Definition not64 (x : Z) : Z := wrap (Z.lnot x).

(** ** Byte-addressed memory *)

Definition mem : Type := Z -> Z.

Definition upd (m : mem) (a b : Z) : mem :=
  fun x => if x =? a then b else m x.

(** Little-endian load and store of [n] bytes at address [a]. *)
Fixpoint load (m : mem) (a : Z) (n : nat) : Z :=
  match n with
  | O => 0
  | S k => (m a) mod 256 + 256 * load m (a + 1) k
  end.

Fixpoint store (m : mem) (a : Z) (n : nat) (v : Z) : mem :=
  match n with
  | O => m
  | S k => store (upd m a (v mod 256)) (a + 1) k (v / 256)
  end.

(** [std::memset(p, c, n)] and [std::memcpy(dst, src, n)]. *)
Definition memset_bytes (m : mem) (p c n : Z) : mem :=
  fun x => if (p <=? x) && (x <? p + n) then c mod 256 else m x.

Definition memcpy_bytes (m : mem) (dst src n : Z) : mem :=
  fun x => if (dst <=? x) && (x <? dst + n) then m (src + (x - dst)) else m x.

(** ** Allocator state and outcomes *)

(** Lines written to [stderr] by [free] and [realloc]. *)
Inductive Diag : Type :=
| NotFromHeap (fn_is_realloc : bool) (ptr : Z)
| InvalidHeader (ptr : Z)
| DoubleFree (ptr : Z).

(** The file-level statics of [allocator.cpp], the memory they point into and
    the diagnostic stream. *)
Record Heap : Type := mkHeap {
  bytes : mem;
  heap_base : Z;
  heap_total_size : Z;
  head : Z;
  initialized : bool;
  stderr_log : list Diag
}.

Inductive error : Type :=
| BadAlloc        (* [throw std::bad_alloc()] *)
| OutOfBounds     (* access outside the arena buffer *)
| Diverges.       (* the chain walk ran out of fuel *)

Inductive result (A : Type) : Type :=
| Ret (a : A) (h : Heap)
| Err (e : error).
Arguments Ret {A} a h.
Arguments Err {A} e.

Definition M (A : Type) : Type := Heap -> result A.

Definition ret {A} (a : A) : M A := fun h => Ret a h.
Definition bind {A B} (c : M A) (k : A -> M B) : M B :=
  fun h => match c h with
           | Ret a h' => k a h'
           | Err e => Err e
           end.
Definition throw {A} (e : error) : M A := fun _ => Err e.

Declare Scope alloc_scope.
Delimit Scope alloc_scope with alloc.
Notation "x <- c ;; k" := (bind c (fun x => k))
  (at level 61, c at next level, right associativity) : alloc_scope.
Notation "c ;; k" := (bind c (fun _ => k))
  (at level 61, right associativity) : alloc_scope.
Local Open Scope alloc_scope.

Definition when (c : bool) (k : M unit) : M unit := if c then k else ret tt.

Definition set_bytes (m : mem) (h : Heap) : Heap :=
  mkHeap m (heap_base h) (heap_total_size h) (head h) (initialized h) (stderr_log h).

Definition report (d : Diag) : M unit :=
  fun h => Ret tt (mkHeap (bytes h) (heap_base h) (heap_total_size h) (head h)
                          (initialized h) (stderr_log h ++ [d])).

(** [n] bytes at [a] lie inside the arena buffer. *)
Definition in_arena (h : Heap) (a n : Z) : bool :=
  (heap_base h <=? a) && (a + n <=? heap_base h + heap_total_size h).

Definition ld (a : Z) (n : nat) : M Z :=
  fun h => if in_arena h a (Z.of_nat n) then Ret (load (bytes h) a n) h
           else Err OutOfBounds.

Definition sto (a : Z) (n : nat) (v : Z) : M unit :=
  fun h => if in_arena h a (Z.of_nat n) then Ret tt (set_bytes (store (bytes h) a n v) h)
           else Err OutOfBounds.

Definition memset (p c n : Z) : M unit :=
  fun h => if (n =? 0) || in_arena h p n
           then Ret tt (set_bytes (memset_bytes (bytes h) p c n) h)
           else Err OutOfBounds.

(** [memcpy] needs both ranges inside the arena and not overlapping. *)
Definition memcpy (dst src n : Z) : M unit :=
  fun h => if (n =? 0) ||
              (in_arena h dst n && in_arena h src n &&
               ((dst + n <=? src) || (src + n <=? dst)))
           then Ret tt (set_bytes (memcpy_bytes (bytes h) dst src n) h)
           else Err OutOfBounds.

(** ** The namespace [mini_alloc] *)

Module mini_alloc.

Definition DEFAULT_HEAP_SIZE : Z := 16 * 1024 * 1024.
Definition ALIGNMENT : Z := 16.
Definition MIN_BLOCK_SIZE : Z := 32.
Definition sizeof_Block : Z := 32.

(** [(n + (a - 1)) & ~(a - 1)] *)
Definition align_up_to (n a : Z) : Z :=
  Z.land (add64 n (sub64 a 1)) (not64 (sub64 a 1)).
Definition align_up (n : Z) : Z := align_up_to n ALIGNMENT.

(** *** [struct Block] fields, read and written in place *)

Definition get_size (b : Z) : M Z := ld b 8.
Definition get_free (b : Z) : M bool := v <- ld (b + 8) 1 ;; ret (negb (v =? 0)).
Definition get_next (b : Z) : M Z := ld (b + 16) 8.
Definition get_prev (b : Z) : M Z := ld (b + 24) 8.

Definition set_size (b v : Z) : M unit := sto b 8 v.
Definition set_free (b : Z) (v : bool) : M unit := sto (b + 8) 1 (if v then 1 else 0).
Definition set_next (b v : Z) : M unit := sto (b + 16) 8 v.
Definition set_prev (b v : Z) : M unit := sto (b + 24) 8 v.

Section WithSystemAllocator.

(** [std::malloc], the one call that acquires the backing buffer: the address
    it returns for a requested size, 0 on failure. *)
Variable std_malloc : Z -> Z.

Definition init_allocator (heap_size : Z) : M unit :=
  fun h =>
    if initialized h then Ret tt h
    else
      let total := align_up heap_size in
      let base := std_malloc total in
      if base =? 0 then Err BadAlloc
      else
        let h1 := mkHeap (bytes h) base total (head h) false (stderr_log h) in
        (memset base 0 total ;;
         (fun h2 => Ret tt (mkHeap (bytes h2) base total base false (stderr_log h2))) ;;
         let hdr_sz := align_up sizeof_Block in
         let initial_payload := sub64 total hdr_sz in
         set_size base initial_payload ;;
         set_free base true ;;
         set_next base 0 ;;
         set_prev base 0 ;;
         (fun h3 => Ret tt (mkHeap (bytes h3) base total base true (stderr_log h3)))) h1.

Definition payload_to_block (payload : Z) : Z :=
  if payload =? 0 then 0 else sub64 payload (align_up sizeof_Block).

Definition block_to_payload (b : Z) : Z :=
  if b =? 0 then 0 else add64 b (align_up sizeof_Block).

(** [static_cast<std::ptrdiff_t>] of a [std::size_t]. *)
Definition to_ptrdiff (z : Z) : Z := if z <? 2 ^ 63 then z else z - wB.

Definition pointer_in_heap (p : Z) : M bool :=
  fun h =>
    if (p =? 0) || negb (initialized h) then Ret false h
    else Ret ((heap_base h <=? p) &&
              (p <? heap_base h + to_ptrdiff (heap_total_size h))) h.

(** The loop of [find_fit]; [fuel] bounds the number of iterations. *)
Fixpoint find_fit_from (fuel : nat) (b asize : Z) : M Z :=
  match fuel with
  | O => throw Diverges
  | S k =>
      if b =? 0 then ret 0
      else
        f <- get_free b ;;
        fits <- (if f then (s <- get_size b ;; ret (asize <=? s)) else ret false) ;;
        if fits then ret b
        else (n <- get_next b ;; find_fit_from k n asize)
  end.

(** A chain of blocks inside an arena of [heap_total_size] bytes has at most
    [heap_total_size / 32] entries. *)
Definition chain_fuel (h : Heap) : nat :=
  S (S (Z.to_nat (heap_total_size h / sizeof_Block))).

Definition find_fit (asize : Z) : M Z :=
  fun h => find_fit_from (chain_fuel h) (head h) asize h.

Definition split_block (b asize : Z) : M unit :=
  let hdr_sz := align_up sizeof_Block in
  f <- get_free b ;;
  if negb f then ret tt
  else
    s <- get_size b ;;
    (if add64 (add64 asize hdr_sz) MIN_BLOCK_SIZE <=? s then
       let block_addr := b in
       s' <- get_size b ;;
       let remaining_payload := sub64 (sub64 s' asize) hdr_sz in
       let newb := add64 (add64 block_addr hdr_sz) asize in
       set_size newb remaining_payload ;;
       set_free newb true ;;
       set_prev newb b ;;
       bn <- get_next b ;;
       set_next newb bn ;;
       bn1 <- get_next b ;;
       when (negb (bn1 =? 0)) (bn2 <- get_next b ;; set_prev bn2 newb) ;;
       set_next b newb ;;
       set_size b asize
     else ret tt) ;;
    set_free b false.

(** [p && p->free] *)
Definition is_free_block (p : Z) : M bool :=
  if p =? 0 then ret false else get_free p.

Definition coalesce (b : Z) : M Z :=
  let hdr_sz := align_up sizeof_Block in
  bn <- get_next b ;;
  nfree <- is_free_block bn ;;
  when nfree
    (nxt <- get_next b ;;
     bs <- get_size b ;;
     ns <- get_size nxt ;;
     set_size b (add64 bs (add64 hdr_sz ns)) ;;
     nn <- get_next nxt ;;
     set_next b nn ;;
     nn1 <- get_next nxt ;;
     when (negb (nn1 =? 0)) (nn2 <- get_next nxt ;; set_prev nn2 b)) ;;
  bp <- get_prev b ;;
  pfree <- is_free_block bp ;;
  if pfree then
    pv <- get_prev b ;;
    ps <- get_size pv ;;
    bs <- get_size b ;;
    set_size pv (add64 ps (add64 hdr_sz bs)) ;;
    bn' <- get_next b ;;
    set_next pv bn' ;;
    bn1 <- get_next b ;;
    when (negb (bn1 =? 0)) (bn2 <- get_next b ;; set_prev bn2 pv) ;;
    ret pv
  else ret b.

Definition malloc (size : Z) : M Z :=
  if size =? 0 then ret 0
  else
    ini <- (fun h => Ret (initialized h) h) ;;
    when (negb ini) (init_allocator DEFAULT_HEAP_SIZE) ;;
    let asize := align_up size in
    let asize := if asize <? MIN_BLOCK_SIZE then MIN_BLOCK_SIZE else asize in
    b <- find_fit asize ;;
    if b =? 0 then ret 0
    else (split_block b asize ;; ret (block_to_payload b)).

Definition free (ptr : Z) : M unit :=
  if ptr =? 0 then ret tt
  else
    outside <- (fun h => Ret ((ptr <? heap_base h) ||
                              (heap_base h + heap_total_size h <=? ptr)) h) ;;
    if outside then report (NotFromHeap false ptr)
    else
      let b := payload_to_block ptr in
      hdr_outside <- (fun h => Ret ((b <? heap_base h) ||
                                    (heap_base h + heap_total_size h <=? b)) h) ;;
      if hdr_outside then report (InvalidHeader ptr)
      else
        f <- get_free b ;;
        if f then report (DoubleFree ptr)
        else (set_free b true ;; _ <- coalesce b ;; ret tt).

Definition realloc (ptr new_size : Z) : M Z :=
  if ptr =? 0 then malloc new_size
  else if new_size =? 0 then (free ptr ;; ret 0)
  else
    inheap <- pointer_in_heap ptr ;;
    if negb inheap then (report (NotFromHeap true ptr) ;; ret 0)
    else
      let b := payload_to_block ptr in
      let asize := align_up new_size in
      let asize := if asize <? MIN_BLOCK_SIZE then MIN_BLOCK_SIZE else asize in
      bs <- get_size b ;;
      if asize <=? bs then (split_block b asize ;; ret ptr)
      else
        bn <- get_next b ;;
        nfree <- is_free_block bn ;;
        grown <-
          (if nfree then
             let hdr_sz := align_up sizeof_Block in
             bs' <- get_size b ;;
             bn' <- get_next b ;;
             ns <- get_size bn' ;;
             let combined := add64 (add64 bs' hdr_sz) ns in
             if asize <=? combined then
               nxt <- get_next b ;;
               set_size b combined ;;
               nn <- get_next nxt ;;
               set_next b nn ;;
               nn1 <- get_next nxt ;;
               when (negb (nn1 =? 0)) (nn2 <- get_next nxt ;; set_prev nn2 b) ;;
               split_block b asize ;;
               set_free b false ;;
               ret true
             else ret false
           else ret false) ;;
        if grown then ret ptr
        else
          newp <- malloc new_size ;;
          if newp =? 0 then ret 0
          else
            bs'' <- get_size b ;;
            memcpy newp ptr (Z.min bs'' asize) ;;
            free ptr ;;
            ret newp.

Definition calloc (nmemb size : Z) : M Z :=
  if (nmemb =? 0) || (size =? 0) then ret 0
  else if SIZE_MAX / size <? nmemb then ret 0
  else
    let total := mul64 nmemb size in
    p <- malloc total ;;
    when (negb (p =? 0)) (memset p 0 total) ;;
    ret p.

(** One line of [dump_heap]: what is printed for a block. *)
Record BlockInfo : Type := mkInfo {
  bi_hdr : Z;
  bi_payload : Z;
  bi_size : Z;
  bi_free : bool;
  bi_prev : Z;
  bi_next : Z
}.

Fixpoint dump_from (fuel : nat) (b : Z) : M (list BlockInfo) :=
  match fuel with
  | O => throw Diverges
  | S k =>
      if b =? 0 then ret []
      else
        s <- get_size b ;;
        f <- get_free b ;;
        p <- get_prev b ;;
        n <- get_next b ;;
        rest <- dump_from k n ;;
        ret (mkInfo b (block_to_payload b) s f p n :: rest)
  end.

(** [dump_heap]: the blocks of the chain from [head], in chain order; [None]
    stands for the line printed when the heap is not initialized. *)
Definition dump_heap : M (option (list BlockInfo)) :=
  ini <- (fun h => Ret (initialized h) h) ;;
  if negb ini then ret None
  else
    hd <- (fun h => Ret (head h) h) ;;
    fuel <- (fun h => Ret (chain_fuel h) h) ;;
    l <- dump_from fuel hd ;;
    ret (Some l).

End WithSystemAllocator.

End mini_alloc.

Import mini_alloc.

(** * Reading the chain out of memory *)

(** The header fields as stored in a memory, without the bounds check. *)
Definition rd_size (m : mem) (b : Z) : Z := load m b 8.
Definition rd_free (m : mem) (b : Z) : bool := negb (load m (b + 8) 1 =? 0).
Definition rd_next (m : mem) (b : Z) : Z := load m (b + 16) 8.
Definition rd_prev (m : mem) (b : Z) : Z := load m (b + 24) 8.

(** The 32 bytes of a header at [b] lie inside the arena. *)
Definition hdr_in (h : Heap) (b : Z) : Prop :=
  heap_base h <= b /\ b + 32 <= heap_base h + heap_total_size h.

(** ** The chain as a list of blocks *)

(** A block of the chain: payload size and free flag. *)
Definition block : Type := (Z * bool)%type.

(** Address just after the blocks of [l] laid out contiguously from [a]. *)
Fixpoint end_addr (a : Z) (l : list block) : Z :=
  match l with
  | [] => a
  | (s, _) :: r => end_addr (a + 32 + s) r
  end.

(** The [next] pointer stored in a block followed by the blocks [r]. *)
Definition nxt_of (a' : Z) (r : list block) (nx : Z) : Z :=
  match r with [] => nx | _ :: _ => a' end.

(** Header address of the last block of [l] (laid out from [a]); [p] when
    [l] is empty. *)
Fixpoint last_hdr (p a : Z) (l : list block) : Z :=
  match l with
  | [] => p
  | (s, _) :: r => last_hdr a (a + 32 + s) r
  end.

(** [seg m p a l nx]: memory [m] holds the headers of the blocks [l] laid out
    from address [a], doubly linked, the first one pointing back to [p] and
    the last one pointing forward to [nx]. *)
Fixpoint seg (m : mem) (p a : Z) (l : list block) (nx : Z) : Prop :=
  match l with
  | [] => True
  | (s, f) :: r =>
      rd_size m a = s /\ rd_free m a = f /\ rd_prev m a = p /\
      rd_next m a = nxt_of (a + 32 + s) r nx /\
      seg m a (a + 32 + s) r nx
  end.

(** [Chain h l]: the allocator is initialized, its arena is a proper buffer
    and the block chain from [head] is [l], tiling the arena. *)
Definition Chain (h : Heap) (l : list block) : Prop :=
  initialized h = true /\
  0 < heap_base h /\
  heap_base h + heap_total_size h < wB /\
  heap_total_size h < 2 ^ 63 /\
  head h = heap_base h /\
  l <> [] /\
  seg (bytes h) 0 (heap_base h) l 0 /\
  end_addr (heap_base h) l = heap_base h + heap_total_size h.

(** What [dump_heap] prints for the blocks [l] laid out from [a]. *)
Fixpoint layout (p a : Z) (l : list block) (nx : Z) : list BlockInfo :=
  match l with
  | [] => []
  | (s, f) :: r =>
      mkInfo a (a + 32) s f p (nxt_of (a + 32 + s) r nx)
        :: layout a (a + 32 + s) r nx
  end.

(** Payload sizes are not negative. *)
Definition nonneg_sizes (l : list block) : Prop := Forall (fun x => 0 <= fst x) l.

(** ** The operations on the list of blocks *)

(** Header address of the first free block of [l] (laid out from [a]) whose
    payload holds [asize] bytes; 0 when there is none. *)
Fixpoint first_fit (a asize : Z) (l : list block) : Z :=
  match l with
  | [] => 0
  | (s, f) :: r => if f && (asize <=? s) then a else first_fit (a + 32 + s) asize r
  end.

(** The blocks that replace a free block of payload [s] when [asize] bytes
    are carved out of it. *)
Definition carve (asize s : Z) : list block :=
  if asize + 32 + 32 <=? s then [(asize, false); (s - asize - 32, true)]
  else [(s, false)].

(** The payload size [malloc] and [realloc] look for: the request rounded up
    by [align_up] and raised to [MIN_BLOCK_SIZE]. *)
Definition request_size (size : Z) : Z :=
  let asize := align_up size in
  if asize <? MIN_BLOCK_SIZE then MIN_BLOCK_SIZE else asize.

(** A free block whose payload holds [asize] bytes. *)
Definition fits (asize : Z) (x : block) : bool := snd x && (asize <=? fst x).

(** A freed block of payload [s] absorbs a free successor. *)
Definition absorb_next (s : Z) (l2 : list block) : Z * list block :=
  match l2 with
  | (s2, true) :: r => (s + 32 + s2, r)
  | _ => (s, l2)
  end.

(** A free block of payload [s1] is absorbed by a free predecessor. *)
Definition merge_prev (l1 : list block) (s1 : Z) (l2 : list block) : list block :=
  match last l1 (0, false) with
  | (sp, true) => removelast l1 ++ (sp + 32 + s1, true) :: l2
  | _ => l1 ++ (s1, true) :: l2
  end.

(** The chain after the allocated block between [l1] and [l2] is released. *)
Definition release (l1 : list block) (s : Z) (l2 : list block) : list block :=
  let (s1, l2') := absorb_next s l2 in merge_prev l1 s1 l2'.

(** The two [if] statements of [coalesce]. *)
Definition coalesce_next (b : Z) : M unit :=
  let hdr_sz := align_up sizeof_Block in
  bn <- get_next b ;;
  nfree <- is_free_block bn ;;
  when nfree
    (nxt <- get_next b ;;
     bs <- get_size b ;;
     ns <- get_size nxt ;;
     set_size b (add64 bs (add64 hdr_sz ns)) ;;
     nn <- get_next nxt ;;
     set_next b nn ;;
     nn1 <- get_next nxt ;;
     when (negb (nn1 =? 0)) (nn2 <- get_next nxt ;; set_prev nn2 b)).

Definition coalesce_prev (b : Z) : M Z :=
  let hdr_sz := align_up sizeof_Block in
  bp <- get_prev b ;;
  pfree <- is_free_block bp ;;
  if pfree then
    pv <- get_prev b ;;
    ps <- get_size pv ;;
    bs <- get_size b ;;
    set_size pv (add64 ps (add64 hdr_sz bs)) ;;
    bn' <- get_next b ;;
    set_next pv bn' ;;
    bn1 <- get_next b ;;
    when (negb (bn1 =? 0)) (bn2 <- get_next b ;; set_prev bn2 pv) ;;
    ret pv
  else ret b.

(** The successor of a block of payload [s] is free and the two together
    hold [asize] bytes. *)
Definition can_grow (asize s : Z) (l2 : list block) : bool :=
  match l2 with
  | (s2, true) :: _ => asize <=? s + 32 + s2
  | _ => false
  end.

(** ** Invariants of the block list *)

(** Free flag of the first and of the last block of a list; [false] when it
    is empty. *)
Definition fr_head (l : list block) : bool := snd (hd (0, false) l).
Definition fr_last (l : list block) : bool := snd (last l (0, false)).

(** No two neighbours of the chain are both free. *)
Fixpoint no_adj_free (l : list block) : Prop :=
  match l with
  | [] => True
  | x :: r => (snd x = true -> fr_head r = false) /\ no_adj_free r
  end.

(** Every allocated block has a non-empty payload. *)
Definition alloc_pos (l : list block) : Prop :=
  Forall (fun x => snd x = false -> 0 < fst x) l.

(** The invariant of the block list kept by every operation. *)
Definition good (l : list block) : Prop := no_adj_free l /\ alloc_pos l.

(** What the allocator relies on from [std::malloc]: a call either fails
    (null) or returns a buffer of the requested size that lies inside the
    address space, above the null page, and is no larger than
    [PTRDIFF_MAX]. *)
Definition std_malloc_ok (std_malloc : Z -> Z) : Prop :=
  forall n, std_malloc n = 0 \/
            (0 < std_malloc n /\ std_malloc n + n < wB /\ n < 2 ^ 63).

(** * Calls of the interface *)

(** The blocks [dump_heap] enumerates; none before initialization. *)
Definition chain_blocks (h : Heap) : list BlockInfo :=
  match dump_heap h with
  | Ret (Some l) _ => l
  | _ => []
  end.

(** [p] is the payload address of a block of the chain. *)
Definition is_payload (h : Heap) (p : Z) : Prop :=
  exists b, In b (chain_blocks h) /\ bi_payload b = p.

(** [p] is the payload address of an allocated block of the chain. *)
Definition is_allocated (h : Heap) (p : Z) : Prop :=
  exists b, In b (chain_blocks h) /\ bi_payload b = p /\ bi_free b = false.

(** [x] is a payload byte of an allocated block. *)
Definition in_allocated_payload (h : Heap) (x : Z) : Prop :=
  exists b, In b (chain_blocks h) /\ bi_free b = false /\
            bi_payload b <= x < bi_payload b + bi_size b.

(** [p] does not point into the arena. *)
Definition outside_arena (h : Heap) (p : Z) : Prop :=
  p < heap_base h \/ heap_base h + heap_total_size h <= p.

(** Pointers a caller may pass to [free]: null, a pointer outside the arena,
    one whose header would lie before the arena, or a block of the chain. *)
Definition free_arg (h : Heap) (p : Z) : Prop :=
  0 <= p < wB /\
  (p = 0 \/ outside_arena h p \/ p < heap_base h + 32 \/ is_payload h p).

(** Pointers a caller may pass to [realloc]: null, a pointer outside the
    arena, or an allocated block of the chain. *)
Definition realloc_arg (h : Heap) (p : Z) : Prop :=
  0 <= p < wB /\ (p = 0 \/ outside_arena h p \/ is_allocated h p).

(** The state after one line is written to [stderr]. *)
Definition log_add (d : Diag) (h : Heap) : Heap :=
  mkHeap (bytes h) (heap_base h) (heap_total_size h) (head h) (initialized h)
         (stderr_log h ++ [d]).

(** Before initialization the statics are zero; afterwards the chain tiles
    the arena and its block list is [good]. *)
Definition Inv (h : Heap) : Prop :=
  (initialized h = false /\ heap_base h = 0 /\ heap_total_size h = 0) \/
  (exists l, Chain h l /\ good l).

(** [malloc] after the initialization check. *)
Definition malloc_body (size : Z) : M Z :=
  b <- find_fit (request_size size) ;;
  if b =? 0 then ret 0
  else (split_block b (request_size size) ;; ret (block_to_payload b)).

(** * Notions the claims are stated with *)

(** The heap is initialized and its chain is well formed. *)
Definition well_formed (h : Heap) : Prop := exists l, Chain h l.

(** [tiles a blocks e]: the blocks lie back to back from address [a] to
    address [e]: each header at the end of the previous payload, each payload
    right after its header, and each [next] link pointing to the header that
    follows (null in the last block). *)
Fixpoint tiles (a : Z) (blocks : list BlockInfo) (e : Z) : Prop :=
  match blocks with
  | [] => a = e
  | b :: r =>
      bi_hdr b = a /\ bi_payload b = a + 32 /\ 0 <= bi_size b /\
      bi_next b = match r with [] => 0 | _ :: _ => a + 32 + bi_size b end /\
      tiles (a + 32 + bi_size b) r e
  end.

(** Free flags of neighbours in the chain: never two [true] in a row. *)
Fixpoint no_two_free (fl : list bool) : Prop :=
  match fl with
  | f1 :: ((f2 :: _) as r) => ~ (f1 = true /\ f2 = true) /\ no_two_free r
  | _ => True
  end.

(** A block [malloc] can take for a payload of [asize] bytes. *)
Definition fits_block (asize : Z) (b : BlockInfo) : bool :=
  bi_free b && (asize <=? bi_size b).

(** The chain as the list of (payload size, free flag) of its blocks. *)
Definition chain_list (h : Heap) : list block :=
  map (fun b => (bi_size b, bi_free b)) (chain_blocks h).

(** * Further notions *)

(** [linked p blocks]: the [prev] and [next] links printed by [dump_heap]
    mirror each other: each block's [prev] is the header of the block before
    it ([p] for the first one) and its [next] the header of the block after
    it (null for the last one). *)
Fixpoint linked (p : Z) (blocks : list BlockInfo) : Prop :=
  match blocks with
  | [] => True
  | b :: r =>
      bi_prev b = p /\
      bi_next b = match r with [] => 0 | b' :: _ => bi_hdr b' end /\
      linked (bi_hdr b) r
  end.

(** [hdr_byte a l x]: [x] is a byte of the header of one of the blocks [l]
    laid out from address [a]. *)
Fixpoint hdr_byte (a : Z) (l : list block) (x : Z) : Prop :=
  match l with
  | [] => False
  | (s, _) :: r => a <= x < a + 32 \/ hdr_byte (a + 32 + s) r x
  end.

(** [x] is a byte of the header of a block of the chain. *)
Definition in_header (h : Heap) (x : Z) : Prop :=
  exists b, In b (chain_blocks h) /\ bi_hdr b <= x < bi_hdr b + 32.

(** [x] is a payload byte of a block of the chain, free or allocated. *)
Definition in_payload (h : Heap) (x : Z) : Prop :=
  exists b, In b (chain_blocks h) /\ bi_payload b <= x < bi_payload b + bi_size b.

(** Every payload size of the list is a multiple of [ALIGNMENT]. *)
Definition aligned_sizes (l : list block) : Prop :=
  Forall (fun x => fst x mod ALIGNMENT = 0) l.

(** The statics that describe the arena are the same in both states. *)
Definition same_arena (h h' : Heap) : Prop :=
  heap_base h' = heap_base h /\ heap_total_size h' = heap_total_size h /\
  head h' = head h /\ initialized h' = initialized h.

(** A computation that, started on an initialized allocator, leaves the
    statics of the arena as they are whenever it returns. *)
Definition arena_fixed {A} (c : M A) : Prop :=
  forall h a h', initialized h = true -> c h = Ret a h' -> same_arena h h'.

(** No payload size is negative and every allocated block holds at least
    [MIN_BLOCK_SIZE] bytes. *)
Definition min_sizes (l : list block) : Prop :=
  Forall (fun x => 0 <= fst x /\ (snd x = false -> MIN_BLOCK_SIZE <= fst x)) l.

(** * Concrete runs *)

(** A system allocator that always hands out the buffer at address 4096. *)
Definition demo_std_malloc (n : Z) : Z := if n <? 2 ^ 63 then 4096 else 0.

(** The statics at program start. *)
Definition program_start : Heap := mkHeap (fun _ => 0) 0 0 0 false [].

(** The state an outcome leaves. *)
Definition heap_after {A} (r : result A) : Heap :=
  match r with Ret _ h => h | Err _ => program_start end.

(** [init_allocator(1024)]: one free block of 992 bytes at 4096. *)
Definition demo_fresh : Heap :=
  heap_after (init_allocator demo_std_malloc 1024 program_start).

(** then [malloc(32)], which returns 4128: blocks of 32 (allocated) and 928
    (free) bytes. *)
Definition demo_one : Heap := heap_after (malloc demo_std_malloc 32 demo_fresh).

(** [init_allocator(128)] then [malloc(96)]: the only block, 96 bytes, is
    allocated at 4128. *)
Definition demo_full : Heap :=
  heap_after (malloc demo_std_malloc 96
                (heap_after (init_allocator demo_std_malloc 128 program_start))).

(** [init_allocator(2048)] then [malloc(1024)]: blocks of 1024 (allocated, at
    4128) and 960 (free) bytes. *)
Definition demo_big : Heap :=
  heap_after (malloc demo_std_malloc 1024
                (heap_after (init_allocator demo_std_malloc 2048 program_start))).

(** [demo_one] after [free(4128)]: one free block of 992 bytes again. *)
Definition demo_released : Heap := heap_after (free 4128 demo_one).

(** [demo_one] after a second [malloc(32)], which returns 4192: blocks of 32,
    32 (both allocated) and 864 (free) bytes. *)
Definition demo_two : Heap := heap_after (malloc demo_std_malloc 32 demo_one).

(** * The test program

    [main] of the test program shipped with the allocator, call by call.
    What it prints is not modelled; a failed [assert] ends the run with
    [AssertFailed]; reads and writes of the program itself go through the
    same bounds check as those of the allocator, so that an access through a
    null pointer is the outcome [Err OutOfBounds]. *)

Inductive exit_status : Type := ExitOk | AssertFailed.

Section TestProgram.

Variable std_malloc : Z -> Z.

(** [for (int i = 0; i < 8; ++i) blocks[i] = malloc(50 + i * 10);] *)
Fixpoint malloc_blocks (n : nat) (i : Z) : M (list Z) :=
  match n with
  | O => ret []
  | S k =>
      p <- malloc std_malloc (50 + i * 10) ;;
      ps <- malloc_blocks k (i + 1) ;;
      ret (p :: ps)
  end.

(** [for (int i = 0; i < 40; ++i) assert(z[i] == 0);] *)
Fixpoint all_zero (n : nat) (z i : Z) : M bool :=
  match n with
  | O => ret true
  | S k => v <- ld (z + i) 1 ;; if v =? 0 then all_zero k z (i + 1) else ret false
  end.

(** [for (int i = 0; i < 8; ++i) free(blocks[i]);] *)
Fixpoint free_each (ps : list Z) : M unit :=
  match ps with
  | [] => ret tt
  | p :: r => free p ;; free_each r
  end.

(** The results the rest of [main] uses. *)
Record test_vars : Type := mkVars { var_b : Z; var_blocks : list Z; var_z : Z }.

(** [main] up to and including [calloc(10, 4)]; [None] stands for the
    failed [assert(a && ...)]. *)
Definition test_until_calloc : M (option test_vars) :=
  init_allocator std_malloc (1024 * 1024) ;;
  a <- malloc std_malloc 64 ;;
  if a =? 0 then ret None
  else
    memset a 170 64 ;;
    b <- malloc std_malloc 128 ;;
    memset b 187 128 ;;
    _ <- dump_heap ;;
    free a ;;
    _ <- dump_heap ;;
    b <- realloc std_malloc b 512 ;;
    _ <- dump_heap ;;
    blocks <- malloc_blocks 8 0 ;;
    _ <- dump_heap ;;
    when (negb (nth 2 blocks 0 =? 0)) (free (nth 2 blocks 0)) ;;
    when (negb (nth 3 blocks 0 =? 0)) (free (nth 3 blocks 0)) ;;
    _ <- dump_heap ;;
    z <- calloc std_malloc 10 4 ;;
    ret (Some (mkVars b blocks z)).

(** The rest of [main], from the loop of [assert(z[i] == 0)] on. *)
Definition test_after_calloc (v : test_vars) : M exit_status :=
  ok <- all_zero 40 (var_z v) 0 ;;
  if negb ok then ret AssertFailed
  else
    free (var_z v) ;;
    big <- malloc std_malloc 1024 ;;
    _ <- dump_heap ;;
    big <- realloc std_malloc big 128 ;;
    _ <- dump_heap ;;
    free_each (var_blocks v) ;;
    free (var_b v) ;;
    free big ;;
    _ <- dump_heap ;;
    ret ExitOk.

Definition test_main : M exit_status :=
  r <- test_until_calloc ;;
  match r with
  | None => ret AssertFailed
  | Some v => test_after_calloc v
  end.

End TestProgram.

(** * Reachable states *)

Section ClientCalls.

Variable std_malloc : Z -> Z.

(** The relocate path of [realloc]: lines 193-197 of the source. *)
Definition relocate (ptr new_size : Z) : M Z :=
  let b := payload_to_block ptr in
  newp <- malloc std_malloc new_size ;;
  if newp =? 0 then ret 0
  else
    bs'' <- get_size b ;;
    memcpy newp ptr (Z.min bs'' (request_size new_size)) ;;
    free ptr ;;
    ret newp.

(** One call of the public interface, or one store by the caller into the
    payload of an allocated block. *)
Inductive step (h : Heap) : Heap -> Prop :=
| step_init heap_size h' :
    0 <= heap_size < wB ->
    init_allocator std_malloc heap_size h = Ret tt h' -> step h h'
| step_malloc size p h' :
    0 <= size < wB ->
    malloc std_malloc size h = Ret p h' -> step h h'
| step_calloc nmemb size p h' :
    0 <= nmemb < wB -> 0 <= size < wB ->
    calloc std_malloc nmemb size h = Ret p h' -> step h h'
| step_free p h' :
    free_arg h p ->
    free p h = Ret tt h' -> step h h'
| step_realloc p new_size q h' :
    realloc_arg h p -> 0 <= new_size < wB ->
    realloc std_malloc p new_size h = Ret q h' -> step h h'
| step_write x v :
    in_allocated_payload h x ->
    step h (set_bytes (upd (bytes h) x v) h).

(** The states the allocator can be in: the zero-initialized statics at
    program start and everything reached from them call by call. *)
Inductive reachable : Heap -> Prop :=
| reach_start h :
    initialized h = false -> heap_base h = 0 -> heap_total_size h = 0 ->
    head h = 0 -> stderr_log h = [] -> reachable h
| reach_step h h' : reachable h -> step h h' -> reachable h'.

End ClientCalls.

(** * Proofs *)

(** ** Loads and stores *)

Lemma load_range (m : mem) (a : Z) (n : nat) :
  0 <= load m a n < 256 ^ Z.of_nat n.
Proof.
  revert a; induction n as [|n IH]; intros a.
  - simpl. lia.
  - rewrite Nat2Z.inj_succ, Z.pow_succ_r by lia.
    cbn [load]. specialize (IH (a + 1)).
    pose proof (Z.mod_pos_bound (m a) 256 ltac:(lia)). lia.
Qed.

Lemma load_ext (m m' : mem) (a : Z) (n : nat) :
  (forall x, a <= x < a + Z.of_nat n -> m' x = m x) ->
  load m' a n = load m a n.
Proof.
  revert a; induction n as [|n IH]; intros a H; cbn [load]; [reflexivity|].
  rewrite H by lia. rewrite IH; [reflexivity|].
  intros x Hx; apply H; lia.
Qed.

Lemma store_outside (m : mem) (a : Z) (n : nat) (v x : Z) :
  x < a \/ a + Z.of_nat n <= x -> store m a n v x = m x.
Proof.
  revert m a v; induction n as [|n IH]; intros m a v H; cbn [store]; [reflexivity|].
  rewrite IH by lia. unfold upd.
  destruct (Z.eqb_spec x a); [lia | reflexivity].
Qed.

Lemma load_store_same (m : mem) (a : Z) (n : nat) (v : Z) :
  load (store m a n v) a n = v mod 256 ^ Z.of_nat n.
Proof.
  revert m a v; induction n as [|n IH]; intros m a v.
  - simpl. now rewrite Z.mod_1_r.
  - cbn [load store]. rewrite IH.
    rewrite store_outside by lia. unfold upd. rewrite Z.eqb_refl.
    rewrite Z.mod_mod by lia.
    rewrite Nat2Z.inj_succ, Z.pow_succ_r by lia.
    rewrite Z.rem_mul_r by lia. reflexivity.
Qed.

Lemma load_store_disj (m : mem) (a1 a2 : Z) (n1 n2 : nat) (v : Z) :
  a1 + Z.of_nat n1 <= a2 \/ a2 + Z.of_nat n2 <= a1 ->
  load (store m a2 n2 v) a1 n1 = load m a1 n1.
Proof.
  intros H. apply load_ext. intros x Hx. apply store_outside. lia.
Qed.

Lemma wrap_small (z : Z) : 0 <= z < wB -> wrap z = z.
Proof. intros H. unfold wrap. now apply Z.mod_small. Qed.

Lemma wrap_range (z : Z) : 0 <= wrap z < wB.
Proof. unfold wrap. apply Z.mod_pos_bound. reflexivity. Qed.

Lemma wB_eq : wB = 18446744073709551616.
Proof. reflexivity. Qed.

Lemma pow256_8 : 256 ^ Z.of_nat 8 = wB.
Proof. reflexivity. Qed.

Lemma hdr_sz_eq : align_up sizeof_Block = 32.
Proof. reflexivity. Qed.

Lemma rd_size_range (m : mem) (b : Z) : 0 <= rd_size m b < wB.
Proof. unfold rd_size. rewrite <- pow256_8. apply load_range. Qed.

Lemma rd_next_range (m : mem) (b : Z) : 0 <= rd_next m b < wB.
Proof. unfold rd_next. rewrite <- pow256_8. apply load_range. Qed.

Lemma rd_prev_range (m : mem) (b : Z) : 0 <= rd_prev m b < wB.
Proof. unfold rd_prev. rewrite <- pow256_8. apply load_range. Qed.

(** ** Header fields through stores *)

Lemma rd_size_store_same m b v : rd_size (store m b 8 v) b = wrap v.
Proof. unfold rd_size. now rewrite load_store_same. Qed.

Lemma rd_next_store_same m b v : rd_next (store m (b + 16) 8 v) b = wrap v.
Proof. unfold rd_next. now rewrite load_store_same. Qed.

Lemma rd_prev_store_same m b v : rd_prev (store m (b + 24) 8 v) b = wrap v.
Proof. unfold rd_prev. now rewrite load_store_same. Qed.

Lemma rd_free_store_same m b (v : bool) :
  rd_free (store m (b + 8) 1 (if v then 1 else 0)) b = v.
Proof. unfold rd_free. rewrite load_store_same. now destruct v. Qed.

Lemma rd_free_store_1 m b : rd_free (store m (b + 8) 1 1) b = true.
Proof. apply (rd_free_store_same m b true). Qed.

Lemma rd_free_store_0 m b : rd_free (store m (b + 8) 1 0) b = false.
Proof. apply (rd_free_store_same m b false). Qed.

Lemma rd_size_store_disj m a n v b :
  a + Z.of_nat n <= b \/ b + 8 <= a -> rd_size (store m a n v) b = rd_size m b.
Proof. intros H. unfold rd_size. apply load_store_disj. lia. Qed.

Lemma rd_free_store_disj m a n v b :
  a + Z.of_nat n <= b + 8 \/ b + 9 <= a -> rd_free (store m a n v) b = rd_free m b.
Proof. intros H. unfold rd_free. rewrite load_store_disj by lia. reflexivity. Qed.

Lemma rd_next_store_disj m a n v b :
  a + Z.of_nat n <= b + 16 \/ b + 24 <= a -> rd_next (store m a n v) b = rd_next m b.
Proof. intros H. unfold rd_next. apply load_store_disj. lia. Qed.

Lemma rd_prev_store_disj m a n v b :
  a + Z.of_nat n <= b + 24 \/ b + 32 <= a -> rd_prev (store m a n v) b = rd_prev m b.
Proof. intros H. unfold rd_prev. apply load_store_disj. lia. Qed.

(** A header is read from the 32 bytes at its address only. *)
Lemma rd_hdr_ext (m m' : mem) (b : Z) :
  (forall x, b <= x < b + 32 -> m' x = m x) ->
  rd_size m' b = rd_size m b /\ rd_free m' b = rd_free m b /\
  rd_next m' b = rd_next m b /\ rd_prev m' b = rd_prev m b.
Proof.
  intros H. unfold rd_size, rd_free, rd_next, rd_prev.
  rewrite !(load_ext m m') by (intros x Hx; apply H; lia). auto.
Qed.

(** ** Running the guarded primitives *)

Lemma set_bytes_set_bytes m m' h : set_bytes m' (set_bytes m h) = set_bytes m' h.
Proof. reflexivity. Qed.

Lemma bytes_set_bytes m h : bytes (set_bytes m h) = m.
Proof. reflexivity. Qed.

Lemma set_bytes_id h : set_bytes (bytes h) h = h.
Proof. now destruct h. Qed.

Lemma in_arena_true h a n :
  heap_base h <= a -> a + n <= heap_base h + heap_total_size h -> in_arena h a n = true.
Proof.
  intros H1 H2. unfold in_arena.
  apply andb_true_intro; split; apply Z.leb_le; assumption.
Qed.

Lemma ld_run h a n :
  heap_base h <= a -> a + Z.of_nat n <= heap_base h + heap_total_size h ->
  ld a n h = Ret (load (bytes h) a n) h.
Proof. intros H1 H2. unfold ld. now rewrite in_arena_true. Qed.

Lemma sto_run h a n v :
  heap_base h <= a -> a + Z.of_nat n <= heap_base h + heap_total_size h ->
  sto a n v h = Ret tt (set_bytes (store (bytes h) a n v) h).
Proof. intros H1 H2. unfold sto. now rewrite in_arena_true. Qed.

Lemma get_size_run h b : hdr_in h b -> get_size b h = Ret (rd_size (bytes h) b) h.
Proof. intros [H1 H2]. unfold get_size. apply ld_run; simpl; lia. Qed.

Lemma get_free_run h b : hdr_in h b -> get_free b h = Ret (rd_free (bytes h) b) h.
Proof.
  intros [H1 H2]. unfold get_free, bind. rewrite ld_run by (simpl; lia). reflexivity.
Qed.

Lemma get_next_run h b : hdr_in h b -> get_next b h = Ret (rd_next (bytes h) b) h.
Proof. intros [H1 H2]. unfold get_next. apply ld_run; simpl; lia. Qed.

Lemma get_prev_run h b : hdr_in h b -> get_prev b h = Ret (rd_prev (bytes h) b) h.
Proof. intros [H1 H2]. unfold get_prev. apply ld_run; simpl; lia. Qed.

Lemma set_size_run h b v :
  hdr_in h b -> set_size b v h = Ret tt (set_bytes (store (bytes h) b 8 v) h).
Proof. intros [H1 H2]. unfold set_size. apply sto_run; simpl; lia. Qed.

Lemma set_free_run h b v :
  hdr_in h b ->
  set_free b v h = Ret tt (set_bytes (store (bytes h) (b + 8) 1 (if v then 1 else 0)) h).
Proof. intros [H1 H2]. unfold set_free. apply sto_run; simpl; lia. Qed.

Lemma set_next_run h b v :
  hdr_in h b -> set_next b v h = Ret tt (set_bytes (store (bytes h) (b + 16) 8 v) h).
Proof. intros [H1 H2]. unfold set_next. apply sto_run; simpl; lia. Qed.

Lemma set_prev_run h b v :
  hdr_in h b -> set_prev b v h = Ret tt (set_bytes (store (bytes h) (b + 24) 8 v) h).
Proof. intros [H1 H2]. unfold set_prev. apply sto_run; simpl; lia. Qed.

Lemma bind_run {A B} (c : M A) (k : A -> M B) h a h1 r :
  c h = Ret a h1 -> k a h1 = r -> bind c k h = r.
Proof. intros H1 H2. unfold bind. now rewrite H1. Qed.

Lemma ret_run {A} (a : A) h : ret a h = Ret a h.
Proof. reflexivity. Qed.

(** ** Segments of the chain *)

Lemma seg_nonneg m p a l nx : seg m p a l nx -> nonneg_sizes l.
Proof.
  revert p a; induction l as [|[s f] r IH]; intros p a H; constructor.
  - destruct H as (H & _). simpl. rewrite <- H. apply rd_size_range.
  - destruct H as (_ & _ & _ & _ & H). eapply IH; eauto.
Qed.

Lemma end_addr_app a l1 l2 : end_addr a (l1 ++ l2) = end_addr (end_addr a l1) l2.
Proof.
  revert a; induction l1 as [|[s f] r IH]; intros a; simpl; [reflexivity | apply IH].
Qed.

Lemma end_addr_ge a l : nonneg_sizes l -> a + 32 * Z.of_nat (length l) <= end_addr a l.
Proof.
  revert a; induction l as [|[s f] r IH]; intros a H.
  - simpl. lia.
  - inversion H as [|? ? Hs Hr]; subst. cbn [fst] in Hs.
    cbn [length end_addr]. rewrite Nat2Z.inj_succ.
    specialize (IH (a + 32 + s) Hr). lia.
Qed.

Lemma nonneg_app l1 l2 : nonneg_sizes (l1 ++ l2) <-> nonneg_sizes l1 /\ nonneg_sizes l2.
Proof. apply Forall_app. Qed.

Lemma seg_app m p a l1 l2 nx :
  seg m p a (l1 ++ l2) nx <->
  seg m p a l1 (nxt_of (end_addr a l1) l2 nx) /\
  seg m (last_hdr p a l1) (end_addr a l1) l2 nx.
Proof.
  revert p a; induction l1 as [|[s f] r IH]; intros p a.
  - simpl. tauto.
  - cbn [app seg end_addr last_hdr]. rewrite IH.
    assert (E : nxt_of (a + 32 + s) (r ++ l2) nx =
                nxt_of (a + 32 + s) r (nxt_of (end_addr (a + 32 + s) r) l2 nx)).
    { destruct r as [|[s' f'] r']; reflexivity. }
    rewrite E. tauto.
Qed.

(** Headers depend on the bytes of the segment only. *)
Lemma seg_frame m m' p a l nx :
  (forall x, a <= x < end_addr a l -> m' x = m x) ->
  seg m p a l nx -> seg m' p a l nx.
Proof.
  revert p a; induction l as [|[s f] r IH]; intros p a Hx H; [exact I|].
  pose proof (seg_nonneg _ _ _ _ _ H) as Hn. inversion Hn as [|? ? Hs Hr]; subst.
  simpl in Hs. cbn [seg end_addr] in *.
  pose proof (end_addr_ge (a + 32 + s) r Hr) as Hge.
  destruct (rd_hdr_ext m m' a) as (E1 & E2 & E3 & E4).
  { intros x Hx'. apply Hx. lia. }
  destruct H as (H1 & H2 & H3 & H4 & H5).
  rewrite E1, E2, E3, E4. repeat split; auto.
  apply IH; auto. intros x Hx'. apply Hx. lia.
Qed.

(** ** Symbolic execution of the monadic code *)

Ltac hdr_tac :=
  first [ assumption
        | match goal with
          | H : hdr_in ?h ?b |- hdr_in (set_bytes _ ?h) ?b => exact H
          end
        | unfold hdr_in in *; cbn [set_bytes heap_base heap_total_size] in *; lia ].

Ltac mprim :=
  lazymatch goal with
  | |- get_size _ _ = _ => apply get_size_run
  | |- get_free _ _ = _ => apply get_free_run
  | |- get_next _ _ = _ => apply get_next_run
  | |- get_prev _ _ = _ => apply get_prev_run
  | |- set_size _ _ _ = _ => apply set_size_run
  | |- set_free _ _ _ = _ => apply set_free_run
  | |- set_next _ _ _ = _ => apply set_next_run
  | |- set_prev _ _ _ = _ => apply set_prev_run
  end.

Ltac mstep :=
  eapply bind_run;
  [ lazymatch goal with
    | |- ret _ _ = _ => apply ret_run
    | _ => mprim; hdr_tac
    end
  | cbv beta; rewrite ?set_bytes_set_bytes, ?bytes_set_bytes ].

Ltac rd_simp :=
  repeat first
    [ rewrite rd_size_store_same | rewrite rd_next_store_same
    | rewrite rd_prev_store_same | rewrite rd_free_store_same
    | rewrite rd_free_store_1 | rewrite rd_free_store_0
    | rewrite rd_size_store_disj by lia | rewrite rd_free_store_disj by lia
    | rewrite rd_next_store_disj by lia | rewrite rd_prev_store_disj by lia ].

(** ** [find_fit] and [dump_heap] on a chain *)

Lemma seg_hdr_in h p a s f r nx :
  seg (bytes h) p a ((s, f) :: r) nx ->
  heap_base h <= a ->
  end_addr a ((s, f) :: r) <= heap_base h + heap_total_size h ->
  hdr_in h a /\ 0 <= s /\ heap_base h <= a + 32 + s.
Proof.
  intros H Ha He. pose proof (seg_nonneg _ _ _ _ _ H) as Hn.
  inversion Hn as [|? ? Hs Hr]; subst. cbn [fst] in Hs. cbn [end_addr] in He.
  pose proof (end_addr_ge (a + 32 + s) r Hr). unfold hdr_in. lia.
Qed.

Lemma find_fit_from_spec h asize l :
  forall fuel p a,
    (length l < fuel)%nat ->
    seg (bytes h) p a l 0 ->
    0 < a -> heap_base h <= a ->
    end_addr a l <= heap_base h + heap_total_size h ->
    find_fit_from fuel (nxt_of a l 0) asize h = Ret (first_fit a asize l) h.
Proof.
  induction l as [|[s f] r IH]; intros fuel p a Hf Hseg Hpos Ha He;
    (destruct fuel as [|fuel]; [simpl in Hf; lia|]).
  - reflexivity.
  - destruct (seg_hdr_in _ _ _ _ _ _ _ Hseg Ha He) as (Hin & Hs & Ha').
    destruct Hseg as (E1 & E2 & E3 & E4 & Hr).
    cbn [find_fit_from nxt_of first_fit].
    destruct (Z.eqb_spec a 0) as [?|_]; [lia|].
    mstep. rewrite E2.
    assert (Hnext : find_fit_from fuel (rd_next (bytes h) a) asize h =
                    Ret (first_fit (a + 32 + s) asize r) h).
    { rewrite E4. apply (IH fuel a (a + 32 + s)); auto; try lia.
      simpl in Hf. lia. }
    destruct f; cbn [andb].
    + eapply bind_run; [mstep; apply ret_run|]. cbv beta. rewrite E1.
      destruct (asize <=? s); [reflexivity|].
      mstep. exact Hnext.
    + mstep. mstep. exact Hnext.
Qed.

Lemma Chain_length h l : Chain h l -> (length l < chain_fuel h)%nat.
Proof.
  intros (_ & Hb & _ & _ & _ & _ & Hseg & He).
  pose proof (end_addr_ge (heap_base h) l (seg_nonneg _ _ _ _ _ Hseg)) as Hge.
  unfold chain_fuel, sizeof_Block.
  assert (Z.of_nat (length l) <= heap_total_size h / 32).
  { apply Z.div_le_lower_bound; lia. }
  lia.
Qed.

Lemma nxt_of_nonempty a l nx : l <> [] -> nxt_of a l nx = a.
Proof. destruct l; [congruence | reflexivity]. Qed.

Lemma find_fit_spec h l asize :
  Chain h l -> find_fit asize h = Ret (first_fit (heap_base h) asize l) h.
Proof.
  intros Hc. pose proof (Chain_length _ _ Hc) as Hlen.
  destruct Hc as (_ & Hb & _ & _ & Hhd & Hne & Hseg & He).
  unfold find_fit. rewrite Hhd.
  rewrite <- (nxt_of_nonempty (heap_base h) l 0 Hne) at 1.
  eapply find_fit_from_spec; eauto; lia.
Qed.

Lemma block_to_payload_eq b : 0 < b -> b + 32 < wB -> block_to_payload b = b + 32.
Proof.
  intros H1 H2. unfold block_to_payload. rewrite hdr_sz_eq.
  destruct (Z.eqb_spec b 0); [lia|]. unfold add64. apply wrap_small. lia.
Qed.

Lemma payload_to_block_eq p : 32 <= p < wB -> payload_to_block p = p - 32.
Proof.
  intros H. unfold payload_to_block. rewrite hdr_sz_eq.
  destruct (Z.eqb_spec p 0); [lia|]. unfold sub64. apply wrap_small. lia.
Qed.

Lemma dump_from_spec h l :
  forall fuel p a,
    (length l < fuel)%nat ->
    seg (bytes h) p a l 0 ->
    0 < a -> heap_base h <= a ->
    end_addr a l <= heap_base h + heap_total_size h ->
    heap_base h + heap_total_size h < wB ->
    dump_from fuel (nxt_of a l 0) h = Ret (layout p a l 0) h.
Proof.
  induction l as [|[s f] r IH]; intros fuel p a Hf Hseg Hpos Ha He Hw;
    (destruct fuel as [|fuel]; [simpl in Hf; lia|]).
  - reflexivity.
  - destruct (seg_hdr_in _ _ _ _ _ _ _ Hseg Ha He) as (Hin & Hs & Ha').
    destruct Hseg as (E1 & E2 & E3 & E4 & Hr).
    cbn [dump_from nxt_of layout].
    destruct (Z.eqb_spec a 0) as [?|_]; [lia|].
    do 4 mstep. rewrite E1, E2, E3, E4.
    eapply bind_run.
    + apply (IH fuel a (a + 32 + s)); auto; try lia. simpl in Hf. lia.
    + cbv beta. unfold ret. rewrite block_to_payload_eq; [reflexivity| lia |].
      unfold hdr_in in Hin. lia.
Qed.

Lemma dump_heap_spec h l :
  Chain h l -> dump_heap h = Ret (Some (layout 0 (heap_base h) l 0)) h.
Proof.
  intros Hc. pose proof (Chain_length _ _ Hc) as Hlen.
  destruct Hc as (Hi & Hb & Hw & _ & Hhd & Hne & Hseg & He).
  unfold dump_heap. eapply bind_run; [reflexivity|]. cbv beta. rewrite Hi. cbn [negb].
  eapply bind_run; [reflexivity|]. cbv beta.
  eapply bind_run; [reflexivity|]. cbv beta.
  eapply bind_run; [|reflexivity].
  rewrite Hhd. rewrite <- (nxt_of_nonempty (heap_base h) l 0 Hne) at 1.
  eapply dump_from_spec; eauto; lia.
Qed.

(** ** Blocks inside a chain *)

Ltac zlia := unfold wB, wbits in *; lia.

Lemma add64_small x y : 0 <= x + y < wB -> add64 x y = x + y.
Proof. apply wrap_small. Qed.

Lemma sub64_small x y : 0 <= x - y < wB -> sub64 x y = x - y.
Proof. apply wrap_small. Qed.

(** Remove the wrap-around where the operands are known not to overflow. *)
Ltac w64 :=
  repeat match goal with
         | |- context [add64 ?x ?y] => rewrite (add64_small x y) by zlia
         | |- context [sub64 ?x ?y] => rewrite (sub64_small x y) by zlia
         | |- context [wrap ?x] => rewrite (wrap_small x) by zlia
         end.

Ltac frame_tac :=
  let x := fresh "x" in
  let Hx := fresh "Hx" in
  intros x Hx; repeat (rewrite store_outside by lia); try reflexivity.

(** Re-pointing the [prev] link of the first block of a segment. *)
Lemma seg_reprev m m' p p' a l nx :
  seg m p a l nx ->
  (forall x, a <= x < end_addr a l -> ~ (a + 24 <= x < a + 32) -> m' x = m x) ->
  (l <> [] -> rd_prev m' a = p') ->
  seg m' p' a l nx.
Proof.
  destruct l as [|[s f] r]; [intros; exact I|].
  intros H Hx Hp.
  pose proof (seg_nonneg _ _ _ _ _ H) as Hn. inversion Hn as [|? ? Hs Hr]; subst.
  cbn [fst] in Hs. cbn [seg end_addr] in *.
  pose proof (end_addr_ge (a + 32 + s) r Hr) as Hge.
  destruct H as (H1 & H2 & H3 & H4 & H5).
  assert (E1 : rd_size m' a = rd_size m a).
  { unfold rd_size. apply load_ext. intros x Hx'. apply Hx; lia. }
  assert (E2 : rd_free m' a = rd_free m a).
  { unfold rd_free. rewrite (load_ext m m'); [reflexivity|].
    intros x Hx'. apply Hx; lia. }
  assert (E4 : rd_next m' a = rd_next m a).
  { unfold rd_next. apply load_ext. intros x Hx'. apply Hx; lia. }
  rewrite E1, E2, E4. repeat split; auto.
  - apply Hp. discriminate.
  - eapply seg_frame; [|exact H5]. intros x Hx'. apply Hx; lia.
Qed.

(** The facts a chain gives about one of its blocks. *)
Lemma Chain_block h l1 s f l2 :
  Chain h (l1 ++ (s, f) :: l2) ->
  let m := bytes h in
  let b := end_addr (heap_base h) l1 in
  hdr_in h b /\ 0 < b /\ heap_base h <= b /\ 0 <= s /\
  b + 32 + s <= heap_base h + heap_total_size h /\
  end_addr (b + 32 + s) l2 = heap_base h + heap_total_size h /\
  rd_size m b = s /\ rd_free m b = f /\
  rd_prev m b = last_hdr 0 (heap_base h) l1 /\
  rd_next m b = nxt_of (b + 32 + s) l2 0 /\
  seg m 0 (heap_base h) l1 b /\
  seg m b (b + 32 + s) l2 0 /\
  nonneg_sizes l1 /\ nonneg_sizes l2.
Proof.
  intros (Hi & Hb & Hw & Ht & Hhd & Hne & Hseg & He) m b.
  pose proof (seg_nonneg _ _ _ _ _ Hseg) as Hn.
  apply nonneg_app in Hn. destruct Hn as [Hn1 Hn2].
  inversion Hn2 as [|? ? Hs Hn2']; subst. cbn [fst] in Hs.
  rewrite end_addr_app in He. cbn [end_addr] in He. fold b in He.
  apply seg_app in Hseg. destruct Hseg as [Hs1 Hs2]. fold m b in Hs1, Hs2.
  cbn [nxt_of seg] in Hs1, Hs2. destruct Hs2 as (E1 & E2 & E3 & E4 & Hs2).
  pose proof (end_addr_ge (heap_base h) l1 Hn1) as G1. fold b in G1.
  pose proof (end_addr_ge (b + 32 + s) l2 Hn2') as G2.
  unfold hdr_in. repeat split; auto; lia.
Qed.

Lemma Chain_update h l m' l' :
  Chain h l ->
  seg m' 0 (heap_base h) l' 0 ->
  end_addr (heap_base h) l' = heap_base h + heap_total_size h ->
  l' <> [] ->
  Chain (set_bytes m' h) l'.
Proof.
  intros (Hi & Hb & Hw & Ht & Hhd & Hne & Hseg & He) Hs' He' Hne'.
  unfold Chain. cbn [set_bytes initialized heap_base heap_total_size head bytes].
  repeat split; auto.
Qed.

Lemma run_final {A} (c : M A) h0 a h1 h2 :
  c h0 = Ret a h1 -> h1 = h2 -> c h0 = Ret a h2.
Proof. congruence. Qed.

Ltac mlast :=
  eapply run_final;
  [ mprim; hdr_tac
  | rewrite ?bytes_set_bytes, ?set_bytes_set_bytes; reflexivity ].

Ltac fields_tac :=
  repeat split; rd_simp; w64; try reflexivity; try assumption; try lia.

Lemma split_block_free h l1 s l2 asize :
  Chain h (l1 ++ (s, true) :: l2) ->
  0 <= asize <= s ->
  exists m',
    split_block (end_addr (heap_base h) l1) asize h = Ret tt (set_bytes m' h) /\
    Chain (set_bytes m' h) (l1 ++ carve asize s ++ l2).
Proof.
  intros Hc Ha.
  destruct (Chain_block _ _ _ _ _ Hc)
    as (Hin & Hb0 & Hb & Hs & Hend & Hend2 & E1 & E2 & E3 & E4 & S1 & S2 & N1 & N2).
  pose proof Hc as (Hi & Hbase & Hw & Ht & Hhd & Hne & Hseg & He).
  set (b := end_addr (heap_base h) l1) in *.
  unfold split_block. rewrite hdr_sz_eq. unfold MIN_BLOCK_SIZE.
  unfold carve. destruct (Z.leb_spec (asize + 32 + 32) s) as [Hbig|Hsmall].
  - assert (Hnewb : add64 (add64 b 32) asize = b + 32 + asize).
    { w64. reflexivity. }
    assert (Hrem : sub64 (sub64 s asize) 32 = s - asize - 32).
    { w64. reflexivity. }
    assert (Hcond : (add64 (add64 asize 32) 32 <=? s) = true).
    { w64. apply Z.leb_le. lia. }
    assert (Hin' : hdr_in h (b + 32 + asize)) by (unfold hdr_in in *; lia).
    assert (Hnx : b + 32 + asize + 32 + (s - asize - 32) = b + 32 + s) by lia.
    rewrite Hnewb.
    destruct l2 as [|[s2 f2] r2].
    + eexists; split.
      * mstep. rewrite E2. cbn [negb]. mstep. rewrite E1, Hcond.
        eapply bind_run.
        { mstep. rewrite E1, Hrem. do 4 mstep. rd_simp. rewrite E4. cbn [nxt_of].
          mstep. mstep. rd_simp. rewrite E4. cbn [nxt_of Z.eqb negb when].
          mstep. mstep. mlast. }
        cbv beta. mlast.
      * apply (Chain_update _ _ _ _ Hc).
        -- apply seg_app. split.
           ++ cbn [nxt_of app]. eapply seg_frame; [|exact S1]. fold b. frame_tac.
           ++ fold b. cbn [app seg nxt_of]. fields_tac.
        -- rewrite end_addr_app. fold b. cbn [app end_addr] in *. lia.
        -- destruct l1; discriminate.
    + assert (Hin2 : hdr_in h (b + 32 + s)).
      { destruct (seg_hdr_in h _ _ _ _ _ _ S2) as (G & _); [lia| lia | exact G]. }
      eexists; split.
      * mstep. rewrite E2. cbn [negb]. mstep. rewrite E1, Hcond.
        eapply bind_run.
        { mstep. rewrite E1, Hrem. do 4 mstep. rd_simp. rewrite E4. cbn [nxt_of].
          mstep. mstep. rd_simp. rewrite E4. cbn [nxt_of].
          destruct (Z.eqb_spec (b + 32 + s) 0) as [?|_]; [lia|]. cbn [negb when].
          eapply bind_run.
          { mstep. rd_simp. rewrite E4. cbn [nxt_of]. mlast. }
          cbv beta. mstep. mlast. }
        cbv beta. mlast.
      * apply (Chain_update _ _ _ _ Hc).
        -- apply seg_app. split.
           ++ cbn [nxt_of app]. eapply seg_frame; [|exact S1]. fold b. frame_tac.
           ++ fold b. 
              change ([(asize, false); (s - asize - 32, true)] ++ (s2, f2) :: r2)
                with ([(asize, false); (s - asize - 32, true)] ++ ((s2, f2) :: r2)).
              apply seg_app. cbn [end_addr last_hdr nxt_of]. rewrite Hnx. split.
              ** cbn [seg nxt_of]. fields_tac.
              ** eapply seg_reprev; [exact S2 | |].
                 { intros x Hx Hx'. repeat (rewrite store_outside by lia). reflexivity. }
                 { intros _. rd_simp. w64. reflexivity. }
        -- rewrite end_addr_app. fold b. cbn [app end_addr]. rewrite Hnx.
           cbn [end_addr] in Hend2. exact Hend2.
        -- destruct l1; discriminate.
  - assert (Hcond : (add64 (add64 asize 32) 32 <=? s) = false).
    { w64. apply Z.leb_gt. lia. }
    eexists; split.
    + mstep. rewrite E2. cbn [negb]. mstep. rewrite E1, Hcond. mstep. mlast.
    + apply (Chain_update _ _ _ _ Hc).
      * apply seg_app. split.
        -- cbn [nxt_of app]. eapply seg_frame; [|exact S1]. fold b. frame_tac.
        -- fold b. cbn [app seg]. fields_tac.
           eapply seg_frame; [|exact S2]. frame_tac.
      * rewrite end_addr_app. fold b. cbn [app end_addr] in *. lia.
      * destruct l1; discriminate.
Qed.

(** ** [malloc] on a chain *)

Lemma request_size_min size : 32 <= request_size size.
Proof.
  unfold request_size, MIN_BLOCK_SIZE.
  destruct (Z.ltb_spec (align_up size) 32); lia.
Qed.

Lemma first_fit_none a asize l :
  Forall (fun x => fits asize x = false) l -> first_fit a asize l = 0.
Proof.
  revert a; induction l as [|[s f] r IH]; intros a H; [reflexivity|].
  inversion H as [|? ? Hx Hr]; subst. unfold fits in Hx. cbn [fst snd] in Hx.
  cbn [first_fit]. rewrite Hx. apply IH; assumption.
Qed.

Lemma first_fit_some a asize l1 x l2 :
  Forall (fun x => fits asize x = false) l1 -> fits asize x = true ->
  first_fit a asize (l1 ++ x :: l2) = end_addr a l1.
Proof.
  revert a; induction l1 as [|[s f] r IH]; intros a H Hx.
  - destruct x as [s f]. unfold fits in Hx. cbn [fst snd] in Hx.
    cbn [app first_fit end_addr]. now rewrite Hx.
  - inversion H as [|? ? Hy Hr]; subst. unfold fits in Hy. cbn [fst snd] in Hy.
    cbn [app first_fit end_addr]. rewrite Hy. apply IH; assumption.
Qed.

(** Either no block of [l] fits, or [l] splits at its first fitting block. *)
Lemma fits_cases asize (l : list block) :
  Forall (fun x => fits asize x = false) l \/
  exists l1 s l2, l = l1 ++ (s, true) :: l2 /\ asize <= s /\
                  Forall (fun x => fits asize x = false) l1.
Proof.
  induction l as [|[s f] r IH].
  - left. constructor.
  - destruct (fits asize (s, f)) eqn:E.
    + right. exists [], s, r. unfold fits in E. cbn [fst snd] in E.
      apply andb_prop in E. destruct E as [-> E]. apply Z.leb_le in E.
      repeat split; auto.
    + destruct IH as [IH|(l1 & s' & l2 & -> & Hs & Hl)].
      * left. constructor; assumption.
      * right. exists ((s, f) :: l1), s', l2. repeat split; auto.
Qed.

Section Operations.

Variable std_malloc : Z -> Z.

Lemma malloc_zero h : malloc std_malloc 0 h = Ret 0 h.
Proof. reflexivity. Qed.

Lemma malloc_none h l size :
  Chain h l -> size <> 0 ->
  Forall (fun x => fits (request_size size) x = false) l ->
  malloc std_malloc size h = Ret 0 h.
Proof.
  intros Hc Hsz Hno. unfold malloc.
  destruct (Z.eqb_spec size 0) as [?|_]; [contradiction|].
  eapply bind_run; [reflexivity|]. cbv beta.
  destruct Hc as (Hi & Hc'). rewrite Hi. cbn [negb when].
  eapply bind_run; [apply ret_run|]. cbv beta.
  eapply bind_run; [apply (find_fit_spec h l); unfold Chain; auto|].
  cbv beta. fold (request_size size). rewrite first_fit_none by assumption.
  reflexivity.
Qed.

Lemma malloc_some h l1 s l2 size :
  Chain h (l1 ++ (s, true) :: l2) -> size <> 0 ->
  request_size size <= s ->
  Forall (fun x => fits (request_size size) x = false) l1 ->
  exists m',
    malloc std_malloc size h =
      Ret (end_addr (heap_base h) l1 + 32) (set_bytes m' h) /\
    Chain (set_bytes m' h) (l1 ++ carve (request_size size) s ++ l2).
Proof.
  intros Hc Hsz Hfit Hno.
  destruct (split_block_free h l1 s l2 (request_size size) Hc) as (m' & Hrun & Hc').
  { pose proof (request_size_min size). lia. }
  destruct (Chain_block _ _ _ _ _ Hc)
    as (Hin & Hb0 & Hb & Hs & Hend & _).
  exists m'. split; [|exact Hc'].
  unfold malloc.
  destruct (Z.eqb_spec size 0) as [?|_]; [contradiction|].
  eapply bind_run; [reflexivity|]. cbv beta.
  pose proof Hc as (Hi & _ & Hw & _). rewrite Hi. cbn [negb when].
  eapply bind_run; [apply ret_run|]. cbv beta.
  eapply bind_run; [apply (find_fit_spec h _ _ Hc)|].
  cbv beta. fold (request_size size).
  rewrite first_fit_some; auto.
  2:{ unfold fits. cbn [fst snd andb]. apply Z.leb_le. assumption. }
  destruct (Z.eqb_spec (end_addr (heap_base h) l1) 0) as [?|_]; [lia|].
  eapply bind_run; [exact Hrun|]. cbv beta.
  rewrite block_to_payload_eq; [reflexivity | lia | lia].
Qed.

End Operations.

(** ** Rebuilding a chain around rewritten blocks *)

Lemma last_hdr_app p a l1 l2 :
  last_hdr p a (l1 ++ l2) = last_hdr (last_hdr p a l1) (end_addr a l1) l2.
Proof.
  revert p a; induction l1 as [|[s f] r IH]; intros p a; [reflexivity|].
  cbn [app last_hdr end_addr]. apply IH.
Qed.

(** The blocks [mid] of a chain are replaced by [mid'], which cover the same
    bytes; memory before them is untouched and after them only the [prev]
    link of the following block is rewritten. *)
Lemma Chain_rebuild h l1 mid l2 m' mid' :
  Chain h (l1 ++ mid ++ l2) ->
  let b := end_addr (heap_base h) l1 in
  let e := end_addr b mid in
  mid <> [] -> mid' <> [] ->
  end_addr b mid' = e ->
  (forall x, heap_base h <= x < b -> m' x = bytes h x) ->
  seg m' (last_hdr 0 (heap_base h) l1) b mid' (nxt_of e l2 0) ->
  (forall x, e <= x < heap_base h + heap_total_size h ->
             ~ (e + 24 <= x < e + 32) -> m' x = bytes h x) ->
  (l2 <> [] -> rd_prev m' e = last_hdr (last_hdr 0 (heap_base h) l1) b mid') ->
  Chain (set_bytes m' h) (l1 ++ mid' ++ l2).
Proof.
  intros Hc b e Hne0 Hne Hend Hpre Hmid Hsuf Hprev.
  pose proof Hc as (Hi & Hbase & Hw & Ht & Hhd & _ & Hseg & He).
  apply seg_app in Hseg. destruct Hseg as [S1 S2]. fold b in S1, S2.
  apply seg_app in S2. destruct S2 as [S2 S3]. fold e in S2, S3.
  rewrite !end_addr_app in He. fold b e in He.
  rewrite (nxt_of_nonempty b (mid ++ l2)) in S1
    by (destruct mid; [contradiction | discriminate]).
  apply (Chain_update _ _ _ _ Hc).
  - apply seg_app. fold b. split.
    + rewrite (nxt_of_nonempty b (mid' ++ l2))
        by (destruct mid'; [contradiction | discriminate]).
      eapply seg_frame; [|exact S1]. intros x Hx. apply Hpre. exact Hx.
    + apply seg_app. rewrite Hend. split; [exact Hmid|].
      eapply seg_reprev; [exact S3 | | exact Hprev].
      intros x Hx Hx'. apply Hsuf; [|exact Hx']. lia.
  - rewrite !end_addr_app. fold b. rewrite Hend. exact He.
  - destruct l1; [|discriminate]. destruct mid'; [contradiction | discriminate].
Qed.

(** ** [free] on a chain *)

Lemma coalesce_eq b h : coalesce b h = (coalesce_next b ;; coalesce_prev b) h.
Proof.
  unfold coalesce, coalesce_next, coalesce_prev, bind.
  destruct (get_next b h) as [bn h1|]; [|reflexivity].
  destruct (is_free_block bn h1) as [nf h2|]; reflexivity.
Qed.

Lemma is_free_block_null h : is_free_block 0 h = Ret false h.
Proof. reflexivity. Qed.

Lemma is_free_block_run h b :
  b <> 0 -> hdr_in h b -> is_free_block b h = Ret (rd_free (bytes h) b) h.
Proof.
  intros Hb Hin. unfold is_free_block.
  destruct (Z.eqb_spec b 0); [contradiction|]. now apply get_free_run.
Qed.

Lemma coalesce_next_spec h l1 s l2 :
  Chain h (l1 ++ (s, true) :: l2) ->
  exists m',
    coalesce_next (end_addr (heap_base h) l1) h = Ret tt (set_bytes m' h) /\
    Chain (set_bytes m' h)
          (l1 ++ (fst (absorb_next s l2), true) :: snd (absorb_next s l2)).
Proof.
  intros Hc.
  destruct (Chain_block _ _ _ _ _ Hc)
    as (Hin & Hb0 & Hb & Hs & Hend & Hend2 & E1 & E2 & E3 & E4 & S1 & S2 & N1 & N2).
  pose proof Hc as (Hi & Hbase & Hw & Ht & Hhd & Hne & Hseg & He).
  set (b := end_addr (heap_base h) l1) in *.
  unfold coalesce_next. rewrite hdr_sz_eq.
  destruct l2 as [|[s2 f2] r2].
  - (* no successor *)
    exists (bytes h). rewrite set_bytes_id. split; [|exact Hc].
    mstep. rewrite E4. cbn [nxt_of].
    eapply bind_run; [apply is_free_block_null|]. reflexivity.
  - assert (Hin2 : hdr_in h (b + 32 + s)).
    { destruct (seg_hdr_in h _ _ _ _ _ _ S2) as (G & _); [lia| lia | exact G]. }
    pose proof S2 as (F1 & F2 & F3 & F4 & S3).
    destruct f2.
    + (* free successor: absorbed *)
      cbn [absorb_next fst snd].
      assert (Hsz : 0 <= s2) by (rewrite <- F1; apply rd_size_range).
      assert (Hend3 : b + 32 + s + 32 + s2 <= heap_base h + heap_total_size h).
      { pose proof (end_addr_ge (b + 32 + s + 32 + s2) r2) as G.
        cbn [end_addr] in Hend2. inversion N2; subst. specialize (G H2). lia. }
      destruct r2 as [|[s3 f3] r3].
      * eexists; split.
        -- mstep. rewrite E4. cbn [nxt_of].
           eapply bind_run; [apply is_free_block_run; [lia | hdr_tac]|].
           cbv beta. rewrite F2. cbn [when].
           mstep. rewrite E4. cbn [nxt_of]. mstep. rewrite E1. mstep. rewrite F1.
           mstep. mstep. rd_simp. rewrite F4. cbn [nxt_of].
           mstep. mstep. rd_simp. rewrite F4. cbn [nxt_of Z.eqb negb when].
           reflexivity.
        -- apply (Chain_rebuild h l1 [(s, true); (s2, true)] [] _
                    [(s + 32 + s2, true)] Hc); fold b; cbn [end_addr last_hdr nxt_of].
           ++ discriminate.
           ++ discriminate.
           ++ lia.
           ++ frame_tac.
           ++ cbn [seg nxt_of]. fields_tac.
           ++ intros x Hx Hx'. repeat (rewrite store_outside by lia). reflexivity.
           ++ intros G; contradiction.
      * assert (Hin3 : hdr_in h (b + 32 + s + 32 + s2)).
        { destruct (seg_hdr_in h _ _ _ _ _ _ S3) as (G & _);
            [lia | cbn [end_addr] in *; lia | exact G]. }
        eexists; split.
        -- mstep. rewrite E4. cbn [nxt_of].
           eapply bind_run; [apply is_free_block_run; [lia | hdr_tac]|].
           cbv beta. rewrite F2. cbn [when].
           mstep. rewrite E4. cbn [nxt_of]. mstep. rewrite E1. mstep. rewrite F1.
           mstep. mstep. rd_simp. rewrite F4. cbn [nxt_of].
           mstep. mstep. rd_simp. rewrite F4. cbn [nxt_of].
           destruct (Z.eqb_spec (b + 32 + s + 32 + s2) 0) as [?|_]; [lia|].
           cbn [negb when]. mstep. rd_simp. rewrite F4. cbn [nxt_of]. mlast.
        -- apply (Chain_rebuild h l1 [(s, true); (s2, true)] ((s3, f3) :: r3) _
                    [(s + 32 + s2, true)] Hc); fold b; cbn [end_addr last_hdr nxt_of].
           ++ discriminate.
           ++ discriminate.
           ++ lia.
           ++ frame_tac.
           ++ cbn [seg nxt_of]. fields_tac.
           ++ intros x Hx Hx'. repeat (rewrite store_outside by lia). reflexivity.
           ++ intros _. rd_simp. w64. reflexivity.
    + (* allocated successor *)
      cbn [absorb_next fst snd].
      exists (bytes h). rewrite set_bytes_id. split; [|exact Hc].
      mstep. rewrite E4. cbn [nxt_of].
      eapply bind_run; [apply is_free_block_run; [lia | hdr_tac]|].
      cbv beta. rewrite F2. reflexivity.
Qed.

Lemma coalesce_prev_spec h l1 s l2 :
  Chain h (l1 ++ (s, true) :: l2) ->
  exists m' r,
    coalesce_prev (end_addr (heap_base h) l1) h = Ret r (set_bytes m' h) /\
    Chain (set_bytes m' h) (merge_prev l1 s l2) /\
    rd_free m' (end_addr (heap_base h) l1) = true.
Proof.
  intros Hc.
  destruct (Chain_block _ _ _ _ _ Hc)
    as (Hin & Hb0 & Hb & Hs & Hend & Hend2 & E1 & E2 & E3 & E4 & S1 & S2 & N1 & N2).
  pose proof Hc as (_ & Hbase & Hw & Ht & _).
  unfold coalesce_prev. rewrite hdr_sz_eq.
  destruct l1 as [|x0 l0] using rev_ind.
  - (* no predecessor *)
    exists (bytes h), (heap_base h). rewrite set_bytes_id.
    split; [|split; [exact Hc | exact E2]].
    cbn [end_addr last_hdr] in *. mstep. rewrite E3.
    eapply bind_run; [apply is_free_block_null|]. reflexivity.
  - clear IHl0. destruct x0 as [sp fp].
    rewrite <- app_assoc in Hc. cbn [app] in Hc.
    destruct (Chain_block _ _ _ _ _ Hc)
      as (Pin & Pb0 & Pb & Ps & Pend & Pend2 & P1 & P2 & P3 & P4 & T1 & T2 & M1 & M2).
    rewrite last_hdr_app, end_addr_app in *. cbn [last_hdr end_addr nxt_of] in *.
    set (pv := end_addr (heap_base h) l0) in *.
    unfold merge_prev. rewrite last_last, removelast_last.
    destruct fp.
    + (* free predecessor: it absorbs the block *)
      destruct l2 as [|[s2 f2] r2].
      * eexists; eexists; split; [|split].
        -- mstep. rewrite E3.
           eapply bind_run; [apply is_free_block_run; [lia | hdr_tac]|].
           cbv beta. rewrite P2.
           mstep. rewrite E3. mstep. rewrite P1. mstep. rewrite E1.
           mstep. mstep. rd_simp. rewrite E4. cbn [nxt_of].
           mstep. mstep. rd_simp. rewrite E4. cbn [nxt_of Z.eqb negb when].
           mstep. reflexivity.
        -- apply (Chain_rebuild h l0 [(sp, true); (s, true)] [] _
                    [(sp + 32 + s, true)] Hc); fold pv; cbn [end_addr last_hdr nxt_of].
           ++ discriminate.
           ++ discriminate.
           ++ lia.
           ++ frame_tac.
           ++ cbn [seg nxt_of]. fields_tac.
           ++ intros x Hx Hx'. repeat (rewrite store_outside by lia). reflexivity.
           ++ intros G; contradiction.
        -- rd_simp. exact E2.
      * assert (Hin2 : hdr_in h (pv + 32 + sp + 32 + s)).
        { destruct (seg_hdr_in h _ _ _ _ _ _ S2) as (G & _);
            [lia | cbn [end_addr] in *; lia | exact G]. }
        eexists; eexists; split; [|split].
        -- mstep. rewrite E3.
           eapply bind_run; [apply is_free_block_run; [lia | hdr_tac]|].
           cbv beta. rewrite P2.
           mstep. rewrite E3. mstep. rewrite P1. mstep. rewrite E1.
           mstep. mstep. rd_simp. rewrite E4. cbn [nxt_of].
           mstep. mstep. rd_simp. rewrite E4. cbn [nxt_of].
           destruct (Z.eqb_spec (pv + 32 + sp + 32 + s) 0) as [?|_]; [lia|].
           cbn [negb when].
           eapply bind_run.
           { mstep. rd_simp. rewrite E4. cbn [nxt_of]. mlast. }
           reflexivity.
        -- apply (Chain_rebuild h l0 [(sp, true); (s, true)] ((s2, f2) :: r2) _
                    [(sp + 32 + s, true)] Hc); fold pv; cbn [end_addr last_hdr nxt_of].
           ++ discriminate.
           ++ discriminate.
           ++ lia.
           ++ frame_tac.
           ++ cbn [seg nxt_of]. fields_tac.
           ++ intros x Hx Hx'. repeat (rewrite store_outside by lia). reflexivity.
           ++ intros _. rd_simp. w64. reflexivity.
        -- rd_simp. exact E2.
    + (* allocated predecessor *)
      exists (bytes h), (pv + 32 + sp). rewrite set_bytes_id.
      split; [|split; [rewrite <- app_assoc; exact Hc | exact E2]].
      mstep. rewrite E3.
      eapply bind_run; [apply is_free_block_run; [lia | hdr_tac]|].
      cbv beta. rewrite P2. reflexivity.
Qed.

Lemma Chain_set_free h l1 s f l2 (f' : bool) :
  Chain h (l1 ++ (s, f) :: l2) ->
  Chain (set_bytes (store (bytes h) (end_addr (heap_base h) l1 + 8) 1
                          (if f' then 1 else 0)) h)
        (l1 ++ (s, f') :: l2).
Proof.
  intros Hc.
  destruct (Chain_block _ _ _ _ _ Hc)
    as (Hin & Hb0 & Hb & Hs & Hend & Hend2 & E1 & E2 & E3 & E4 & S1 & S2 & N1 & N2).
  apply (Chain_rebuild h l1 [(s, f)] l2 _ [(s, f')] Hc);
    cbn [end_addr last_hdr nxt_of].
  - discriminate.
  - discriminate.
  - reflexivity.
  - frame_tac.
  - cbn [seg nxt_of]. fields_tac.
  - intros x Hx Hx'. repeat (rewrite store_outside by lia). reflexivity.
  - intros G. rd_simp. destruct l2 as [|[s2 f2] r2]; [contradiction|].
    destruct S2 as (_ & _ & G' & _). exact G'.
Qed.

Lemma free_null h : free 0 h = Ret tt h.
Proof. reflexivity. Qed.

Lemma free_spec h l1 s l2 :
  Chain h (l1 ++ (s, false) :: l2) -> 0 < s ->
  exists m',
    free (end_addr (heap_base h) l1 + 32) h = Ret tt (set_bytes m' h) /\
    Chain (set_bytes m' h) (release l1 s l2) /\
    rd_free m' (end_addr (heap_base h) l1) = true.
Proof.
  intros Hc Hpos.
  destruct (Chain_block _ _ _ _ _ Hc)
    as (Hin & Hb0 & Hb & Hs & Hend & Hend2 & E1 & E2 & E3 & E4 & S1 & S2 & N1 & N2).
  pose proof Hc as (_ & Hbase & Hw & Ht & _).
  set (b := end_addr (heap_base h) l1) in *.
  pose proof (Chain_set_free h l1 s false l2 true Hc) as Hc1. fold b in Hc1.
  destruct (coalesce_next_spec _ _ _ _ Hc1) as (m1 & R1 & Hc2).
  destruct (coalesce_prev_spec _ _ _ _ Hc2) as (m2 & r & R2 & Hc3 & Hf).
  cbn [heap_base set_bytes] in R1, R2, Hf. fold b in R1, R2, Hf.
  exists m2. split; [|split; [|exact Hf]].
  - unfold free. destruct (Z.eqb_spec (b + 32) 0) as [?|_]; [lia|].
    eapply bind_run; [reflexivity|]. cbv beta.
    destruct (Z.ltb_spec (b + 32) (heap_base h)) as [?|_]; [lia|].
    destruct (Z.leb_spec (heap_base h + heap_total_size h) (b + 32)) as [?|_]; [lia|].
    cbn [orb]. rewrite payload_to_block_eq by lia.
    replace (b + 32 - 32) with b by lia.
    eapply bind_run; [reflexivity|]. cbv beta.
    destruct (Z.ltb_spec b (heap_base h)) as [?|_]; [lia|].
    destruct (Z.leb_spec (heap_base h + heap_total_size h) b) as [?|_]; [lia|].
    cbn [orb]. mstep. rewrite E2. mstep.
    eapply bind_run; [|reflexivity].
    rewrite coalesce_eq. eapply bind_run; [exact R1|]. cbv beta. exact R2.
  - unfold release. destruct (absorb_next s l2) as [s1 l2']. exact Hc3.
Qed.

(** ** Writes inside a payload *)

Lemma Chain_payload_write h l1 s f l2 m' :
  Chain h (l1 ++ (s, f) :: l2) ->
  (forall x, ~ (end_addr (heap_base h) l1 + 32 <= x
                < end_addr (heap_base h) l1 + 32 + s) -> m' x = bytes h x) ->
  Chain (set_bytes m' h) (l1 ++ (s, f) :: l2).
Proof.
  intros Hc Hx.
  destruct (Chain_block _ _ _ _ _ Hc)
    as (Hin & Hb0 & Hb & Hs & Hend & Hend2 & E1 & E2 & E3 & E4 & S1 & S2 & N1 & N2).
  set (b := end_addr (heap_base h) l1) in *.
  destruct (rd_hdr_ext (bytes h) m' b) as (G1 & G2 & G3 & G4).
  { intros x Hx'. apply Hx. lia. }
  apply (Chain_rebuild h l1 [(s, f)] l2 _ [(s, f)] Hc);
    fold b; cbn [end_addr last_hdr nxt_of].
  - discriminate.
  - discriminate.
  - reflexivity.
  - intros x Hx'. apply Hx. lia.
  - cbn [seg]. rewrite G1, G2, G3, G4. auto.
  - intros x Hx1 Hx2. apply Hx. lia.
  - intros G. destruct l2 as [|[s2 f2] r2]; [contradiction|].
    destruct S2 as (_ & _ & G' & _).
    destruct (rd_hdr_ext (bytes h) m' (b + 32 + s)) as (_ & _ & _ & G5).
    { intros x Hx'. apply Hx. lia. }
    rewrite G5. exact G'.
Qed.

(** ** [realloc] on a chain *)

Section Realloc.

Variable std_malloc : Z -> Z.

Lemma pointer_in_heap_block h l1 s f l2 :
  Chain h (l1 ++ (s, f) :: l2) -> 0 < s ->
  pointer_in_heap (end_addr (heap_base h) l1 + 32) h = Ret true h.
Proof.
  intros Hc Hpos.
  destruct (Chain_block _ _ _ _ _ Hc) as (Hin & Hb0 & Hb & Hs & Hend & _).
  destruct Hc as (Hi & Hbase & Hw & Ht & _).
  unfold pointer_in_heap. rewrite Hi.
  destruct (Z.eqb_spec (end_addr (heap_base h) l1 + 32) 0) as [?|_]; [lia|].
  cbn [negb orb]. unfold to_ptrdiff.
  destruct (Z.ltb_spec (heap_total_size h) (2 ^ 63)) as [_|?]; [|lia].
  f_equal. apply andb_true_intro. split; [apply Z.leb_le | apply Z.ltb_lt]; lia.
Qed.

Lemma split_block_allocated h b asize :
  hdr_in h b -> rd_free (bytes h) b = false -> split_block b asize h = Ret tt h.
Proof.
  intros Hin Hf. unfold split_block. mstep. rewrite Hf. reflexivity.
Qed.

(** [realloc] of an allocated block whose payload already holds the rounded
    request: [split_block] is called on a block that is not free and returns
    at once, so nothing changes. *)
Lemma realloc_shrink h l1 s l2 new_size :
  Chain h (l1 ++ (s, false) :: l2) -> 0 < s -> new_size <> 0 ->
  request_size new_size <= s ->
  realloc std_malloc (end_addr (heap_base h) l1 + 32) new_size h =
    Ret (end_addr (heap_base h) l1 + 32) h.
Proof.
  intros Hc Hpos Hn Hle.
  destruct (Chain_block _ _ _ _ _ Hc)
    as (Hin & Hb0 & Hb & Hs & Hend & Hend2 & E1 & E2 & E3 & E4 & S1 & S2 & N1 & N2).
  pose proof Hc as (_ & Hbase & Hw & Ht & _).
  set (b := end_addr (heap_base h) l1) in *.
  unfold realloc.
  destruct (Z.eqb_spec (b + 32) 0) as [?|_]; [lia|].
  destruct (Z.eqb_spec new_size 0) as [?|_]; [contradiction|].
  eapply bind_run; [apply (pointer_in_heap_block _ _ _ _ _ Hc Hpos)|].
  cbv beta. cbn [negb]. rewrite payload_to_block_eq by lia.
  replace (b + 32 - 32) with b by lia. fold (request_size new_size).
  mstep. rewrite E1.
  destruct (Z.leb_spec (request_size new_size) s) as [_|?]; [|lia].
  eapply bind_run; [apply split_block_allocated; assumption|]. reflexivity.
Qed.

(** [realloc] growing in place: the free successor is merged into the block.
    The later call of [split_block] finds the block not free and returns at
    once, so the block keeps the whole combined payload. *)
Lemma realloc_grow h l1 s s2 r2 new_size :
  Chain h (l1 ++ (s, false) :: (s2, true) :: r2) -> 0 < s -> new_size <> 0 ->
  s < request_size new_size <= s + 32 + s2 ->
  exists m',
    realloc std_malloc (end_addr (heap_base h) l1 + 32) new_size h =
      Ret (end_addr (heap_base h) l1 + 32) (set_bytes m' h) /\
    Chain (set_bytes m' h) (l1 ++ (s + 32 + s2, false) :: r2) /\
    (forall x, end_addr (heap_base h) l1 + 32 <= x
               < end_addr (heap_base h) l1 + 32 + s -> m' x = bytes h x).
Proof.
  intros Hc Hpos Hn Hle.
  destruct (Chain_block _ _ _ _ _ Hc)
    as (Hin & Hb0 & Hb & Hs & Hend & Hend2 & E1 & E2 & E3 & E4 & S1 & S2 & N1 & N2).
  pose proof Hc as (_ & Hbase & Hw & Ht & _).
  set (b := end_addr (heap_base h) l1) in *.
  assert (Hin2 : hdr_in h (b + 32 + s)).
  { destruct (seg_hdr_in h _ _ _ _ _ _ S2) as (G & _); [lia| lia | exact G]. }
  pose proof S2 as (F1 & F2 & F3 & F4 & S3).
  assert (Hsz : 0 <= s2) by (rewrite <- F1; apply rd_size_range).
  assert (Hend3 : b + 32 + s + 32 + s2 <= heap_base h + heap_total_size h).
  { pose proof (end_addr_ge (b + 32 + s + 32 + s2) r2) as G.
    cbn [end_addr] in Hend2. inversion N2; subst. specialize (G H2). lia. }
  assert (Hcomb : add64 (add64 s 32) s2 = s + 32 + s2) by (w64; reflexivity).
  unfold realloc.
  destruct (Z.eqb_spec (b + 32) 0) as [?|_]; [lia|].
  destruct (Z.eqb_spec new_size 0) as [?|_]; [contradiction|].
  rewrite payload_to_block_eq by lia.
  replace (b + 32 - 32) with b by lia. fold (request_size new_size).
  rewrite hdr_sz_eq.
  destruct r2 as [|[s3 f3] r3].
  - eexists; split; [|split].
    + eapply bind_run; [apply (pointer_in_heap_block _ _ _ _ _ Hc Hpos)|].
      cbv beta. cbn [negb]. mstep. rewrite E1.
      destruct (Z.leb_spec (request_size new_size) s) as [?|_]; [lia|].
      mstep. rewrite E4. cbn [nxt_of].
      eapply bind_run; [apply is_free_block_run; [lia | hdr_tac]|].
      cbv beta. rewrite F2.
      eapply bind_run.
      { mstep. rewrite E1. mstep. rewrite E4. cbn [nxt_of]. mstep. rewrite F1, Hcomb.
        destruct (Z.leb_spec (request_size new_size) (s + 32 + s2)) as [_|?]; [|lia].
        mstep. rewrite E4. cbn [nxt_of]. mstep. mstep. rd_simp. rewrite F4.
        cbn [nxt_of]. mstep. mstep. rd_simp. rewrite F4.
        cbn [nxt_of Z.eqb negb when]. mstep.
        eapply bind_run.
        { apply split_block_allocated; [hdr_tac|].
          rewrite bytes_set_bytes. rd_simp. exact E2. }
        cbv beta. mstep. reflexivity. }
      reflexivity.
    + apply (Chain_rebuild h l1 [(s, false); (s2, true)] [] _
                [(s + 32 + s2, false)] Hc); fold b; cbn [end_addr last_hdr nxt_of].
      * discriminate.
      * discriminate.
      * lia.
      * frame_tac.
      * cbn [seg nxt_of]. fields_tac.
      * intros x Hx Hx'. repeat (rewrite store_outside by lia). reflexivity.
      * intros G; contradiction.
    + intros x Hx. repeat (rewrite store_outside by lia). reflexivity.
  - assert (Hin3 : hdr_in h (b + 32 + s + 32 + s2)).
    { destruct (seg_hdr_in h _ _ _ _ _ _ S3) as (G & _);
        [lia | cbn [end_addr] in *; lia | exact G]. }
    eexists; split; [|split].
    + eapply bind_run; [apply (pointer_in_heap_block _ _ _ _ _ Hc Hpos)|].
      cbv beta. cbn [negb]. mstep. rewrite E1.
      destruct (Z.leb_spec (request_size new_size) s) as [?|_]; [lia|].
      mstep. rewrite E4. cbn [nxt_of].
      eapply bind_run; [apply is_free_block_run; [lia | hdr_tac]|].
      cbv beta. rewrite F2.
      eapply bind_run.
      { mstep. rewrite E1. mstep. rewrite E4. cbn [nxt_of]. mstep. rewrite F1, Hcomb.
        destruct (Z.leb_spec (request_size new_size) (s + 32 + s2)) as [_|?]; [|lia].
        mstep. rewrite E4. cbn [nxt_of]. mstep. mstep. rd_simp. rewrite F4.
        cbn [nxt_of]. mstep. mstep. rd_simp. rewrite F4. cbn [nxt_of].
        destruct (Z.eqb_spec (b + 32 + s + 32 + s2) 0) as [?|_]; [lia|].
        cbn [negb when].
        eapply bind_run.
        { mstep. rd_simp. rewrite F4. cbn [nxt_of]. mlast. }
        cbv beta.
        eapply bind_run.
        { apply split_block_allocated; [hdr_tac|].
          rewrite bytes_set_bytes. rd_simp. exact E2. }
        cbv beta. mstep. reflexivity. }
      reflexivity.
    + apply (Chain_rebuild h l1 [(s, false); (s2, true)] ((s3, f3) :: r3) _
                [(s + 32 + s2, false)] Hc); fold b; cbn [end_addr last_hdr nxt_of].
      * discriminate.
      * discriminate.
      * lia.
      * frame_tac.
      * cbn [seg nxt_of]. fields_tac.
      * intros x Hx Hx'. repeat (rewrite store_outside by lia). reflexivity.
      * intros _. rd_simp. w64. reflexivity.
    + intros x Hx. repeat (rewrite store_outside by lia). reflexivity.
Qed.

Lemma realloc_relocates h l1 s l2 new_size :
  Chain h (l1 ++ (s, false) :: l2) -> 0 < s -> new_size <> 0 ->
  s < request_size new_size ->
  can_grow (request_size new_size) s l2 = false ->
  realloc std_malloc (end_addr (heap_base h) l1 + 32) new_size h =
    relocate std_malloc (end_addr (heap_base h) l1 + 32) new_size h.
Proof.
  intros Hc Hpos Hn Hlt Hng.
  destruct (Chain_block _ _ _ _ _ Hc)
    as (Hin & Hb0 & Hb & Hs & Hend & Hend2 & E1 & E2 & E3 & E4 & S1 & S2 & N1 & N2).
  pose proof Hc as (_ & Hbase & Hw & Ht & _).
  set (b := end_addr (heap_base h) l1) in *.
  unfold realloc, relocate.
  destruct (Z.eqb_spec (b + 32) 0) as [?|_]; [lia|].
  destruct (Z.eqb_spec new_size 0) as [?|_]; [contradiction|].
  rewrite payload_to_block_eq by lia.
  replace (b + 32 - 32) with b by lia. fold (request_size new_size).
  rewrite hdr_sz_eq.
  eapply bind_run; [apply (pointer_in_heap_block _ _ _ _ _ Hc Hpos)|].
  cbv beta. cbn [negb]. mstep. rewrite E1.
  destruct (Z.leb_spec (request_size new_size) s) as [?|_]; [lia|].
  mstep. rewrite E4.
  destruct l2 as [|[s2 f2] r2]; cbn [nxt_of].
  - eapply bind_run; [apply is_free_block_null|]. cbv beta.
    eapply bind_run; [apply ret_run|]. reflexivity.
  - assert (Hin2 : hdr_in h (b + 32 + s)).
    { destruct (seg_hdr_in h _ _ _ _ _ _ S2) as (G & _); [lia| lia | exact G]. }
    pose proof S2 as (F1 & F2 & F3 & F4 & S3).
    assert (Hsz : 0 <= s2) by (rewrite <- F1; apply rd_size_range).
    assert (Hend3 : b + 32 + s + 32 + s2 <= heap_base h + heap_total_size h).
    { pose proof (end_addr_ge (b + 32 + s + 32 + s2) r2) as G.
      cbn [end_addr] in Hend2. inversion N2; subst. specialize (G H2). lia. }
    eapply bind_run; [apply is_free_block_run; [lia | hdr_tac]|].
    cbv beta. rewrite F2. destruct f2.
    + cbn [can_grow] in Hng. apply Z.leb_gt in Hng.
      eapply bind_run.
      { mstep. rewrite E1. mstep. rewrite E4. cbn [nxt_of]. mstep. rewrite F1.
        assert (Hcomb : add64 (add64 s 32) s2 = s + 32 + s2) by (w64; reflexivity).
        rewrite Hcomb.
        destruct (Z.leb_spec (request_size new_size) (s + 32 + s2)) as [?|_]; [lia|].
        apply ret_run. }
      reflexivity.
    + eapply bind_run; [apply ret_run|]. reflexivity.
Qed.

(** The relocate path when no free block holds the rounded request. *)
Lemma realloc_relocate_fail h l1 s l2 new_size :
  Chain h (l1 ++ (s, false) :: l2) -> 0 < s -> new_size <> 0 ->
  s < request_size new_size ->
  can_grow (request_size new_size) s l2 = false ->
  Forall (fun x => fits (request_size new_size) x = false)
         (l1 ++ (s, false) :: l2) ->
  realloc std_malloc (end_addr (heap_base h) l1 + 32) new_size h = Ret 0 h.
Proof.
  intros Hc Hpos Hn Hlt Hng Hno.
  rewrite (realloc_relocates _ _ _ _ _ Hc Hpos Hn Hlt Hng).
  unfold relocate.
  eapply bind_run; [apply (malloc_none std_malloc _ _ _ Hc Hn Hno)|].
  reflexivity.
Qed.

Lemma memcpy_run h dst src n :
  heap_base h <= dst -> dst + n <= heap_base h + heap_total_size h ->
  heap_base h <= src -> src + n <= heap_base h + heap_total_size h ->
  dst + n <= src \/ src + n <= dst ->
  memcpy dst src n h = Ret tt (set_bytes (memcpy_bytes (bytes h) dst src n) h).
Proof.
  intros H1 H2 H3 H4 H5. unfold memcpy.
  rewrite !in_arena_true by assumption.
  replace ((dst + n <=? src) || (src + n <=? dst)) with true.
  - now rewrite orb_true_r.
  - symmetry. apply orb_true_iff.
    destruct H5; [left | right]; apply Z.leb_le; assumption.
Qed.

Lemma memcpy_bytes_outside m dst src n x :
  ~ (dst <= x < dst + n) -> memcpy_bytes m dst src n x = m x.
Proof.
  intros H. unfold memcpy_bytes.
  destruct (Z.leb_spec dst x); destruct (Z.ltb_spec x (dst + n)); cbn [andb];
    try reflexivity; lia.
Qed.

Lemma carve_shape asize t :
  asize <= t ->
  exists u tl, carve asize t = (u, false) :: tl /\ asize <= u <= t /\
               end_addr 0 (carve asize t) = 32 + t.
Proof.
  intros H. unfold carve. destruct (Z.leb_spec (asize + 32 + 32) t).
  - eexists; eexists; split; [reflexivity|]. cbn [end_addr]. lia.
  - eexists; eexists; split; [reflexivity|]. cbn [end_addr]. lia.
Qed.

Lemma end_addr_shift a l : end_addr a l = a + end_addr 0 l.
Proof.
  revert a; induction l as [|[s f] r IH]; intros a; cbn [end_addr]; [lia|].
  rewrite (IH (a + 32 + s)), (IH (0 + 32 + s)). lia.
Qed.

Lemma end_addr_le a l : nonneg_sizes l -> a <= end_addr a l.
Proof. intros H. pose proof (end_addr_ge a l H). lia. Qed.

(** The end of the relocate path: copy the old payload into the new block
    and release the old block. *)
Lemma relocate_tail h a1 s a2 c1 u f c2 asize :
  Chain h (a1 ++ (s, false) :: a2) ->
  a1 ++ (s, false) :: a2 = c1 ++ (u, f) :: c2 ->
  0 < s -> s < asize -> s <= u ->
  let b := end_addr (heap_base h) a1 in
  let nb := end_addr (heap_base h) c1 in
  b + 32 + s <= nb \/ nb + 32 + u <= b ->
  exists m',
    (bs'' <- get_size b ;;
     memcpy (nb + 32) (b + 32) (Z.min bs'' asize) ;;
     free (b + 32) ;;
     ret (nb + 32)) h = Ret (nb + 32) (set_bytes m' h) /\
    Chain (set_bytes m' h) (release a1 s a2).
Proof.
  intros Hc Heq Hpos Hlt Hle b nb Hdis.
  destruct (Chain_block _ _ _ _ _ Hc)
    as (Hin & Hb0 & Hb & Hs & Hend & Hend2 & E1 & E2 & E3 & E4 & S1 & S2 & N1 & N2).
  pose proof Hc as Hc'. rewrite Heq in Hc'.
  destruct (Chain_block _ _ _ _ _ Hc')
    as (Nin & Nb0 & Nb & Ns & Nend & _).
  fold b in Hin, Hb0, Hb, Hend, E1. fold nb in Nin, Nb0, Nb, Nend.
  set (m1 := memcpy_bytes (bytes h) (nb + 32) (b + 32) s).
  assert (Hc1 : Chain (set_bytes m1 h) (a1 ++ (s, false) :: a2)).
  { rewrite Heq. apply (Chain_payload_write _ _ _ _ _ _ Hc'). fold nb.
    intros x Hx. apply memcpy_bytes_outside. lia. }
  destruct (free_spec _ _ _ _ Hc1 Hpos) as (m2 & R2 & Hc2 & _).
  cbn [heap_base set_bytes] in R2. fold b in R2.
  exists m2. split; [|exact Hc2].
  mstep. rewrite E1. rewrite Z.min_l by lia.
  eapply bind_run; [apply memcpy_run; lia|]. cbv beta. fold m1.
  eapply bind_run; [exact R2|]. reflexivity.
Qed.

Lemma two_blocks {A} (l1 l2 k1 k2 : list A) (x y : A) :
  l1 ++ x :: l2 = k1 ++ y :: k2 -> x <> y ->
  (exists k', k1 = l1 ++ x :: k' /\ l2 = k' ++ y :: k2) \/
  (exists k', l1 = k1 ++ y :: k' /\ k2 = k' ++ x :: l2).
Proof.
  revert k1; induction l1 as [|z l1 IH]; intros [|w k1] H Hxy; cbn [app] in H.
  - injection H as H1 H2. contradiction.
  - injection H as H1 H2. subst. left. exists k1. auto.
  - injection H as H1 H2. subst. right. exists l1. auto.
  - injection H as H1 H2. subst.
    destruct (IH k1 H2 Hxy) as [(k' & -> & ->)|(k' & -> & ->)].
    + left. exists k'. auto.
    + right. exists k'. auto.
Qed.

(** The relocate path when a free block holds the rounded request: the chain
    after the allocation still has the old block, which is then released. *)
Lemma relocate_ok h l1 s l2 k1 t k2 new_size :
  Chain h (l1 ++ (s, false) :: l2) ->
  l1 ++ (s, false) :: l2 = k1 ++ (t, true) :: k2 ->
  0 < s -> new_size <> 0 ->
  s < request_size new_size -> request_size new_size <= t ->
  Forall (fun x => fits (request_size new_size) x = false) k1 ->
  exists m' a1 a2,
    relocate std_malloc (end_addr (heap_base h) l1 + 32) new_size h =
      Ret (end_addr (heap_base h) k1 + 32) (set_bytes m' h) /\
    a1 ++ (s, false) :: a2 = k1 ++ carve (request_size new_size) t ++ k2 /\
    Chain (set_bytes m' h) (release a1 s a2).
Proof.
  intros Hc Heq Hpos Hn Hlt Hle Hno.
  set (asize := request_size new_size) in *.
  destruct (Chain_block _ _ _ _ _ Hc)
    as (Hin & Hb0 & Hb & Hs & Hend & Hend2 & E1 & E2 & E3 & E4 & S1 & S2 & N1 & N2).
  pose proof Hc as (_ & Hbase & Hw & Ht & _).
  pose proof Hc as Hck. rewrite Heq in Hck.
  destruct (malloc_some std_malloc _ _ _ _ _ Hck Hn Hle Hno) as (m1 & R1 & Hc1).
  fold asize in Hc1.
  destruct (Chain_block _ _ _ _ _ Hck) as (_ & Kb0 & Kb & Ks & Kend & _ & _ & _ & _ & _ & _ & _ & K1 & K2).
  destruct (carve_shape asize t Hle) as (u & tl & Hcv & Hu & Hce).
  set (b := end_addr (heap_base h) l1) in *.
  set (nb := end_addr (heap_base h) k1) in *.
  assert (Hrun : forall a1 a2,
             a1 ++ (s, false) :: a2 = k1 ++ carve asize t ++ k2 ->
             end_addr (heap_base h) a1 = b ->
             b + 32 + s <= nb \/ nb + 32 + u <= b ->
             exists m' a1 a2,
               relocate std_malloc (b + 32) new_size h = Ret (nb + 32) (set_bytes m' h) /\
               a1 ++ (s, false) :: a2 = k1 ++ carve asize t ++ k2 /\
               Chain (set_bytes m' h) (release a1 s a2)).
  { intros a1 a2 Ha Hba Hdis.
    pose proof Hc1 as Hc1'. rewrite <- Ha in Hc1'.
    destruct (relocate_tail (set_bytes m1 h) a1 s a2 k1 u false (tl ++ k2) asize Hc1')
      as (m2 & R2 & Hc2); try lia.
    { rewrite Ha, Hcv. reflexivity. }
    { cbn [heap_base set_bytes]. fold nb. rewrite Hba. exact Hdis. }
    cbn [heap_base set_bytes] in R2. fold nb in R2. rewrite Hba in R2.
    exists m2, a1, a2. split; [|split; [exact Ha | exact Hc2]].
    unfold relocate. rewrite payload_to_block_eq by lia.
    replace (b + 32 - 32) with b by lia.
    eapply bind_run; [exact R1|]. cbv beta.
    destruct (Z.eqb_spec (nb + 32) 0) as [?|_]; [lia|].
    fold asize. exact R2. }
  destruct (two_blocks _ _ _ _ _ _ Heq) as [(k' & Hk1 & Hl2)|(k' & Hl1 & Hk2)].
  - discriminate.
  - (* the old block lies before the new one *)
    apply (Hrun l1 (k' ++ carve asize t ++ k2)).
    + rewrite Hk1, <- app_assoc. reflexivity.
    + reflexivity.
    + left. unfold nb. rewrite Hk1, end_addr_app. cbn [end_addr]. fold b.
      apply end_addr_le. rewrite Hk1 in K1. apply nonneg_app in K1.
      destruct K1 as [_ K1]. inversion K1; assumption.
  - (* the new block lies before the old one *)
    apply (Hrun (k1 ++ carve asize t ++ k') l2).
    + rewrite Hk2, <- !app_assoc. reflexivity.
    + unfold b. rewrite Hl1, !end_addr_app. fold nb. cbn [end_addr].
      rewrite (end_addr_shift nb (carve asize t)), Hce.
      f_equal. lia.
    + right. unfold b. rewrite Hl1, end_addr_app. fold nb. cbn [end_addr].
      assert (nb + 32 + t <= end_addr (nb + 32 + t) k'); [|lia].
      apply end_addr_le. rewrite Hk2 in K2. apply nonneg_app in K2. tauto.
Qed.

End Realloc.

(** ** [align_up] *)

Lemma land_mask x :
  0 <= x < wB -> Z.land x (not64 (sub64 ALIGNMENT 1)) = 16 * (x / 16).
Proof.
  intros Hx.
  change (not64 (sub64 ALIGNMENT 1)) with (Z.shiftl (Z.ones 60) 4).
  replace (16 * (x / 16)) with (Z.shiftl (Z.shiftr x 4) 4).
  2:{ rewrite Z.shiftl_mul_pow2, Z.shiftr_div_pow2 by lia.
      change (2 ^ 4) with 16. lia. }
  apply Z.bits_inj'. intros k Hk.
  rewrite Z.land_spec, !Z.shiftl_spec by lia.
  destruct (Z.ltb_spec k 4) as [Hlt|Hge].
  - rewrite !(Z.testbit_neg_r _ (k - 4)) by lia. apply andb_false_r.
  - rewrite Z.shiftr_spec by lia. replace (k - 4 + 4) with k by lia.
    destruct (Z.ltb_spec k 64) as [Hlt|Hge'].
    + rewrite Z.ones_spec_low by lia. apply andb_true_r.
    + rewrite Z.ones_spec_high by lia. rewrite andb_false_r.
      symmetry. destruct (Z.eq_dec x 0) as [->|Hx0]; [apply Z.testbit_0_l|].
      apply Z.bits_above_log2; [lia|].
      apply Z.log2_lt_pow2; [lia|]. unfold wB, wbits in Hx.
      assert (2 ^ 64 <= 2 ^ k) by (apply Z.pow_le_mono_r; lia). lia.
Qed.

(** [align_up] is the round-up to a multiple of 16, computed modulo [2^64]. *)
Lemma align_up_eq n :
  0 <= n < wB -> align_up n = (16 * ((n + 15) / 16)) mod wB.
Proof.
  intros Hn. unfold align_up, align_up_to.
  change (sub64 ALIGNMENT 1) with 15 at 1.
  rewrite land_mask by apply wrap_range.
  unfold add64, wrap. rewrite wB_eq in *.
  Z.to_euclidean_division_equations. lia.
Qed.

Lemma align_up_no_wrap n :
  0 <= n <= SIZE_MAX - 15 ->
  align_up n = 16 * ((n + 15) / 16) /\ n <= align_up n < n + 16 /\
  align_up n mod 16 = 0.
Proof.
  intros Hn. unfold SIZE_MAX in Hn. rewrite wB_eq in Hn.
  rewrite align_up_eq by (rewrite wB_eq; lia). rewrite wB_eq.
  Z.to_euclidean_division_equations. lia.
Qed.

(** Beyond [SIZE_MAX - 15] the sum [n + 15] wraps and the result is 0. *)
Lemma align_up_wraps n :
  SIZE_MAX - 15 < n <= SIZE_MAX -> align_up n = 0.
Proof.
  intros Hn. unfold SIZE_MAX in Hn. rewrite wB_eq in Hn.
  rewrite align_up_eq by (rewrite wB_eq; lia). rewrite wB_eq.
  Z.to_euclidean_division_equations. lia.
Qed.

Lemma request_size_range size : 32 <= request_size size < wB.
Proof.
  unfold request_size, MIN_BLOCK_SIZE, align_up, align_up_to.
  match goal with |- context [Z.land ?a ?b] =>
    assert (0 <= Z.land a b < wB) as Hr end.
  { pose proof (wrap_range (size + sub64 ALIGNMENT 1)) as Ha.
    fold (add64 size (sub64 ALIGNMENT 1)) in Ha.
    split; [apply Z.land_nonneg; lia|].
    assert (Z.land (add64 size (sub64 ALIGNMENT 1)) (not64 (sub64 ALIGNMENT 1))
            <= add64 size (sub64 ALIGNMENT 1)); [|lia].
    destruct (Z.eq_dec (add64 size (sub64 ALIGNMENT 1)) 0) as [->|Hnz].
    - rewrite Z.land_0_l. lia.
    - rewrite land_mask by exact Ha.
      apply Z.mul_div_le. lia. }
  destruct (Z.ltb_spec (Z.land (add64 size (sub64 ALIGNMENT 1))
                               (not64 (sub64 ALIGNMENT 1))) 32);
    unfold wB, wbits in *; lia.
Qed.

(** ** Invariants of the block list *)

Lemma fr_last_cons x y l : fr_last (x :: y :: l) = fr_last (y :: l).
Proof. reflexivity. Qed.

Lemma no_adj_free_app l1 l2 :
  no_adj_free (l1 ++ l2) <->
  no_adj_free l1 /\ no_adj_free l2 /\ (fr_last l1 = true -> fr_head l2 = false).
Proof.
  induction l1 as [|x r IH].
  - cbn. intuition congruence.
  - destruct r as [|y r'].
    + cbn [app no_adj_free]. unfold fr_last. cbn [last]. cbn [fr_head hd].
      intuition.
    + rewrite fr_last_cons. cbn [app no_adj_free] in *.
      change (fr_head (y :: r' ++ l2)) with (fr_head (y :: r')).
      tauto.
Qed.

Lemma fr_last_snoc l x : fr_last (l ++ [x]) = snd x.
Proof. unfold fr_last. now rewrite last_last. Qed.

Lemma no_adj_free_carve k1 t k2 asize :
  no_adj_free (k1 ++ (t, true) :: k2) ->
  no_adj_free (k1 ++ carve asize t ++ k2).
Proof.
  rewrite !no_adj_free_app. intros (H1 & H2 & H3).
  cbn [no_adj_free fr_head hd snd] in H2, H3. destruct H2 as [H2 H4].
  split; [exact H1|]. unfold carve.
  destruct (asize + 32 + 32 <=? t); cbn [app no_adj_free fr_head hd snd];
    intuition congruence.
Qed.

Lemma no_adj_free_grow l1 s s2 r2 :
  no_adj_free (l1 ++ (s, false) :: (s2, true) :: r2) ->
  no_adj_free (l1 ++ (s + 32 + s2, false) :: r2).
Proof.
  rewrite !no_adj_free_app. cbn [no_adj_free fr_head hd snd].
  intuition congruence.
Qed.

Lemma absorb_next_props s l2 :
  no_adj_free ((s, false) :: l2) ->
  no_adj_free (snd (absorb_next s l2)) /\ fr_head (snd (absorb_next s l2)) = false.
Proof.
  destruct l2 as [|[s2 [|]] r]; cbn [absorb_next snd no_adj_free fr_head hd];
    intuition.
Qed.

Lemma no_adj_free_merge_prev l1 s1 l2 :
  no_adj_free l1 -> no_adj_free l2 -> fr_head l2 = false ->
  no_adj_free (merge_prev l1 s1 l2).
Proof.
  intros H1 H2 H3. unfold merge_prev.
  destruct l1 as [|x0 l0] using rev_ind.
  - cbn [last app no_adj_free]. auto.
  - clear IHl0. rewrite last_last. destruct x0 as [sp [|]].
    + rewrite removelast_last. apply no_adj_free_app in H1.
      destruct H1 as (G1 & _ & G2). cbn [fr_head hd snd] in G2.
      apply no_adj_free_app. cbn [no_adj_free fr_head hd snd].
      repeat split; auto; intros G; specialize (G2 G); discriminate.
    + apply no_adj_free_app. cbn [no_adj_free]. repeat split; auto;
        rewrite fr_last_snoc; cbn [snd]; discriminate.
Qed.

Lemma no_adj_free_release l1 s l2 :
  no_adj_free (l1 ++ (s, false) :: l2) -> no_adj_free (release l1 s l2).
Proof.
  intros H. apply no_adj_free_app in H. destruct H as (H1 & H2 & _).
  destruct (absorb_next_props s l2 H2) as [G1 G2].
  unfold release. destruct (absorb_next s l2) as [s1 l2']. cbn [snd] in G1, G2.
  now apply no_adj_free_merge_prev.
Qed.

Lemma alloc_pos_carve k1 t k2 asize :
  0 < asize <= t ->
  alloc_pos (k1 ++ (t, true) :: k2) -> alloc_pos (k1 ++ carve asize t ++ k2).
Proof.
  unfold alloc_pos. rewrite !Forall_app. intros Ha (H1 & H2).
  inversion H2 as [|? ? _ H3]; subst. repeat split; auto.
  unfold carve. destruct (asize + 32 + 32 <=? t);
    repeat constructor; cbn [fst snd]; intros; try lia; discriminate.
Qed.

Lemma alloc_pos_grow l1 s s2 r2 :
  0 <= s2 ->
  alloc_pos (l1 ++ (s, false) :: (s2, true) :: r2) ->
  alloc_pos (l1 ++ (s + 32 + s2, false) :: r2).
Proof.
  unfold alloc_pos. rewrite !Forall_app. intros Hs (H1 & H2).
  inversion H2 as [|? ? G H3]; subst. inversion H3 as [|? ? _ H4]; subst.
  cbn [fst snd] in G. specialize (G eq_refl).
  repeat split; auto. constructor; auto. cbn [fst snd]. intros _. lia.
Qed.

Lemma alloc_pos_merge_prev l1 s1 l2 :
  alloc_pos l1 -> alloc_pos l2 -> alloc_pos (merge_prev l1 s1 l2).
Proof.
  unfold alloc_pos, merge_prev. intros H1 H2.
  assert (Hfree : forall z, Forall (fun x : block => snd x = false -> 0 < fst x)
                                   ((z, true) :: l2)).
  { intros z. constructor; auto. cbn. discriminate. }
  destruct l1 as [|x0 l0] using rev_ind.
  - cbn [last app]. apply Hfree.
  - clear IHl0. rewrite last_last. destruct x0 as [sp [|]].
    + rewrite removelast_last. apply Forall_app in H1. destruct H1 as [H1 _].
      apply Forall_app. split; auto.
    + apply Forall_app. split; auto.
Qed.

Lemma alloc_pos_release l1 s l2 :
  alloc_pos (l1 ++ (s, false) :: l2) -> alloc_pos (release l1 s l2).
Proof.
  intros H. unfold alloc_pos in H. apply Forall_app in H. destruct H as [H1 H2].
  inversion H2 as [|? ? _ H3]; subst.
  unfold release.
  assert (G : alloc_pos (snd (absorb_next s l2))).
  { destruct l2 as [|[s2 [|]] r]; cbn [absorb_next snd]; auto.
    inversion H3; assumption. }
  destruct (absorb_next s l2) as [s1 l2']. cbn [snd] in G.
  now apply alloc_pos_merge_prev.
Qed.

(** ** [calloc] and [init_allocator] *)

Lemma memset_run h p c n :
  heap_base h <= p -> p + n <= heap_base h + heap_total_size h ->
  memset p c n h = Ret tt (set_bytes (memset_bytes (bytes h) p c n) h).
Proof.
  intros H1 H2. unfold memset. rewrite in_arena_true by assumption.
  now rewrite orb_true_r.
Qed.

Lemma memset_bytes_outside m p c n x :
  ~ (p <= x < p + n) -> memset_bytes m p c n x = m x.
Proof.
  intros H. unfold memset_bytes.
  destruct (Z.leb_spec p x); destruct (Z.ltb_spec x (p + n)); cbn [andb];
    try reflexivity; lia.
Qed.

Lemma memset_bytes_inside m p c n x :
  p <= x < p + n -> memset_bytes m p c n x = c mod 256.
Proof.
  intros H. unfold memset_bytes.
  destruct (Z.leb_spec p x); destruct (Z.ltb_spec x (p + n)); cbn [andb];
    try reflexivity; lia.
Qed.

Lemma calloc_no_overflow nmemb size :
  0 < nmemb -> 0 < size -> nmemb * size <= SIZE_MAX ->
  (SIZE_MAX / size <? nmemb) = false /\ mul64 nmemb size = nmemb * size.
Proof.
  intros Hn Hs Hle. split.
  - apply Z.ltb_ge. apply Z.div_le_lower_bound; lia.
  - unfold mul64. apply wrap_small. unfold SIZE_MAX in Hle. nia.
Qed.

Lemma calloc_overflow nmemb size :
  0 < nmemb -> 0 < size -> SIZE_MAX < nmemb * size ->
  (SIZE_MAX / size <? nmemb) = true.
Proof.
  intros Hn Hs Hlt. apply Z.ltb_lt.
  apply Z.div_lt_upper_bound; lia.
Qed.

Section Calloc.

Variable std_malloc : Z -> Z.

Lemma calloc_null h nmemb size :
  nmemb = 0 \/ size = 0 \/ (0 < nmemb /\ 0 < size /\ SIZE_MAX < nmemb * size) ->
  calloc std_malloc nmemb size h = Ret 0 h.
Proof.
  intros H. unfold calloc.
  destruct (Z.eqb_spec nmemb 0) as [|Hn]; [reflexivity|].
  destruct (Z.eqb_spec size 0) as [|Hs]; [reflexivity|].
  cbn [orb]. destruct H as [?|[?|(H1 & H2 & H3)]]; try contradiction.
  now rewrite calloc_overflow.
Qed.

Lemma calloc_runs_malloc h nmemb size :
  0 < nmemb -> 0 < size -> nmemb * size <= SIZE_MAX ->
  calloc std_malloc nmemb size h =
    (p <- malloc std_malloc (nmemb * size) ;;
     when (negb (p =? 0)) (memset p 0 (nmemb * size)) ;;
     ret p) h.
Proof.
  intros Hn Hs Hle. unfold calloc.
  destruct (Z.eqb_spec nmemb 0) as [|_]; [lia|].
  destruct (Z.eqb_spec size 0) as [|_]; [lia|].
  cbn [orb]. destruct (calloc_no_overflow nmemb size Hn Hs Hle) as [-> ->].
  reflexivity.
Qed.

Lemma calloc_none h l nmemb size :
  Chain h l -> 0 < nmemb -> 0 < size -> nmemb * size <= SIZE_MAX ->
  Forall (fun x => fits (request_size (nmemb * size)) x = false) l ->
  calloc std_malloc nmemb size h = Ret 0 h.
Proof.
  intros Hc Hn Hs Hle Hno. rewrite calloc_runs_malloc by assumption.
  eapply bind_run; [apply (malloc_none std_malloc _ _ _ Hc); [nia | exact Hno]|].
  reflexivity.
Qed.

(** [calloc] when a free block fits and the rounding of the byte count did
    not wrap: the block is allocated as by [malloc] and its first
    [nmemb * size] bytes are zeroed. *)
Lemma calloc_some h k1 t k2 nmemb size :
  Chain h (k1 ++ (t, true) :: k2) ->
  0 < nmemb -> 0 < size -> nmemb * size <= SIZE_MAX - 15 ->
  request_size (nmemb * size) <= t ->
  Forall (fun x => fits (request_size (nmemb * size)) x = false) k1 ->
  exists m',
    calloc std_malloc nmemb size h =
      Ret (end_addr (heap_base h) k1 + 32) (set_bytes m' h) /\
    Chain (set_bytes m' h) (k1 ++ carve (request_size (nmemb * size)) t ++ k2) /\
    (forall x, end_addr (heap_base h) k1 + 32 <= x
               < end_addr (heap_base h) k1 + 32 + nmemb * size -> m' x = 0).
Proof.
  intros Hc Hn Hs Hle Hfit Hno.
  set (total := nmemb * size) in *.
  assert (Htot : 0 < total) by (unfold total; nia).
  assert (Hnz : total <> 0) by lia.
  destruct (malloc_some std_malloc _ _ _ _ _ Hc Hnz Hfit Hno) as (m1 & R1 & Hc1).
  destruct (carve_shape (request_size total) t Hfit) as (u & tl & Hcv & Hu & _).
  rewrite Hcv in Hc1. cbn [app] in Hc1.
  destruct (Chain_block _ _ _ _ _ Hc1) as (_ & Nb0 & Nb & Ns & Nend & _).
  cbn [heap_base heap_total_size set_bytes] in Nb0, Nb, Nend.
  set (nb := end_addr (heap_base h) k1) in *.
  assert (Hreq : total <= request_size total).
  { unfold request_size, MIN_BLOCK_SIZE.
    destruct (align_up_no_wrap total ltac:(lia)) as (_ & G & _).
    destruct (Z.ltb_spec (align_up total) 32); lia. }
  exists (memset_bytes m1 (nb + 32) 0 total). split; [|split].
  - rewrite calloc_runs_malloc by (unfold SIZE_MAX in *; lia).
    eapply bind_run; [exact R1|]. cbv beta.
    destruct (Z.eqb_spec (nb + 32) 0) as [?|_]; [lia|]. cbn [negb when].
    eapply bind_run.
    { apply memset_run; cbn [heap_base heap_total_size set_bytes]; lia. }
    reflexivity.
  - rewrite Hcv. cbn [app].
    apply (Chain_payload_write _ _ _ _ _ _ Hc1).
    cbn [heap_base set_bytes bytes]. fold nb.
    intros x Hx. apply memset_bytes_outside. lia.
  - intros x Hx. now rewrite memset_bytes_inside.
Qed.

(** [calloc] when the rounding of the byte count wraps: [malloc] hands out a
    block found for 32 bytes and [memset] then runs past the arena. *)
Lemma calloc_overrun h k1 t k2 nmemb size :
  Chain h (k1 ++ (t, true) :: k2) ->
  0 < nmemb -> 0 < size ->
  SIZE_MAX - 15 < nmemb * size <= SIZE_MAX ->
  32 <= t ->
  Forall (fun x => fits 32 x = false) k1 ->
  calloc std_malloc nmemb size h = Err OutOfBounds.
Proof.
  intros Hc Hn Hs Hle Hfit Hno.
  set (total := nmemb * size) in *.
  assert (Hreq : request_size total = 32).
  { unfold request_size. now rewrite align_up_wraps. }
  rewrite <- Hreq in Hfit, Hno.
  assert (Hnz : total <> 0) by (unfold SIZE_MAX in Hle; rewrite wB_eq in Hle; lia).
  destruct (malloc_some std_malloc _ _ _ _ _ Hc Hnz Hfit Hno) as (m1 & R1 & Hc1).
  pose proof Hc as (_ & Hbase & Hw & Ht & _).
  destruct (Chain_block _ _ _ _ _ Hc) as (_ & Nb0 & Nb & _).
  rewrite calloc_runs_malloc by lia. fold total.
  unfold bind. rewrite R1.
  destruct (Z.eqb_spec (end_addr (heap_base h) k1 + 32) 0) as [?|_]; [lia|].
  cbn [negb when]. unfold memset, in_arena.
  cbn [heap_base heap_total_size set_bytes]. fold total.
  destruct (Z.eqb_spec total 0) as [?|_]; [lia|].
  destruct (Z.leb_spec (end_addr (heap_base h) k1 + 32 + total)
                       (heap_base h + heap_total_size h)) as [?|_].
  - unfold SIZE_MAX in Hle. lia.
  - now rewrite andb_false_r.
Qed.

End Calloc.

Section Init.

Variable std_malloc : Z -> Z.
Hypothesis std_malloc_valid : std_malloc_ok std_malloc.

Lemma init_allocator_again h heap_size :
  initialized h = true -> init_allocator std_malloc heap_size h = Ret tt h.
Proof. intros H. unfold init_allocator. now rewrite H. Qed.

(** A first [init_allocator] that returns leaves one free block spanning the
    arena. *)
Lemma init_allocator_chain h heap_size h' :
  initialized h = false ->
  init_allocator std_malloc heap_size h = Ret tt h' ->
  Chain h' [(heap_total_size h' - 32, true)] /\
  32 <= heap_total_size h' /\
  heap_total_size h' = align_up heap_size /\
  heap_base h' = std_malloc (align_up heap_size) /\
  stderr_log h' = stderr_log h.
Proof.
  intros Hi Hrun. unfold init_allocator in Hrun. rewrite Hi in Hrun.
  set (total := align_up heap_size) in *.
  set (base := std_malloc total) in *.
  destruct (Z.eqb_spec base 0) as [?|Hnz]; [discriminate|].
  destruct (std_malloc_valid total) as [?|(Hb & Hw & Ht)]; [contradiction|].
  fold base in Hb, Hw.
  rewrite hdr_sz_eq in Hrun.
  destruct (Z.lt_ge_cases total 32) as [Hsmall|Hbig].
  - exfalso. revert Hrun. unfold bind, memset, set_size, set_free, set_next, set_prev,
      sto, in_arena. cbn [heap_base heap_total_size set_bytes bytes].
    repeat match goal with
           | |- context [if ?c then _ else _] => destruct c eqn:?; try discriminate
           end.
    intros _.
    repeat match goal with
           | H : (_ && _) = true |- _ => apply andb_prop in H; destruct H
           | H : (_ <=? _) = true |- _ => apply Z.leb_le in H
           end.
    cbn in *. lia.
  - set (h1 := mkHeap (bytes h) base total (head h) false (stderr_log h)) in *.
    set (m1 := memset_bytes (bytes h) base 0 total).
    set (h2 := mkHeap m1 base total base false (stderr_log h)).
    assert (Hin : hdr_in h2 base) by (unfold hdr_in; cbn; lia).
    assert (Hs : sub64 total 32 = total - 32) by (w64; reflexivity).
    set (hf := mkHeap (store (store (store (store m1 base 8 (total - 32))
                                (base + 8) 1 1) (base + 16) 8 0) (base + 24) 8 0)
                      base total base true (stderr_log h)).
    assert (E : (memset base 0 total ;;
                 (fun h2 => Ret tt (mkHeap (bytes h2) base total base false (stderr_log h2))) ;;
                 set_size base (sub64 total 32) ;;
                 set_free base true ;;
                 set_next base 0 ;;
                 set_prev base 0 ;;
                 (fun h3 => Ret tt (mkHeap (bytes h3) base total base true (stderr_log h3)))) h1
                = Ret tt hf).
    { eapply bind_run; [apply memset_run; cbn; lia|]. cbv beta.
      eapply bind_run; [reflexivity|]. cbv beta. fold m1. fold h2.
      rewrite Hs. do 4 mstep. reflexivity. }
    assert (Hh : h' = hf) by congruence. subst h'. unfold hf.
    cbn [heap_total_size heap_base stderr_log].
    unfold Chain. cbn [initialized heap_base heap_total_size head bytes].
    repeat split; try reflexivity; try lia; try discriminate;
      cbn [seg nxt_of end_addr]; fields_tac.
Qed.

End Init.

(** ** The chain that [dump_heap] enumerates *)

Lemma report_run d h : report d h = Ret tt (log_add d h).
Proof. reflexivity. Qed.

Lemma Chain_log_add d h l : Chain h l -> Chain (log_add d h) l.
Proof. intros H. exact H. Qed.

Lemma chain_blocks_Chain h l :
  Chain h l -> chain_blocks h = layout 0 (heap_base h) l 0.
Proof. intros Hc. unfold chain_blocks. now rewrite (dump_heap_spec h l Hc). Qed.

Lemma chain_blocks_uninit h : initialized h = false -> chain_blocks h = [].
Proof. intros Hi. unfold chain_blocks, dump_heap, bind. now rewrite Hi. Qed.

Lemma In_layout b p a l nx :
  In b (layout p a l nx) ->
  exists l1 s f l2,
    l = l1 ++ (s, f) :: l2 /\ bi_hdr b = end_addr a l1 /\
    bi_payload b = end_addr a l1 + 32 /\ bi_size b = s /\ bi_free b = f.
Proof.
  revert p a; induction l as [|[s f] r IH]; intros p a H; [contradiction|].
  cbn [layout] in H. destruct H as [<-|H].
  - exists [], s, f, r. cbn. auto.
  - destruct (IH _ _ H) as (l1 & s' & f' & l2 & -> & H1 & H2 & H3 & H4).
    exists ((s, f) :: l1), s', f', l2. cbn [app end_addr]. auto.
Qed.

Lemma layout_In p a l1 s f l2 nx :
  exists b, In b (layout p a (l1 ++ (s, f) :: l2) nx) /\
            bi_hdr b = end_addr a l1 /\ bi_payload b = end_addr a l1 + 32 /\
            bi_size b = s /\ bi_free b = f.
Proof.
  revert p a; induction l1 as [|[s1 f1] r IH]; intros p a.
  - cbn [app layout end_addr]. eexists. split; [left; reflexivity|]. cbn. auto.
  - cbn [app layout end_addr]. destruct (IH a (a + 32 + s1)) as (b & H & G).
    exists b. split; [right; exact H | exact G].
Qed.

(** ** Calls that only report *)

Lemma free_outside h p :
  p <> 0 -> outside_arena h p -> free p h = Ret tt (log_add (NotFromHeap false p) h).
Proof.
  intros Hp Ho. unfold free. destruct (Z.eqb_spec p 0) as [?|_]; [contradiction|].
  unfold bind.
  replace ((p <? heap_base h) || (heap_base h + heap_total_size h <=? p)) with true.
  - reflexivity.
  - symmetry. apply orb_true_iff.
    destruct Ho; [left; apply Z.ltb_lt | right; apply Z.leb_le]; assumption.
Qed.

Lemma free_header_outside h p :
  0 < heap_base h -> heap_base h + heap_total_size h < wB ->
  heap_total_size h < 2 ^ 63 ->
  heap_base h <= p < heap_base h + 32 -> p < heap_base h + heap_total_size h ->
  free p h = Ret tt (log_add (InvalidHeader p) h).
Proof.
  intros Hb Hw Ht Hp Hin. unfold free.
  destruct (Z.eqb_spec p 0) as [?|Hnz]; [lia|]. unfold bind.
  destruct (Z.ltb_spec p (heap_base h)) as [?|_]; [lia|].
  destruct (Z.leb_spec (heap_base h + heap_total_size h) p) as [?|_]; [lia|].
  cbn [orb]. unfold payload_to_block. rewrite hdr_sz_eq.
  destruct (Z.eqb_spec p 0) as [?|_]; [lia|].
  replace ((sub64 p 32 <? heap_base h) ||
           (heap_base h + heap_total_size h <=? sub64 p 32)) with true; [reflexivity|].
  symmetry. apply orb_true_iff. unfold sub64, wrap.
  destruct (Z.lt_ge_cases p 32) as [Hlt|Hge].
  - right. apply Z.leb_le.
    replace ((p - 32) mod wB) with (p - 32 + wB).
    + rewrite wB_eq in *. lia.
    + apply Z.mod_unique with (q := -1); rewrite wB_eq in *; lia.
  - left. apply Z.ltb_lt. rewrite Z.mod_small by lia. lia.
Qed.

Lemma free_already_free h l1 s l2 :
  Chain h (l1 ++ (s, true) :: l2) ->
  exists d, free (end_addr (heap_base h) l1 + 32) h = Ret tt (log_add d h).
Proof.
  intros Hc.
  destruct (Chain_block _ _ _ _ _ Hc)
    as (Hin & Hb0 & Hb & Hs & Hend & Hend2 & E1 & E2 & _).
  pose proof Hc as (_ & Hbase & Hw & Ht & _).
  set (b := end_addr (heap_base h) l1) in *.
  destruct (Z.lt_ge_cases (b + 32) (heap_base h + heap_total_size h)) as [Hlt|Hge].
  - exists (DoubleFree (b + 32)). unfold free.
    destruct (Z.eqb_spec (b + 32) 0) as [?|_]; [lia|].
    eapply bind_run; [reflexivity|]. cbv beta.
    destruct (Z.ltb_spec (b + 32) (heap_base h)) as [?|_]; [lia|].
    destruct (Z.leb_spec (heap_base h + heap_total_size h) (b + 32)) as [?|_]; [lia|].
    cbn [orb]. rewrite payload_to_block_eq by lia.
    replace (b + 32 - 32) with b by lia.
    eapply bind_run; [reflexivity|]. cbv beta.
    destruct (Z.ltb_spec b (heap_base h)) as [?|_]; [lia|].
    destruct (Z.leb_spec (heap_base h + heap_total_size h) b) as [?|_]; [lia|].
    cbn [orb]. mstep. rewrite E2. reflexivity.
  - exists (NotFromHeap false (b + 32)). apply free_outside; [lia|]. right. lia.
Qed.

Section Uninitialized.

Variable std_malloc : Z -> Z.

Lemma malloc_initialized h size :
  initialized h = true -> size <> 0 ->
  malloc std_malloc size h = malloc_body size h.
Proof.
  intros Hi Hn. unfold malloc, malloc_body.
  destruct (Z.eqb_spec size 0) as [?|_]; [contradiction|].
  unfold bind at 1. rewrite Hi. cbn [negb when]. reflexivity.
Qed.

Lemma malloc_uninitialized h size :
  initialized h = false -> size <> 0 ->
  malloc std_malloc size h =
    (init_allocator std_malloc DEFAULT_HEAP_SIZE ;; malloc_body size) h.
Proof.
  intros Hi Hn. unfold malloc, malloc_body.
  destruct (Z.eqb_spec size 0) as [?|_]; [contradiction|].
  unfold bind at 1. rewrite Hi. cbn [negb when]. reflexivity.
Qed.

Lemma pointer_in_heap_outside h p :
  heap_total_size h < 2 ^ 63 -> 0 <= heap_total_size h ->
  outside_arena h p -> pointer_in_heap p h = Ret false h.
Proof.
  intros Ht Ht0 Ho. unfold pointer_in_heap.
  destruct ((p =? 0) || negb (initialized h)); [reflexivity|].
  unfold to_ptrdiff. destruct (Z.ltb_spec (heap_total_size h) (2 ^ 63)); [|lia].
  f_equal. apply andb_false_iff.
  destruct Ho; [left; apply Z.leb_gt | right; apply Z.ltb_ge]; lia.
Qed.

Lemma realloc_outside h p new_size :
  heap_total_size h < 2 ^ 63 -> 0 <= heap_total_size h ->
  p <> 0 -> outside_arena h p ->
  exists d q, realloc std_malloc p new_size h = Ret q (log_add d h).
Proof.
  intros Ht Ht0 Hp Ho. unfold realloc.
  destruct (Z.eqb_spec p 0) as [?|_]; [contradiction|].
  destruct (Z.eqb_spec new_size 0) as [?|_].
  - exists (NotFromHeap false p), 0.
    eapply bind_run; [apply free_outside; assumption|]. reflexivity.
  - exists (NotFromHeap true p), 0.
    eapply bind_run; [apply pointer_in_heap_outside; assumption|]. reflexivity.
Qed.

End Uninitialized.

(** ** Every step keeps the invariant *)

Section Invariant.

Variable std_malloc : Z -> Z.
Hypothesis std_malloc_valid : std_malloc_ok std_malloc.

Lemma good_init s : good [(s, true)].
Proof.
  split.
  - cbn. auto.
  - constructor; [cbn; discriminate | constructor].
Qed.

Lemma good_carve k1 t k2 asize :
  0 < asize <= t -> good (k1 ++ (t, true) :: k2) -> good (k1 ++ carve asize t ++ k2).
Proof.
  intros Ha [H1 H2]. split;
    [now apply no_adj_free_carve | now apply alloc_pos_carve].
Qed.

Lemma good_release l1 s l2 : good (l1 ++ (s, false) :: l2) -> good (release l1 s l2).
Proof.
  intros [H1 H2]. split;
    [now apply no_adj_free_release | now apply alloc_pos_release].
Qed.

Lemma good_grow l1 s s2 r2 :
  0 <= s2 -> good (l1 ++ (s, false) :: (s2, true) :: r2) ->
  good (l1 ++ (s + 32 + s2, false) :: r2).
Proof.
  intros Hs [H1 H2]. split;
    [now apply no_adj_free_grow | now apply alloc_pos_grow].
Qed.

Lemma good_alloc_pos l1 s l2 : good (l1 ++ (s, false) :: l2) -> 0 < s.
Proof.
  intros [_ H]. unfold alloc_pos in H. apply Forall_app in H.
  destruct H as [_ H]. inversion H as [|? ? G _]; subst. now apply G.
Qed.

Lemma Chain_malloc_body h l size p h' :
  Chain h l -> good l -> size <> 0 ->
  malloc_body size h = Ret p h' ->
  exists l', Chain h' l' /\ good l'.
Proof.
  intros Hc Hg Hn Hrun.
  rewrite <- (malloc_initialized std_malloc) in Hrun by (try apply Hc; assumption).
  destruct (fits_cases (request_size size) l) as [Hno|(l1 & s & l2 & -> & Hs & Hno)].
  - rewrite (malloc_none std_malloc _ _ _ Hc Hn Hno) in Hrun.
    injection Hrun as _ <-. eauto.
  - destruct (malloc_some std_malloc _ _ _ _ _ Hc Hn Hs Hno) as (m' & R & Hc').
    rewrite R in Hrun. injection Hrun as _ <-.
    eexists; split; [exact Hc'|]. apply good_carve; [|exact Hg].
    pose proof (request_size_min size). lia.
Qed.

Lemma Inv_init h heap_size h' :
  Inv h -> init_allocator std_malloc heap_size h = Ret tt h' -> Inv h'.
Proof.
  intros [(Hi & _)|(l & Hc & Hg)] Hrun.
  - right. destruct (init_allocator_chain _ std_malloc_valid _ _ _ Hi Hrun) as (Hc & _).
    eexists; split; [exact Hc | apply good_init].
  - rewrite init_allocator_again in Hrun by apply Hc.
    injection Hrun as <-. right. eauto.
Qed.

Lemma Inv_malloc h size p h' :
  Inv h -> malloc std_malloc size h = Ret p h' -> Inv h'.
Proof.
  intros HI Hrun. destruct (Z.eq_dec size 0) as [->|Hn].
  - rewrite malloc_zero in Hrun. injection Hrun as _ <-. exact HI.
  - destruct HI as [(Hi & _)|(l & Hc & Hg)].
    + rewrite malloc_uninitialized in Hrun by assumption.
      unfold bind in Hrun.
      destruct (init_allocator std_malloc DEFAULT_HEAP_SIZE h) as [[] h1|] eqn:E;
        [|discriminate].
      destruct (init_allocator_chain _ std_malloc_valid _ _ _ Hi E) as (Hc & _).
      right. eapply Chain_malloc_body; eauto. apply good_init.
    + rewrite malloc_initialized in Hrun by (try apply Hc; assumption).
      right. eapply Chain_malloc_body; eauto.
Qed.

Lemma Inv_log_add d h : Inv h -> Inv (log_add d h).
Proof.
  intros [H|(l & Hc & Hg)]; [left; exact H | right].
  exists l. split; [apply Chain_log_add; exact Hc | exact Hg].
Qed.

Lemma Chain_calloc h l nmemb size p h' :
  Chain h l -> good l ->
  0 < nmemb -> 0 < size -> nmemb * size <= SIZE_MAX ->
  calloc std_malloc nmemb size h = Ret p h' ->
  exists l', Chain h' l' /\ good l'.
Proof.
  intros Hc Hg Hn Hs Hle Hrun.
  set (total := nmemb * size) in *.
  destruct (Z.le_gt_cases total (SIZE_MAX - 15)) as [Hok|Hwrap].
  - destruct (fits_cases (request_size total) l) as [Hno|(l1 & s & l2 & -> & Hfit & Hno)].
    + rewrite (calloc_none std_malloc _ _ _ _ Hc Hn Hs Hle Hno) in Hrun.
      injection Hrun as _ <-. eauto.
    + destruct (calloc_some std_malloc _ _ _ _ _ _ Hc Hn Hs Hok Hfit Hno)
        as (m' & R & Hc' & _).
      rewrite R in Hrun. injection Hrun as _ <-.
      eexists; split; [exact Hc'|]. apply good_carve; [|exact Hg].
      pose proof (request_size_min (nmemb * size)). unfold total in *. lia.
  - assert (Hreq : request_size total = 32).
    { unfold request_size. rewrite align_up_wraps by lia. reflexivity. }
    destruct (fits_cases 32 l) as [Hno|(l1 & s & l2 & -> & Hfit & Hno)].
    + rewrite <- Hreq in Hno.
      rewrite (calloc_none std_malloc _ _ _ _ Hc Hn Hs Hle Hno) in Hrun.
      injection Hrun as _ <-. eauto.
    + rewrite (calloc_overrun std_malloc _ _ _ _ _ _ Hc Hn Hs) in Hrun;
        [discriminate | lia | exact Hfit | exact Hno].
Qed.

Lemma Inv_calloc h nmemb size p h' :
  Inv h -> 0 <= nmemb < wB -> 0 <= size < wB ->
  calloc std_malloc nmemb size h = Ret p h' -> Inv h'.
Proof.
  intros HI Hn Hs Hrun.
  destruct (Z.eq_dec nmemb 0) as [Hn0|Hn0].
  { rewrite calloc_null in Hrun by auto. injection Hrun as _ <-. exact HI. }
  destruct (Z.eq_dec size 0) as [Hs0|Hs0].
  { rewrite calloc_null in Hrun by auto. injection Hrun as _ <-. exact HI. }
  destruct (Z.lt_ge_cases SIZE_MAX (nmemb * size)) as [Hov|Hle].
  { rewrite calloc_null in Hrun by (right; right; lia).
    injection Hrun as _ <-. exact HI. }
  destruct HI as [(Hi & _)|(l & Hc & Hg)].
  - assert (Htot : nmemb * size <> 0) by nia.
    rewrite calloc_runs_malloc in Hrun by lia.
    unfold bind at 1 in Hrun.
    rewrite malloc_uninitialized in Hrun by assumption.
    unfold bind at 1 in Hrun.
    destruct (init_allocator std_malloc DEFAULT_HEAP_SIZE h) as [[] h1|] eqn:E;
      [|discriminate].
    destruct (init_allocator_chain _ std_malloc_valid _ _ _ Hi E) as (Hc & _).
    rewrite <- (malloc_initialized std_malloc) in Hrun by (try apply Hc; assumption).
    right. apply (Chain_calloc h1 _ nmemb size p h' Hc (good_init _)); try lia.
    rewrite calloc_runs_malloc by lia. exact Hrun.
  - right. eapply Chain_calloc; eauto; lia.
Qed.

Lemma Chain_free h l p h' :
  Chain h l -> good l -> free_arg h p ->
  free p h = Ret tt h' ->
  exists l', Chain h' l' /\ good l'.
Proof.
  intros Hc Hg (Hp & Harg) Hrun.
  pose proof Hc as (_ & Hbase & Hw & Ht & _).
  destruct (Z.eq_dec p 0) as [->|Hnz].
  { rewrite free_null in Hrun. injection Hrun as <-. eauto. }
  destruct (Z.lt_ge_cases p (heap_base h)) as [Hlo|Hlo].
  { rewrite free_outside in Hrun by (auto; left; lia).
    injection Hrun as <-. eauto using Chain_log_add. }
  destruct (Z.le_gt_cases (heap_base h + heap_total_size h) p) as [Hhi|Hhi].
  { rewrite free_outside in Hrun by (auto; right; lia).
    injection Hrun as <-. eauto using Chain_log_add. }
  destruct (Z.lt_ge_cases p (heap_base h + 32)) as [Hhd|Hhd].
  { rewrite free_header_outside in Hrun by lia.
    injection Hrun as <-. eauto using Chain_log_add. }
  destruct Harg as [?|[[?|?]|[?|(b & Hin & Hpay)]]]; try lia.
  rewrite (chain_blocks_Chain _ _ Hc) in Hin.
  destruct (In_layout _ _ _ _ _ Hin) as (l1 & s & f & l2 & -> & _ & Hp' & _ & _).
  rewrite Hpay in Hp'. clear Hpay Hin. subst p. destruct f.
  - destruct (free_already_free _ _ _ _ Hc) as (d & R).
    rewrite R in Hrun. injection Hrun as <-. eauto using Chain_log_add.
  - destruct (free_spec _ _ _ _ Hc (good_alloc_pos _ _ _ Hg)) as (m' & R & Hc' & _).
    rewrite R in Hrun. injection Hrun as <-.
    eexists; split; [exact Hc' | now apply good_release].
Qed.

Lemma uninit_outside h p :
  heap_base h = 0 -> heap_total_size h = 0 -> 0 <= p -> outside_arena h p.
Proof. intros H1 H2 Hp. right. lia. Qed.

Lemma Inv_free h p h' :
  Inv h -> free_arg h p -> free p h = Ret tt h' -> Inv h'.
Proof.
  intros [(Hi & Hb & Ht)|(l & Hc & Hg)] Harg Hrun.
  - destruct (Z.eq_dec p 0) as [->|Hnz].
    + rewrite free_null in Hrun. injection Hrun as <-. left. auto.
    + rewrite free_outside in Hrun by (auto; apply uninit_outside; auto; apply Harg).
      injection Hrun as <-. left. auto.
  - right. eapply Chain_free; eauto.
Qed.

Lemma Chain_total_min h l : Chain h l -> 32 <= heap_total_size h.
Proof.
  intros (_ & _ & _ & _ & _ & Hne & Hseg & He).
  pose proof (end_addr_ge (heap_base h) l (seg_nonneg _ _ _ _ _ Hseg)) as G.
  destruct l; [contradiction|]. cbn [length] in G. lia.
Qed.

Lemma can_grow_true asize s l2 :
  can_grow asize s l2 = true ->
  exists s2 r2, l2 = (s2, true) :: r2 /\ asize <= s + 32 + s2.
Proof.
  destruct l2 as [|[s2 [|]] r2]; cbn [can_grow]; try discriminate.
  intros H. apply Z.leb_le in H. eauto.
Qed.

Lemma Chain_realloc_block h l1 s l2 new_size q h' :
  Chain h (l1 ++ (s, false) :: l2) -> good (l1 ++ (s, false) :: l2) ->
  new_size <> 0 ->
  realloc std_malloc (end_addr (heap_base h) l1 + 32) new_size h = Ret q h' ->
  exists l', Chain h' l' /\ good l'.
Proof.
  intros Hc Hg Hn Hrun.
  pose proof (good_alloc_pos _ _ _ Hg) as Hpos.
  destruct (Z.le_gt_cases (request_size new_size) s) as [Hle|Hgt].
  { rewrite (realloc_shrink std_malloc _ _ _ _ _ Hc Hpos Hn Hle) in Hrun.
    injection Hrun as _ <-. eauto. }
  destruct (can_grow (request_size new_size) s l2) eqn:Hcg.
  { destruct (can_grow_true _ _ _ Hcg) as (s2 & r2 & -> & Hfit).
    assert (Hrange : s < request_size new_size <= s + 32 + s2) by lia.
    destruct (realloc_grow std_malloc _ _ _ _ _ _ Hc Hpos Hn Hrange) as (m' & R & Hc' & _).
    rewrite R in Hrun. injection Hrun as _ <-.
    eexists; split; [exact Hc'|]. apply good_grow; [|exact Hg].
    destruct (Chain_block h (l1 ++ [(s, false)]) s2 true r2) as (_ & _ & _ & G & _);
      [rewrite <- app_assoc; exact Hc | exact G]. }
  rewrite (realloc_relocates std_malloc _ _ _ _ _ Hc Hpos Hn) in Hrun by (auto; lia).
  destruct (fits_cases (request_size new_size) (l1 ++ (s, false) :: l2))
    as [Hno|(k1 & t & k2 & Heq & Hfit & Hno)].
  - unfold relocate, bind in Hrun.
    rewrite (malloc_none std_malloc _ _ _ Hc Hn Hno) in Hrun.
    cbn [Z.eqb] in Hrun. injection Hrun as _ <-. eauto.
  - destruct (relocate_ok std_malloc _ _ _ _ _ _ _ _ Hc Heq Hpos Hn Hgt Hfit Hno)
      as (m' & a1 & a2 & R & Ha & Hc').
    rewrite R in Hrun. injection Hrun as _ <-.
    eexists; split; [exact Hc'|]. apply good_release. rewrite Ha.
    apply good_carve; [|rewrite <- Heq; exact Hg].
    pose proof (request_size_min new_size). lia.
Qed.

Lemma Chain_realloc h l p new_size q h' :
  Chain h l -> good l -> realloc_arg h p ->
  realloc std_malloc p new_size h = Ret q h' ->
  exists l', Chain h' l' /\ good l'.
Proof.
  intros Hc Hg (Hp & Harg) Hrun.
  pose proof Hc as (Hi & Hbase & Hw & Ht & _).
  destruct (Z.eq_dec p 0) as [->|Hnz].
  { unfold realloc in Hrun. cbn [Z.eqb] in Hrun.
    destruct (Z.eq_dec new_size 0) as [->|Hn].
    - rewrite malloc_zero in Hrun. injection Hrun as _ <-. eauto.
    - rewrite malloc_initialized in Hrun by assumption.
      eapply Chain_malloc_body; eauto. }
  assert (Ht0 : 0 <= heap_total_size h) by (pose proof (Chain_total_min _ _ Hc); lia).
  destruct Harg as [?|[Hout|(b & Hin & Hpay & Hfr)]]; [contradiction| |].
  - destruct (realloc_outside std_malloc h p new_size Ht Ht0 Hnz Hout) as (d & q' & R).
    rewrite R in Hrun. injection Hrun as _ <-. eauto using Chain_log_add.
  - rewrite (chain_blocks_Chain _ _ Hc) in Hin.
    destruct (In_layout _ _ _ _ _ Hin) as (l1 & s & f & l2 & -> & _ & Hp' & _ & Hf).
    rewrite Hpay in Hp'. rewrite Hfr in Hf. clear Hpay Hin Hfr. subst p f.
    destruct (Z.eq_dec new_size 0) as [->|Hn].
    + unfold realloc in Hrun.
      destruct (Z.eqb_spec (end_addr (heap_base h) l1 + 32) 0) as [?|_]; [lia|].
      cbn [Z.eqb] in Hrun. unfold bind in Hrun.
      destruct (free_spec _ _ _ _ Hc (good_alloc_pos _ _ _ Hg)) as (m' & R & Hc' & _).
      rewrite R in Hrun. injection Hrun as _ <-.
      eexists; split; [exact Hc' | now apply good_release].
    + eapply Chain_realloc_block; eauto.
Qed.

Lemma Inv_realloc h p new_size q h' :
  Inv h -> realloc_arg h p ->
  realloc std_malloc p new_size h = Ret q h' -> Inv h'.
Proof.
  intros [(Hi & Hb & Ht)|(l & Hc & Hg)] Harg Hrun.
  - destruct (Z.eq_dec p 0) as [->|Hnz].
    + unfold realloc in Hrun. cbn [Z.eqb] in Hrun.
      eapply Inv_malloc; [|exact Hrun]. left. auto.
    + destruct (realloc_outside std_malloc h p new_size) as (d & q' & R);
        [lia | lia | exact Hnz | apply uninit_outside; auto; apply Harg |].
      rewrite R in Hrun. injection Hrun as _ <-. left. auto.
  - right. eapply Chain_realloc; eauto.
Qed.

Lemma Inv_write h x v :
  Inv h -> in_allocated_payload h x -> Inv (set_bytes (upd (bytes h) x v) h).
Proof.
  intros [(Hi & _)|(l & Hc & Hg)] (b & Hin & Hf & Hx).
  - rewrite chain_blocks_uninit in Hin by assumption. contradiction.
  - right. rewrite (chain_blocks_Chain _ _ Hc) in Hin.
    destruct (In_layout _ _ _ _ _ Hin) as (l1 & s & f & l2 & -> & _ & Hp & Hs & _).
    exists (l1 ++ (s, f) :: l2). split; [|exact Hg].
    apply (Chain_payload_write _ _ _ _ _ _ Hc).
    intros y Hy. unfold upd. destruct (Z.eqb_spec y x) as [->|_]; [|reflexivity].
    exfalso. apply Hy. lia.
Qed.

Lemma step_Inv h h' : Inv h -> step std_malloc h h' -> Inv h'.
Proof.
  intros HI Hstep.
  destruct Hstep as [n h' Hn Hrun | n p h' Hn Hrun | n sz p h' Hn Hsz Hrun
                    | p h' Harg Hrun | p n q h' Harg Hn Hrun | x v Hx].
  - exact (Inv_init _ _ _ HI Hrun).
  - exact (Inv_malloc _ _ _ _ HI Hrun).
  - exact (Inv_calloc _ _ _ _ _ HI Hn Hsz Hrun).
  - exact (Inv_free _ _ _ HI Harg Hrun).
  - exact (Inv_realloc _ _ _ _ _ HI Harg Hrun).
  - exact (Inv_write _ _ _ HI Hx).
Qed.

Lemma reachable_Inv h : reachable std_malloc h -> Inv h.
Proof.
  induction 1 as [h Hi Hb Ht _ _|h h' _ IH Hstep].
  - left. auto.
  - eapply step_Inv; eauto.
Qed.

End Invariant.

(** ** Tiling, order and first fit *)

Lemma tiles_layout p a l :
  nonneg_sizes l -> tiles a (layout p a l 0) (end_addr a l).
Proof.
  revert p a; induction l as [|[s f] r IH]; intros p a Hn; [reflexivity|].
  inversion Hn as [|? ? Hs Hr]; subst. cbn [fst] in Hs.
  cbn [layout tiles end_addr bi_hdr bi_payload bi_size bi_next].
  repeat split; auto. destruct r as [|[s' f'] r']; reflexivity.
Qed.

Lemma layout_nil p a l nx : layout p a l nx = [] -> l = [].
Proof. destruct l as [|[s f] r]; [reflexivity | discriminate]. Qed.

Lemma no_two_free_layout p a l nx :
  no_adj_free l -> no_two_free (map bi_free (layout p a l nx)).
Proof.
  revert p a; induction l as [|[s f] r IH]; intros p a H; [exact I|].
  destruct r as [|[s' f'] r']; [exact I|].
  cbn [no_adj_free fr_head hd snd] in H. destruct H as [H1 H2].
  cbn [layout map bi_free no_two_free]. split.
  - intros [-> ->]. specialize (H1 eq_refl). discriminate.
  - apply (IH a (a + 32 + s)). exact H2.
Qed.

Lemma map_layout p a l nx :
  map (fun b => (bi_size b, bi_free b)) (layout p a l nx) = l.
Proof.
  revert p a; induction l as [|[s f] r IH]; intros p a; [reflexivity|].
  cbn [layout map bi_size bi_free]. now rewrite IH.
Qed.

Lemma chain_list_Chain h l : Chain h l -> chain_list h = l.
Proof.
  intros Hc. unfold chain_list. rewrite (chain_blocks_Chain _ _ Hc).
  apply map_layout.
Qed.

Lemma find_layout_none asize p a l nx :
  Forall (fun x => fits asize x = false) l ->
  find (fits_block asize) (layout p a l nx) = None.
Proof.
  revert p a; induction l as [|[s f] r IH]; intros p a H; [reflexivity|].
  inversion H as [|? ? Hx Hr]; subst. cbn [layout find].
  unfold fits_block at 1. cbn [bi_free bi_size]. unfold fits in Hx.
  cbn [fst snd] in Hx. rewrite Hx. apply IH. exact Hr.
Qed.

Lemma find_layout_some asize p a l1 s l2 nx :
  Forall (fun x => fits asize x = false) l1 -> asize <= s ->
  exists b, find (fits_block asize) (layout p a (l1 ++ (s, true) :: l2) nx) = Some b /\
            bi_hdr b = end_addr a l1 /\ bi_payload b = end_addr a l1 + 32 /\
            bi_size b = s /\ bi_free b = true.
Proof.
  revert p a; induction l1 as [|[s1 f1] r IH]; intros p a H Hs.
  - cbn [app layout find end_addr]. unfold fits_block at 1. cbn [bi_free bi_size andb].
    destruct (Z.leb_spec asize s); [|lia]. eexists; split; [reflexivity|]. cbn. auto.
  - inversion H as [|? ? Hx Hr]; subst. cbn [app layout find end_addr].
    unfold fits_block at 1. cbn [bi_free bi_size]. unfold fits in Hx.
    cbn [fst snd] in Hx. rewrite Hx. apply IH; assumption.
Qed.

(** Header addresses grow along the chain. *)
Lemma layout_ascending p a l nx b :
  nonneg_sizes l -> In b (layout p a l nx) -> a <= bi_hdr b.
Proof.
  revert p a; induction l as [|[s f] r IH]; intros p a Hn H; [contradiction|].
  inversion Hn as [|? ? Hs Hr]; subst. cbn [fst] in Hs.
  cbn [layout] in H. destruct H as [<-|H]; [cbn; lia|].
  specialize (IH _ _ Hr H). lia.
Qed.

Lemma layout_sorted p a l nx :
  nonneg_sizes l -> StronglySorted Z.lt (map bi_hdr (layout p a l nx)).
Proof.
  revert p a; induction l as [|[s f] r IH]; intros p a Hn; [constructor|].
  inversion Hn as [|? ? Hs Hr]; subst. cbn [fst] in Hs.
  cbn [layout map bi_hdr]. constructor; [apply IH; exact Hr|].
  apply Forall_forall. intros x Hx. apply in_map_iff in Hx.
  destruct Hx as (b & <- & Hb).
  pose proof (layout_ascending _ _ _ _ _ Hr Hb). lia.
Qed.

(** [free] of a pointer inside the arena whose header is marked free. *)
Lemma free_flag_set h p :
  32 <= p < wB ->
  heap_base h <= p - 32 -> p < heap_base h + heap_total_size h ->
  rd_free (bytes h) (p - 32) = true ->
  free p h = Ret tt (log_add (DoubleFree p) h).
Proof.
  intros Hp Hlo Hhi Hf. unfold free.
  destruct (Z.eqb_spec p 0) as [?|_]; [lia|].
  eapply bind_run; [reflexivity|]. cbv beta.
  destruct (Z.ltb_spec p (heap_base h)) as [?|_]; [lia|].
  destruct (Z.leb_spec (heap_base h + heap_total_size h) p) as [?|_]; [lia|].
  cbn [orb]. rewrite payload_to_block_eq by lia.
  eapply bind_run; [reflexivity|]. cbv beta.
  destruct (Z.ltb_spec (p - 32) (heap_base h)) as [?|_]; [lia|].
  destruct (Z.leb_spec (heap_base h + heap_total_size h) (p - 32)) as [?|_]; [lia|].
  cbn [orb].
  eapply bind_run; [apply get_free_run; unfold hdr_in; lia|].
  cbv beta. rewrite Hf. reflexivity.
Qed.

(** Releasing the same pointer twice: the second call only reports. *)
Lemma free_twice h l1 s l2 :
  Chain h (l1 ++ (s, false) :: l2) -> 0 < s ->
  let p := end_addr (heap_base h) l1 + 32 in
  exists h1,
    free p h = Ret tt h1 /\ Chain h1 (release l1 s l2) /\
    free p h1 = Ret tt (log_add (DoubleFree p) h1).
Proof.
  intros Hc Hpos p.
  destruct (free_spec _ _ _ _ Hc Hpos) as (m' & R & Hc' & Hf).
  destruct (Chain_block _ _ _ _ _ Hc) as (Hin & Hb0 & Hb & Hs & Hend & _).
  pose proof Hc as (_ & Hbase & Hw & Ht & _).
  exists (set_bytes m' h). split; [exact R|]. split; [exact Hc'|].
  apply free_flag_set; unfold p; cbn [heap_base heap_total_size set_bytes bytes].
  - lia.
  - lia.
  - lia.
  - replace (end_addr (heap_base h) l1 + 32 - 32) with (end_addr (heap_base h) l1) by lia.
    exact Hf.
Qed.

Lemma find_first_lowest asize (blocks : list BlockInfo) b b' :
  StronglySorted Z.lt (map bi_hdr blocks) ->
  find (fits_block asize) blocks = Some b ->
  In b' blocks -> fits_block asize b' = true -> bi_hdr b <= bi_hdr b'.
Proof.
  induction blocks as [|x r IH]; intros Hs Hf Hin Hb'; [contradiction|].
  cbn [map] in Hs. inversion Hs as [|? ? Hs' Hall]; subst.
  cbn [find] in Hf. destruct (fits_block asize x) eqn:Ex.
  - injection Hf as ->. destruct Hin as [->|Hin]; [lia|].
    rewrite Forall_forall in Hall.
    specialize (Hall (bi_hdr b') (in_map bi_hdr _ _ Hin)). lia.
  - destruct Hin as [->|Hin]; [congruence|]. now apply IH.
Qed.

Lemma request_size_max size :
  request_size size = Z.max (align_up size) MIN_BLOCK_SIZE.
Proof.
  unfold request_size. destruct (Z.ltb_spec (align_up size) MIN_BLOCK_SIZE); lia.
Qed.

Lemma malloc_same_request std_malloc size size' h :
  size <> 0 -> size' <> 0 -> request_size size = request_size size' ->
  malloc std_malloc size h = malloc std_malloc size' h.
Proof.
  intros H1 H2 Hr. unfold malloc.
  destruct (Z.eqb_spec size 0) as [?|_]; [contradiction|].
  destruct (Z.eqb_spec size' 0) as [?|_]; [contradiction|].
  fold (request_size size). fold (request_size size'). now rewrite Hr.
Qed.

(** ** The claims *)

(** C1: in every reachable state of an initialized allocator the chain that
    [dump_heap] enumerates tiles the arena: the first header is at
    [heap_base], every block's successor header starts right after its
    payload, and the last payload ends at [heap_base + heap_total_size].
    Reachable states are closed under [init_allocator], [malloc], [free],
    [realloc] and [calloc], so every operation keeps the tiling. *)
Theorem chain_tiles_arena std_malloc h :
  std_malloc_ok std_malloc ->
  reachable std_malloc h -> initialized h = true ->
  exists blocks,
    dump_heap h = Ret (Some blocks) h /\ blocks <> [] /\
    tiles (heap_base h) blocks (heap_base h + heap_total_size h).
Proof.
  intros Hok Hr Hi.
  destruct (reachable_Inv _ Hok _ Hr) as [(Hi' & _)|(l & Hc & _)]; [congruence|].
  exists (layout 0 (heap_base h) l 0). split; [now apply dump_heap_spec|].
  destruct Hc as (_ & _ & _ & _ & _ & Hne & Hseg & He). split.
  - intros E. apply layout_nil in E. contradiction.
  - rewrite <- He. apply tiles_layout. eapply seg_nonneg; eauto.
Qed.

(** C2: in every reachable state no two neighbours of the chain are both
    free, and so it is after any [free] that returns. *)
Theorem no_adjacent_free_blocks std_malloc h :
  std_malloc_ok std_malloc ->
  reachable std_malloc h ->
  no_two_free (map bi_free (chain_blocks h)) /\
  (forall p h', free_arg h p -> free p h = Ret tt h' ->
                no_two_free (map bi_free (chain_blocks h'))).
Proof.
  intros Hok Hr.
  assert (G : forall h0, reachable std_malloc h0 ->
                         no_two_free (map bi_free (chain_blocks h0))).
  { intros h0 Hr0.
    destruct (reachable_Inv _ Hok _ Hr0) as [(Hi & _)|(l & Hc & Hg & _)].
    - rewrite chain_blocks_uninit by assumption. exact I.
    - rewrite (chain_blocks_Chain _ _ Hc). now apply no_two_free_layout. }
  split; [now apply G|].
  intros p h' Harg Hrun. apply G.
  eapply reach_step; [exact Hr|]. eapply step_free; eauto.
Qed.

(** C3: [realloc] growing in place.  With an allocated block of payload [s]
    followed by a free block of payload [s2], and the rounded request above
    [s] but within [s + 32 + s2], [realloc] merges the neighbour, returns the
    same pointer and leaves the old payload bytes as they were; the block
    keeps the whole combined payload [s + 32 + s2]: no remainder is split
    off, whatever the excess, because [split_block] returns at once on a
    block that is not free. *)
Theorem realloc_grow_keeps_combined_block std_malloc h l1 s s2 r2 new_size :
  Chain h (l1 ++ (s, false) :: (s2, true) :: r2) ->
  0 < s -> new_size <> 0 ->
  s < request_size new_size <= s + 32 + s2 ->
  let p := end_addr (heap_base h) l1 + 32 in
  exists h',
    realloc std_malloc p new_size h = Ret p h' /\
    Chain h' (l1 ++ (s + 32 + s2, false) :: r2) /\
    (forall x, p <= x < p + s -> bytes h' x = bytes h x).
Proof.
  intros Hc Hpos Hn Hr p.
  destruct (realloc_grow std_malloc _ _ _ _ _ _ Hc Hpos Hn Hr) as (m' & R & Hc' & Hb).
  exists (set_bytes m' h). auto.
Qed.

(** C4: [realloc] to a size the block already holds.  [split_block] is
    called, finds the block not free and returns at once: the same pointer is
    returned and the state is unchanged, so no excess is given back, however
    large the block is. *)
Theorem realloc_shrink_never_splits std_malloc h l1 s l2 new_size :
  Chain h (l1 ++ (s, false) :: l2) ->
  0 < s -> new_size <> 0 ->
  request_size new_size <= s ->
  let p := end_addr (heap_base h) l1 + 32 in
  realloc std_malloc p new_size h = Ret p h.
Proof.
  intros Hc Hpos Hn Hr p.
  exact (realloc_shrink std_malloc _ _ _ _ _ Hc Hpos Hn Hr).
Qed.

(** C5: a [realloc] that has to relocate std_malloc (the block is too small and cannot
    grow into its successor) and whose fresh [malloc] fails returns null and
    leaves the whole state, the block's header and payload included, exactly
    as it was. *)
Theorem realloc_failure_leaves_block_untouched std_malloc h l1 s l2 new_size h1 :
  Chain h (l1 ++ (s, false) :: l2) ->
  0 < s -> new_size <> 0 ->
  s < request_size new_size ->
  can_grow (request_size new_size) s l2 = false ->
  malloc std_malloc new_size h = Ret 0 h1 ->
  realloc std_malloc (end_addr (heap_base h) l1 + 32) new_size h = Ret 0 h.
Proof.
  intros Hc Hpos Hn Hlt Hng Hm.
  destruct (fits_cases (request_size new_size) (l1 ++ (s, false) :: l2))
    as [Hno|(k1 & t & k2 & Heq & Hfit & Hno)].
  - exact (realloc_relocate_fail std_malloc _ _ _ _ _ Hc Hpos Hn Hlt Hng Hno).
  - exfalso. pose proof Hc as Hc'. rewrite Heq in Hc'.
    destruct (malloc_some std_malloc _ _ _ _ _ Hc' Hn Hfit Hno) as (m' & R & _).
    destruct (Chain_block _ _ _ _ _ Hc') as (_ & G & _).
    rewrite R in Hm. injection Hm as Hm _. lia.
Qed.

(** C6: [malloc 0] returns null and changes nothing.  Otherwise [malloc]
    takes the first block, in the order of the chain from [head], that is
    free and whose payload holds the rounded size; header addresses grow
    along the chain, so this is the candidate of lowest address.  When no
    block qualifies the result is null and the state, arena size included,
    is unchanged. *)
Theorem malloc_first_fit std_malloc h size :
  well_formed h -> 0 <= size < wB ->
  let asize := request_size size in
  StronglySorted Z.lt (map bi_hdr (chain_blocks h)) /\
  (size = 0 -> malloc std_malloc size h = Ret 0 h) /\
  (size <> 0 ->
   match find (fits_block asize) (chain_blocks h) with
   | Some b =>
       bi_payload b <> 0 /\
       (exists h', malloc std_malloc size h = Ret (bi_payload b) h') /\
       (forall b', In b' (chain_blocks h) -> fits_block asize b' = true ->
                   bi_hdr b <= bi_hdr b')
   | None => malloc std_malloc size h = Ret 0 h
   end).
Proof.
  intros (l & Hc) Hsz asize.
  pose proof Hc as (_ & Hbase & _ & _ & _ & _ & Hseg & _).
  pose proof (seg_nonneg _ _ _ _ _ Hseg) as Hn.
  assert (Hsorted : StronglySorted Z.lt (map bi_hdr (chain_blocks h))).
  { rewrite (chain_blocks_Chain _ _ Hc). now apply layout_sorted. }
  split; [exact Hsorted|]. split.
  - intros ->. apply malloc_zero.
  - intros Hnz.
    destruct (fits_cases asize l) as [Hno|(l1 & s & l2 & -> & Hfit & Hno)].
    + rewrite (chain_blocks_Chain _ _ Hc), find_layout_none by assumption.
      exact (malloc_none std_malloc _ _ _ Hc Hnz Hno).
    + destruct (find_layout_some asize 0 (heap_base h) l1 s l2 0 Hno Hfit)
        as (b & Hfind & Hh & Hp & _).
      destruct (malloc_some std_malloc _ _ _ _ _ Hc Hnz Hfit Hno) as (m' & R & _).
      destruct (Chain_block _ _ _ _ _ Hc) as (_ & G & _).
      assert (Hfind' : find (fits_block asize) (chain_blocks h) = Some b).
      { rewrite (chain_blocks_Chain _ _ Hc). exact Hfind. }
      rewrite Hfind'.
      split; [lia|]. split.
      * exists (set_bytes m' h). rewrite Hp. exact R.
      * intros b' Hin Hb'. eapply find_first_lowest; eauto.
Qed.

(** C7: a successful [malloc] looks for the request rounded up to a multiple
    of 16 (in 64-bit arithmetic) and raised to [MIN_BLOCK_SIZE].  The block
    found is split exactly when its payload holds the rounded size, a header
    and [MIN_BLOCK_SIZE] more bytes: then it keeps exactly the rounded size
    and a new free block with the rest follows it in the chain; otherwise the
    whole block is handed out. *)
Theorem malloc_rounds_and_splits std_malloc h l1 s l2 size :
  Chain h (l1 ++ (s, true) :: l2) ->
  0 < size < wB ->
  let asize := request_size size in
  asize <= s ->
  Forall (fun x => fits asize x = false) l1 ->
  asize = Z.max ((16 * ((size + 15) / 16)) mod wB) MIN_BLOCK_SIZE /\
  exists h',
    malloc std_malloc size h = Ret (end_addr (heap_base h) l1 + 32) h' /\
    (asize + align_up sizeof_Block + MIN_BLOCK_SIZE <= s ->
     Chain h' (l1 ++ (asize, false) :: (s - asize - 32, true) :: l2)) /\
    (s < asize + align_up sizeof_Block + MIN_BLOCK_SIZE ->
     Chain h' (l1 ++ (s, false) :: l2)).
Proof.
  intros Hc Hsz asize Hfit Hno. split.
  - unfold asize. rewrite request_size_max, align_up_eq by lia. reflexivity.
  - assert (Hnz : size <> 0) by lia.
    destruct (malloc_some std_malloc _ _ _ _ _ Hc Hnz Hfit Hno) as (m' & R & Hc').
    exists (set_bytes m' h). split; [exact R|].
    fold asize in Hc'. unfold carve in Hc'. rewrite hdr_sz_eq. unfold MIN_BLOCK_SIZE.
    destruct (Z.leb_spec (asize + 32 + 32) s); split; intros; try lia; exact Hc'.
Qed.

(** C8: [calloc] when the byte count does not overflow but lies within 15 of
    [SIZE_MAX]: the rounding in [malloc] wraps, a block found for 32 bytes is
    handed out, and [memset] is then asked to zero [nmemb * size] bytes from
    it, which runs past the end of the arena. *)
Theorem calloc_rounding_overrun std_malloc h k1 t k2 nmemb size :
  Chain h (k1 ++ (t, true) :: k2) ->
  0 < nmemb -> 0 < size ->
  SIZE_MAX - 15 < nmemb * size <= SIZE_MAX ->
  MIN_BLOCK_SIZE <= t ->
  Forall (fun x => fits MIN_BLOCK_SIZE x = false) k1 ->
  calloc std_malloc nmemb size h = Err OutOfBounds.
Proof.
  intros Hc Hn Hs Hr Ht Hno.
  exact (calloc_overrun std_malloc _ _ _ _ _ _ Hc Hn Hs Hr Ht Hno).
Qed.

(** C9: [free] of null does nothing.  A pointer outside the arena, or one
    whose header would lie before the arena, is reported and nothing but the
    diagnostic stream changes; so is a pointer whose header is marked free.
    Releasing an allocated block twice changes the chain once: the second
    call only reports a double free. *)
Theorem free_rejects_and_double_free h l1 s l2 :
  Chain h (l1 ++ (s, false) :: l2) -> 0 < s ->
  let p := end_addr (heap_base h) l1 + 32 in
  free 0 h = Ret tt h /\
  (forall q, q <> 0 -> outside_arena h q ->
             free q h = Ret tt (log_add (NotFromHeap false q) h)) /\
  (forall q, heap_base h <= q < heap_base h + 32 ->
             q < heap_base h + heap_total_size h ->
             free q h = Ret tt (log_add (InvalidHeader q) h)) /\
  (forall q, 32 <= q < wB -> heap_base h <= q - 32 ->
             q < heap_base h + heap_total_size h ->
             rd_free (bytes h) (q - 32) = true ->
             free q h = Ret tt (log_add (DoubleFree q) h)) /\
  (exists h1,
     free p h = Ret tt h1 /\
     chain_list h1 = release l1 s l2 /\
     free p h1 = Ret tt (log_add (DoubleFree p) h1) /\
     chain_list (log_add (DoubleFree p) h1) = chain_list h1).
Proof.
  intros Hc Hpos p.
  pose proof Hc as (_ & Hbase & Hw & Ht & _).
  split; [apply free_null|]. split; [intros; now apply free_outside|].
  split; [intros; now apply free_header_outside|].
  split; [intros; now apply free_flag_set|].
  destruct (free_twice _ _ _ _ Hc Hpos) as (h1 & R1 & Hc1 & R2).
  exists h1. split; [exact R1|]. split; [now apply chain_list_Chain|].
  split; [exact R2|].
  rewrite (chain_list_Chain _ _ (Chain_log_add _ _ _ Hc1)).
  symmetry. now apply chain_list_Chain.
Qed.

(** C10: for a request above [SIZE_MAX - 15] the sum [n + 15] wraps, the
    rounded value is 0, below the minimum payload, so [malloc] behaves as for
    a request of [MIN_BLOCK_SIZE] bytes, and where a free block of at least
    32 bytes exists it returns a non-null pointer to a block of fewer than 96
    bytes. *)
Theorem align_up_wrap_gives_minimum std_malloc size :
  SIZE_MAX - (ALIGNMENT - 1) < size <= SIZE_MAX ->
  add64 size (ALIGNMENT - 1) < ALIGNMENT - 1 /\
  align_up size = 0 /\
  align_up size < MIN_BLOCK_SIZE /\
  request_size size = MIN_BLOCK_SIZE /\
  (forall h, malloc std_malloc size h = malloc std_malloc MIN_BLOCK_SIZE h) /\
  (forall h l1 s l2,
     Chain h (l1 ++ (s, true) :: l2) -> MIN_BLOCK_SIZE <= s ->
     Forall (fun x => fits MIN_BLOCK_SIZE x = false) l1 ->
     exists h' u tl,
       malloc std_malloc size h = Ret (end_addr (heap_base h) l1 + 32) h' /\
       end_addr (heap_base h) l1 + 32 <> 0 /\
       Chain h' (l1 ++ (u, false) :: tl ++ l2) /\
       u < 96 /\ u < size).
Proof.
  intros Hsz. unfold ALIGNMENT in *.
  assert (Hal : align_up size = 0) by (apply align_up_wraps; lia).
  assert (Hreq : request_size size = MIN_BLOCK_SIZE).
  { unfold request_size. rewrite Hal. reflexivity. }
  assert (Hsz' : size <> 0) by (unfold SIZE_MAX in Hsz; rewrite wB_eq in Hsz; lia).
  split.
  { unfold add64, wrap. unfold SIZE_MAX in Hsz. rewrite wB_eq in *.
    Z.to_euclidean_division_equations. lia. }
  split; [exact Hal|]. split; [rewrite Hal; reflexivity|]. split; [exact Hreq|]. split.
  - intros h. apply malloc_same_request; [exact Hsz' | discriminate |].
    rewrite Hreq. reflexivity.
  - intros h l1 s l2 Hc Hs Hno. rewrite <- Hreq in Hs, Hno.
    destruct (malloc_some std_malloc _ _ _ _ _ Hc Hsz' Hs Hno) as (m' & R & Hc').
    destruct (Chain_block _ _ _ _ _ Hc) as (_ & G & _).
    rewrite Hreq in Hc', Hs. unfold MIN_BLOCK_SIZE in *. unfold carve in Hc'.
    unfold SIZE_MAX in Hsz. rewrite wB_eq in Hsz.
    destruct (Z.leb_spec (32 + 32 + 32) s).
    + exists (set_bytes m' h), 32, [(s - 32 - 32, true)].
      split; [exact R|]. split; [lia|]. split; [exact Hc'|]. lia.
    + exists (set_bytes m' h), s, [].
      split; [exact R|]. split; [lia|]. split; [exact Hc'|]. lia.
Qed.

(** ** Concrete runs *)

Ltac by_computation :=
  vm_compute; first [ reflexivity | discriminate | intro; discriminate ].

Ltac chain_by_computation :=
  unfold Chain; cbn [app seg];
  repeat match goal with |- _ /\ _ => split end;
  try exact I; try discriminate; by_computation.

Lemma demo_std_malloc_ok : std_malloc_ok demo_std_malloc.
Proof.
  intros n. unfold demo_std_malloc.
  destruct (Z.ltb_spec n (2 ^ 63)); [right | left; reflexivity].
  rewrite wB_eq. lia.
Qed.

Lemma demo_fresh_chain : Chain demo_fresh [(992, true)].
Proof. chain_by_computation. Qed.

Lemma demo_one_chain : Chain demo_one ([] ++ (32, false) :: (928, true) :: []).
Proof. chain_by_computation. Qed.

Lemma demo_full_chain : Chain demo_full ([] ++ (96, false) :: []).
Proof. chain_by_computation. Qed.

Lemma demo_big_chain : Chain demo_big ([] ++ (1024, false) :: (960, true) :: []).
Proof. chain_by_computation. Qed.

Lemma demo_one_reachable : reachable demo_std_malloc demo_one.
Proof.
  apply reach_step with (h := demo_fresh).
  - apply reach_step with (h := program_start).
    + apply reach_start; reflexivity.
    + apply step_init with (heap_size := 1024); [rewrite wB_eq; lia | reflexivity].
  - apply step_malloc with (size := 32) (p := 4128); [rewrite wB_eq; lia | reflexivity].
Qed.

(** ** The claims on the concrete runs *)

(** C1 on the state after [init_allocator(1024)] and [malloc(32)]. *)
Lemma chain_tiles_arena_witness :
  exists blocks,
    dump_heap demo_one = Ret (Some blocks) demo_one /\ blocks <> [] /\
    tiles (heap_base demo_one) blocks (heap_base demo_one + heap_total_size demo_one).
Proof.
  apply (chain_tiles_arena demo_std_malloc demo_one).
  - exact demo_std_malloc_ok.
  - exact demo_one_reachable.
  - reflexivity.
Defined.

(** C2 on the same state. *)
Lemma no_adjacent_free_blocks_witness :
  no_two_free (map bi_free (chain_blocks demo_one)) /\
  (forall p h', free_arg demo_one p -> free p demo_one = Ret tt h' ->
                no_two_free (map bi_free (chain_blocks h'))).
Proof.
  apply (no_adjacent_free_blocks demo_std_malloc demo_one).
  - exact demo_std_malloc_ok.
  - exact demo_one_reachable.
Defined.

(** C3: [realloc(4128, 64)] on a 32-byte block followed by 928 free bytes.
    The block ends with the whole 992 bytes; a split by the allocation rule
    would have left 64 allocated and 896 free. *)
Lemma realloc_grow_keeps_combined_block_witness :
  exists h',
    realloc demo_std_malloc 4128 64 demo_one = Ret 4128 h' /\
    Chain h' ([] ++ (32 + 32 + 928, false) :: []) /\
    (forall x, 4128 <= x < 4128 + 32 -> bytes h' x = bytes demo_one x).
Proof.
  apply (realloc_grow_keeps_combined_block demo_std_malloc demo_one [] 32 928 [] 64).
  - exact demo_one_chain.
  - lia.
  - discriminate.
  - split; by_computation.
Defined.

(** C4: [realloc(4128, 128)] on a block of 1024 bytes: nothing changes,
    though 1024 >= 128 + 32 + 32. *)
Lemma realloc_shrink_never_splits_witness :
  128 + 32 + 32 <= 1024 /\
  realloc demo_std_malloc 4128 128 demo_big = Ret 4128 demo_big.
Proof.
  split; [lia|].
  apply (realloc_shrink_never_splits demo_std_malloc demo_big [] 1024 [(960, true)] 128).
  - exact demo_big_chain.
  - lia.
  - discriminate.
  - by_computation.
Defined.

(** C5: [realloc(4128, 200)] when the only block, 96 bytes, is the one to
    resize. *)
Lemma realloc_failure_leaves_block_untouched_witness :
  malloc demo_std_malloc 200 demo_full = Ret 0 demo_full /\
  realloc demo_std_malloc 4128 200 demo_full = Ret 0 demo_full.
Proof.
  split; [reflexivity|].
  apply (realloc_failure_leaves_block_untouched
           demo_std_malloc demo_full [] 96 [] 200 demo_full).
  - exact demo_full_chain.
  - lia.
  - discriminate.
  - by_computation.
  - reflexivity.
  - reflexivity.
Defined.

(** C6: [malloc(50)] with blocks of 32 (allocated) and 928 (free) bytes takes
    the second block. *)
Lemma malloc_first_fit_witness :
  StronglySorted Z.lt (map bi_hdr (chain_blocks demo_one)) /\
  (50 = 0 -> malloc demo_std_malloc 50 demo_one = Ret 0 demo_one) /\
  (50 <> 0 ->
   match find (fits_block (request_size 50)) (chain_blocks demo_one) with
   | Some b =>
       bi_payload b <> 0 /\
       (exists h', malloc demo_std_malloc 50 demo_one = Ret (bi_payload b) h') /\
       (forall b', In b' (chain_blocks demo_one) ->
                   fits_block (request_size 50) b' = true -> bi_hdr b <= bi_hdr b')
   | None => malloc demo_std_malloc 50 demo_one = Ret 0 demo_one
   end).
Proof.
  apply (malloc_first_fit demo_std_malloc demo_one 50).
  - eexists. exact demo_one_chain.
  - rewrite wB_eq. lia.
Defined.

(** C7: [malloc(50)] on the fresh arena: 64 bytes are carved out of the 992
    and 896 stay free. *)
Lemma malloc_rounds_and_splits_witness :
  request_size 50 = Z.max ((16 * ((50 + 15) / 16)) mod wB) MIN_BLOCK_SIZE /\
  exists h',
    malloc demo_std_malloc 50 demo_fresh = Ret (end_addr (heap_base demo_fresh) [] + 32) h' /\
    (request_size 50 + align_up sizeof_Block + MIN_BLOCK_SIZE <= 992 ->
     Chain h' ([] ++ (request_size 50, false) :: (992 - request_size 50 - 32, true) :: [])) /\
    (992 < request_size 50 + align_up sizeof_Block + MIN_BLOCK_SIZE ->
     Chain h' ([] ++ (992, false) :: [])).
Proof.
  apply (malloc_rounds_and_splits demo_std_malloc demo_fresh [] 992 [] 50).
  - exact demo_fresh_chain.
  - rewrite wB_eq. lia.
  - by_computation.
  - constructor.
Defined.

(** C8: [calloc(1, SIZE_MAX)] on the fresh arena. *)
Lemma calloc_rounding_overrun_witness :
  (SIZE_MAX / SIZE_MAX <? 1) = false /\
  calloc demo_std_malloc 1 SIZE_MAX demo_fresh = Err OutOfBounds.
Proof.
  split; [reflexivity|].
  apply (calloc_rounding_overrun demo_std_malloc demo_fresh [] 992 [] 1 SIZE_MAX).
  - exact demo_fresh_chain.
  - lia.
  - reflexivity.
  - split; by_computation.
  - by_computation.
  - constructor.
Defined.

(** C9: [free(4128)] twice with blocks of 32 (allocated) and 928 (free)
    bytes: the first call merges them into one free block of 992 bytes, the
    second only reports. *)
Lemma free_rejects_and_double_free_witness :
  exists h1,
    free 4128 demo_one = Ret tt h1 /\
    chain_list h1 = [(992, true)] /\
    free 4128 h1 = Ret tt (log_add (DoubleFree 4128) h1) /\
    chain_list (log_add (DoubleFree 4128) h1) = chain_list h1.
Proof.
  apply (free_rejects_and_double_free demo_one [] 32 [(928, true)]).
  - exact demo_one_chain.
  - lia.
Defined.

(** C10: [malloc(SIZE_MAX)] is [malloc(32)]. *)
Lemma align_up_wrap_gives_minimum_witness :
  align_up SIZE_MAX = 0 /\
  request_size SIZE_MAX = MIN_BLOCK_SIZE /\
  forall h, malloc demo_std_malloc SIZE_MAX h = malloc demo_std_malloc MIN_BLOCK_SIZE h.
Proof.
  destruct (align_up_wrap_gives_minimum demo_std_malloc SIZE_MAX)
    as (_ & H1 & _ & H2 & H3 & _).
  - split; by_computation.
  - exact (conj H1 (conj H2 H3)).
Defined.

(** [malloc(SIZE_MAX)] on the fresh arena returns 4128, a block of 32
    bytes. *)
Example malloc_size_max_demo :
  exists h', malloc demo_std_malloc SIZE_MAX demo_fresh = Ret 4128 h' /\
             chain_list h' = [(32, false); (928, true)].
Proof.
  exists (heap_after (malloc demo_std_malloc SIZE_MAX demo_fresh)).
  split; by_computation.
Qed.

(** The run of the test program that the claim C3 is about, on a small
    arena: after [realloc] the grown block owns the rest of the arena and a
    following [malloc(50)] fails. *)
Example realloc_grow_starves_malloc :
  exists h', realloc demo_std_malloc 4128 64 demo_one = Ret 4128 h' /\
             chain_list h' = [(992, false)] /\
             malloc demo_std_malloc 50 h' = Ret 0 h'.
Proof.
  exists (heap_after (realloc demo_std_malloc 4128 64 demo_one)).
  split; [|split]; by_computation.
Qed.

(** * Further properties of the code *)

(** X1: below the wrap-around [align_up n] is the least multiple of 16 that
    is not below [n]; rounding twice changes nothing. *)
Theorem align_up_least_multiple n :
  0 <= n <= SIZE_MAX - 15 ->
  align_up n mod ALIGNMENT = 0 /\ n <= align_up n /\
  (forall m, m mod ALIGNMENT = 0 -> n <= m -> align_up n <= m) /\
  align_up (align_up n) = align_up n /\
  (n mod ALIGNMENT = 0 -> align_up n = n).
Proof.
  intros Hn. unfold ALIGNMENT.
  destruct (align_up_no_wrap n Hn) as (E & Hr & Hm).
  assert (Hfix : forall k, 0 <= k <= SIZE_MAX - 15 -> k mod 16 = 0 -> align_up k = k).
  { intros k Hk Hk0. destruct (align_up_no_wrap k Hk) as (Ek & _).
    rewrite Ek. Z.to_euclidean_division_equations. lia. }
  split; [exact Hm|]. split; [lia|]. split; [|split].
  - intros m Hm0 Hle. rewrite E. Z.to_euclidean_division_equations. lia.
  - apply Hfix; [|exact Hm].
    unfold SIZE_MAX in *. rewrite wB_eq in *. rewrite E.
    Z.to_euclidean_division_equations. lia.
  - intros H0. now apply Hfix.
Qed.

Lemma align_up_least_multiple_witness :
  align_up 50 mod ALIGNMENT = 0 /\ 50 <= align_up 50 /\
  (forall m, m mod ALIGNMENT = 0 -> 50 <= m -> align_up 50 <= m) /\
  align_up (align_up 50) = align_up 50 /\
  (50 mod ALIGNMENT = 0 -> align_up 50 = 50).
Proof.
  apply (align_up_least_multiple 50). vm_compute. split; discriminate.
Defined.

(** X2: header and payload addresses.  [block_to_payload] and
    [payload_to_block] map null to null and are inverse to each other on
    every other 64-bit address but one: the header address [2^64 - 32], whose
    payload address wraps to null, and the payload address 32, whose header
    address is null. *)
Theorem payload_block_round_trip x :
  0 <= x < wB ->
  block_to_payload 0 = 0 /\ payload_to_block 0 = 0 /\
  (x <> 0 -> x <> wB - 32 -> payload_to_block (block_to_payload x) = x) /\
  (x <> 0 -> x <> 32 -> block_to_payload (payload_to_block x) = x) /\
  payload_to_block (block_to_payload (wB - 32)) = 0 /\
  block_to_payload (payload_to_block 32) = 0.
Proof.
  intros Hx. split; [reflexivity|]. split; [reflexivity|].
  split; [|split; [|split; reflexivity]].
  - intros H0 H1. unfold payload_to_block, block_to_payload. rewrite hdr_sz_eq.
    destruct (Z.eqb_spec x 0) as [?|_]; [contradiction|].
    unfold add64, sub64, wrap.
    destruct (Z.eqb_spec ((x + 32) mod wB) 0) as [E|_].
    + exfalso. rewrite wB_eq in *. Z.to_euclidean_division_equations. lia.
    + rewrite wB_eq in *. Z.to_euclidean_division_equations. lia.
  - intros H0 H1. unfold payload_to_block, block_to_payload. rewrite hdr_sz_eq.
    destruct (Z.eqb_spec x 0) as [?|_]; [contradiction|].
    unfold add64, sub64, wrap.
    destruct (Z.eqb_spec ((x - 32) mod wB) 0) as [E|_].
    + exfalso. rewrite wB_eq in *. Z.to_euclidean_division_equations. lia.
    + rewrite wB_eq in *. Z.to_euclidean_division_equations. lia.
Qed.

Lemma payload_block_round_trip_witness :
  payload_to_block (block_to_payload 4096) = 4096 /\
  block_to_payload (payload_to_block 4128) = 4128.
Proof.
  destruct (payload_block_round_trip 4096) as (_ & _ & H1 & _).
  { vm_compute. split; [discriminate | reflexivity]. }
  destruct (payload_block_round_trip 4128) as (_ & _ & _ & H2 & _).
  { vm_compute. split; [discriminate | reflexivity]. }
  split; [apply H1 | apply H2]; vm_compute; discriminate.
Defined.

(** The first [init_allocator] on a buffer of at least 32 bytes. *)
Lemma init_allocator_run std_malloc h heap_size :
  initialized h = false ->
  let total := align_up heap_size in
  let base := std_malloc total in
  0 < base -> base + total < wB -> 32 <= total ->
  init_allocator std_malloc heap_size h =
    Ret tt (mkHeap (store (store (store (store (memset_bytes (bytes h) base 0 total)
                                    base 8 (total - 32))
                             (base + 8) 1 1) (base + 16) 8 0) (base + 24) 8 0)
                   base total base true (stderr_log h)).
Proof.
  intros Hi total base Hb Hw Ht. unfold init_allocator. rewrite Hi.
  fold total. fold base.
  destruct (Z.eqb_spec base 0) as [?|_]; [lia|].
  rewrite hdr_sz_eq.
  set (h1 := mkHeap (bytes h) base total (head h) false (stderr_log h)).
  set (m1 := memset_bytes (bytes h) base 0 total).
  set (h2 := mkHeap m1 base total base false (stderr_log h)).
  assert (Hin : hdr_in h2 base) by (unfold hdr_in; cbn; lia).
  assert (Hs : sub64 total 32 = total - 32) by (w64; reflexivity).
  eapply bind_run; [apply memset_run; cbn; lia|]. cbv beta.
  eapply bind_run; [reflexivity|]. cbv beta. fold m1. fold h2.
  rewrite Hs. do 4 mstep. reflexivity.
Qed.

(** X3: the first [init_allocator] leaves one free block that spans the
    arena. *)
Theorem init_allocator_fresh_arena std_malloc h heap_size :
  initialized h = false ->
  16 < heap_size <= SIZE_MAX - 15 ->
  let total := align_up heap_size in
  let base := std_malloc total in
  0 < base -> base + total < wB -> total < 2 ^ 63 ->
  exists h',
    init_allocator std_malloc heap_size h = Ret tt h' /\
    initialized h' = true /\ heap_base h' = base /\ head h' = base /\
    heap_total_size h' = total /\ heap_size <= total < heap_size + 16 /\
    dump_heap h' = Ret (Some [mkInfo base (base + 32) (total - 32) true 0 0]) h' /\
    (forall x, base + 32 <= x < base + total -> bytes h' x = 0) /\
    (forall x, x < base \/ base + total <= x -> bytes h' x = bytes h x) /\
    stderr_log h' = stderr_log h.
Proof.
  intros Hi Hsz total base Hb Hw Ht.
  destruct (align_up_no_wrap heap_size) as (_ & Hr & Hm); [lia|]. fold total in Hr, Hm.
  assert (H32 : 32 <= total).
  { revert Hm. Z.to_euclidean_division_equations. lia. }
  eexists. split; [apply init_allocator_run; assumption|].
  fold total. fold base.
  cbn [initialized heap_base head heap_total_size stderr_log bytes].
  repeat split; try reflexivity; try lia.
  - match goal with |- dump_heap ?hf = _ => set (hf' := hf) end.
    assert (Hc : Chain hf' [(total - 32, true)]).
    { unfold hf', Chain. cbn [initialized heap_base heap_total_size head bytes].
      repeat split; try reflexivity; try lia; try discriminate;
        cbn [seg nxt_of end_addr]; fields_tac. }
    rewrite (dump_heap_spec _ _ Hc). reflexivity.
  - intros x Hx. repeat (rewrite store_outside by lia).
    rewrite memset_bytes_inside by lia. reflexivity.
  - intros x Hx. repeat (rewrite store_outside by lia).
    apply memset_bytes_outside. lia.
Qed.

Lemma init_allocator_fresh_arena_witness :
  exists h',
    init_allocator demo_std_malloc 1000 program_start = Ret tt h' /\
    dump_heap h' = Ret (Some [mkInfo 4096 4128 976 true 0 0]) h'.
Proof.
  destruct (init_allocator_fresh_arena demo_std_malloc program_start 1000)
    as (h' & R & _ & _ & _ & _ & _ & D & _).
  - reflexivity.
  - vm_compute. split; [reflexivity | discriminate].
  - reflexivity.
  - reflexivity.
  - reflexivity.
  - exists h'. split; [exact R | exact D].
Defined.

(** X4: the calls of [init_allocator] that set up no arena.  A call on an
    initialized allocator changes nothing and does not ask for a buffer.  A
    first call throws [std::bad_alloc] when [std::malloc] returns null.  A
    first call whose rounded size is below the size of one header (requests
    of at most 16 bytes, and requests above [SIZE_MAX - 15], which round to
    0) writes the first header past the end of the buffer it got. *)
Theorem init_allocator_no_arena std_malloc h heap_size :
  0 <= heap_size < wB ->
  (initialized h = true -> init_allocator std_malloc heap_size h = Ret tt h) /\
  (initialized h = false -> std_malloc (align_up heap_size) = 0 ->
   init_allocator std_malloc heap_size h = Err BadAlloc) /\
  (initialized h = false -> std_malloc (align_up heap_size) <> 0 ->
   heap_size <= 16 \/ SIZE_MAX - 15 < heap_size ->
   align_up heap_size < sizeof_Block /\
   init_allocator std_malloc heap_size h = Err OutOfBounds).
Proof.
  intros Hsz. split; [|split].
  - intros Hi. unfold init_allocator. now rewrite Hi.
  - intros Hi H0. unfold init_allocator. now rewrite Hi, H0.
  - intros Hi Hnz Hsmall.
    assert (Ht : align_up heap_size = 0 \/ align_up heap_size = 16).
    { destruct (Z.le_gt_cases heap_size (SIZE_MAX - 15)) as [Hle|Hgt].
      - destruct (align_up_no_wrap heap_size) as (E & Hr & Hm); [lia|].
        revert Hm. Z.to_euclidean_division_equations. lia.
      - left. apply align_up_wraps. unfold SIZE_MAX in *. lia. }
    split; [unfold sizeof_Block; lia|].
    unfold init_allocator. rewrite Hi.
    destruct (Z.eqb_spec (std_malloc (align_up heap_size)) 0) as [?|_]; [contradiction|].
    rewrite hdr_sz_eq.
    set (base := std_malloc (align_up heap_size)).
    unfold bind, memset, set_size, set_free, set_next, set_prev, sto, in_arena.
    cbn [heap_base heap_total_size set_bytes bytes].
    assert (Hz : Z.of_nat 8 = 8 /\ Z.of_nat 1 = 1) by (split; reflexivity).
    destruct Hz as [-> ->].
    destruct Ht as [-> | ->]; cbn [Z.eqb orb];
      repeat (cbn [heap_base heap_total_size set_bytes bytes andb orb];
              match goal with
              | |- context [?a <=? ?b] => destruct (Z.leb_spec a b); try lia
              end);
      reflexivity.
Qed.

Lemma init_allocator_no_arena_witness :
  init_allocator demo_std_malloc 10 demo_fresh = Ret tt demo_fresh /\
  init_allocator (fun _ => 0) 10 program_start = Err BadAlloc /\
  init_allocator demo_std_malloc 10 program_start = Err OutOfBounds.
Proof.
  assert (R : 0 <= 10 < wB) by (vm_compute; split; [discriminate | reflexivity]).
  split; [|split].
  - apply (init_allocator_no_arena demo_std_malloc demo_fresh 10 R). reflexivity.
  - apply (init_allocator_no_arena (fun _ => 0) program_start 10 R); reflexivity.
  - apply (init_allocator_no_arena demo_std_malloc program_start 10 R).
    + reflexivity.
    + vm_compute. discriminate.
    + left. lia.
Defined.

Lemma linked_layout p a l : linked p (layout p a l 0).
Proof.
  revert p a; induction l as [|[s f] r IH]; intros p a; [exact I|].
  cbn [layout linked bi_prev bi_next bi_hdr]. split; [reflexivity|]. split.
  - destruct r as [|[s' f'] r']; reflexivity.
  - apply IH.
Qed.

Lemma dump_heap_uninit h : initialized h = false -> dump_heap h = Ret None h.
Proof. intros Hi. unfold dump_heap, bind. now rewrite Hi. Qed.

(** X5: [find_fit] is a search of the chain that [dump_heap] enumerates: it
    returns the header of the first block that is free and holds [asize]
    bytes, null exactly when there is none, and leaves the state as it is. *)
Theorem find_fit_scans_chain h asize :
  well_formed h ->
  find_fit asize h =
    Ret (match find (fits_block asize) (chain_blocks h) with
         | Some b => bi_hdr b
         | None => 0
         end) h /\
  (forall b, find (fits_block asize) (chain_blocks h) = Some b ->
             bi_hdr b <> 0 /\ bi_free b = true /\ asize <= bi_size b).
Proof.
  intros (l & Hc). rewrite (find_fit_spec _ _ asize Hc).
  destruct (fits_cases asize l) as [Hno|(l1 & s & l2 & -> & Hfit & Hno)].
  - assert (E : find (fits_block asize) (chain_blocks h) = None).
    { rewrite (chain_blocks_Chain _ _ Hc). now apply find_layout_none. }
    rewrite E, first_fit_none by assumption.
    split; [reflexivity | discriminate].
  - destruct (find_layout_some asize 0 (heap_base h) l1 s l2 0 Hno Hfit)
      as (b & Hfind & Hh & _ & Hs & Hf).
    assert (E : find (fits_block asize) (chain_blocks h) = Some b).
    { rewrite (chain_blocks_Chain _ _ Hc). exact Hfind. }
    destruct (Chain_block _ _ _ _ _ Hc) as (_ & Hb0 & _).
    rewrite E, first_fit_some; auto.
    2:{ unfold fits. cbn [fst snd andb]. now apply Z.leb_le. }
    split; [now rewrite Hh|].
    intros b' E'. injection E' as <-. rewrite Hh, Hs. repeat split; auto. lia.
Qed.

(** X6: [dump_heap] on the states the allocator can be in.  It returns
    without changing the state; it reports the heap as not initialized
    exactly when it is not; and the links it prints are those of a doubly
    linked list: every block's [prev] is the header of the block listed
    before it and its [next] the header of the block listed after it, with
    null at both ends, the first block being [head]. *)
Theorem dump_heap_doubly_linked std_malloc h :
  std_malloc_ok std_malloc ->
  reachable std_malloc h ->
  exists r,
    dump_heap h = Ret r h /\
    (r = None <-> initialized h = false) /\
    (forall blocks, r = Some blocks ->
       linked 0 blocks /\ map bi_hdr (firstn 1 blocks) = [head h]).
Proof.
  intros Hok Hr.
  destruct (reachable_Inv _ Hok _ Hr) as [(Hi & _)|(l & Hc & _)].
  - exists None. split; [now apply dump_heap_uninit|].
    split; [tauto | discriminate].
  - exists (Some (layout 0 (heap_base h) l 0)).
    split; [now apply dump_heap_spec|].
    pose proof Hc as (Hi & _ & _ & _ & Hhd & Hne & _).
    split; [split; [discriminate | congruence]|].
    intros blocks E. injection E as <-. split; [apply linked_layout|].
    destruct l as [|[s f] r]; [contradiction|]. cbn. now rewrite Hhd.
Qed.

(** X7: when no block is allocated the arena is one block again: in a
    reachable state whose blocks are all free the chain is the single free
    block that [init_allocator] set up, whatever was allocated and released
    in between. *)
Theorem all_free_is_one_block std_malloc h :
  std_malloc_ok std_malloc ->
  reachable std_malloc h -> initialized h = true ->
  (forall b, In b (chain_blocks h) -> bi_free b = true) ->
  chain_blocks h =
    [mkInfo (heap_base h) (heap_base h + 32) (heap_total_size h - 32) true 0 0].
Proof.
  intros Hok Hr Hi Hall.
  destruct (reachable_Inv _ Hok _ Hr) as [(Hi' & _)|(l & Hc & (Hadj & _))]; [congruence|].
  rewrite (chain_blocks_Chain _ _ Hc) in *.
  pose proof Hc as (_ & _ & _ & _ & _ & Hne & _ & He).
  destruct l as [|[s f] r]; [contradiction|].
  assert (Hf : f = true).
  { apply (Hall (mkInfo (heap_base h) (heap_base h + 32) s f 0
                        (nxt_of (heap_base h + 32 + s) r 0))).
    left. reflexivity. }
  subst f. destruct r as [|[s' f'] r'].
  - cbn [layout nxt_of end_addr] in *. repeat f_equal. lia.
  - exfalso. cbn [no_adj_free fr_head hd snd] in Hadj. destruct Hadj as [G _].
    specialize (G eq_refl). subst f'.
    assert (true = false); [|discriminate].
    symmetry. apply (Hall (mkInfo (heap_base h + 32 + s) (heap_base h + 32 + s + 32) s' false
                         (heap_base h) (nxt_of (heap_base h + 32 + s + 32 + s') r' 0))).
    right. left. reflexivity.
Qed.

(** ** Releasing what was just carved *)

Lemma merge_prev_allocated l1 s l2 :
  fr_last l1 = false -> merge_prev l1 s l2 = l1 ++ (s, true) :: l2.
Proof.
  unfold merge_prev, fr_last. destruct (last l1 (0, false)) as [sp [|]]; cbn [snd];
    [discriminate | reflexivity].
Qed.

Lemma absorb_next_allocated s l2 : fr_head l2 = false -> absorb_next s l2 = (s, l2).
Proof.
  destruct l2 as [|[s2 [|]] r]; cbn [fr_head hd snd absorb_next];
    [reflexivity | discriminate | reflexivity].
Qed.

Lemma no_adj_free_around l1 s l2 :
  no_adj_free (l1 ++ (s, true) :: l2) -> fr_last l1 = false /\ fr_head l2 = false.
Proof.
  intros H. apply no_adj_free_app in H. destruct H as (_ & H2 & H3).
  cbn [no_adj_free fr_head hd snd] in H2, H3. destruct H2 as [H2 _]. split.
  - destruct (fr_last l1); [specialize (H3 eq_refl); discriminate | reflexivity].
  - now apply H2.
Qed.

(** Carving a block out of a free one and releasing it again gives the free
    block back. *)
Lemma release_carve l1 s l2 asize u tl :
  no_adj_free (l1 ++ (s, true) :: l2) ->
  carve asize s = (u, false) :: tl ->
  release l1 u (tl ++ l2) = l1 ++ (s, true) :: l2.
Proof.
  intros H Hcv. destruct (no_adj_free_around _ _ _ H) as [H1 H2].
  unfold carve in Hcv. unfold release.
  destruct (asize + 32 + 32 <=? s); injection Hcv as <- <-.
  - cbn [app absorb_next]. rewrite merge_prev_allocated by assumption.
    do 3 f_equal. lia.
  - cbn [app]. rewrite absorb_next_allocated by assumption.
    now apply merge_prev_allocated.
Qed.

(** X8: [malloc] followed by [free] of the pointer it returned gives back
    the chain there was before the two calls: the same blocks at the same
    addresses, the remainder that [split_block] cut off merged back.  A
    [malloc] that returns null has changed nothing. *)
Theorem malloc_then_free_restores_chain std_malloc h size :
  std_malloc_ok std_malloc ->
  reachable std_malloc h -> initialized h = true ->
  exists p h1,
    malloc std_malloc size h = Ret p h1 /\
    (p = 0 -> h1 = h) /\
    (p <> 0 ->
     exists h2, free p h1 = Ret tt h2 /\ chain_blocks h2 = chain_blocks h).
Proof.
  intros Hok Hr Hi.
  destruct (reachable_Inv _ Hok _ Hr) as [(Hi' & _)|(l & Hc & (Hadj & _))]; [congruence|].
  destruct (Z.eq_dec size 0) as [->|Hn].
  { exists 0, h. split; [apply malloc_zero|]. split; [reflexivity | contradiction]. }
  destruct (fits_cases (request_size size) l) as [Hno|(l1 & s & l2 & -> & Hfit & Hno)].
  { exists 0, h. split; [exact (malloc_none std_malloc _ _ _ Hc Hn Hno)|].
    split; [reflexivity | contradiction]. }
  destruct (malloc_some std_malloc _ _ _ _ _ Hc Hn Hfit Hno) as (m' & R & Hc').
  destruct (Chain_block _ _ _ _ _ Hc) as (_ & Hb0 & _).
  exists (end_addr (heap_base h) l1 + 32), (set_bytes m' h).
  split; [exact R|]. split; [intros; lia|]. intros _.
  destruct (carve_shape (request_size size) s Hfit) as (u & tl & Hcv & Hu & _).
  rewrite Hcv in Hc'. cbn [app] in Hc'.
  destruct (free_spec _ _ _ _ Hc') as (m2 & R2 & Hc2 & _).
  { pose proof (request_size_min size). lia. }
  cbn [heap_base set_bytes] in R2.
  exists (set_bytes m2 (set_bytes m' h)). split; [exact R2|].
  assert (Hc3 : Chain (set_bytes m2 (set_bytes m' h)) (l1 ++ (s, true) :: l2)).
  { rewrite <- (release_carve _ _ _ _ _ _ Hadj Hcv). exact Hc2. }
  rewrite (chain_blocks_Chain _ _ Hc3), (chain_blocks_Chain _ _ Hc). reflexivity.
Qed.

(** X9: [calloc] for a byte count that the rounding does not wrap.  The call
    returns.  With no free block for the rounded byte count the result is
    null and the state unchanged.  Otherwise the result is the payload of an
    allocated block of the chain that holds [nmemb * size] bytes, all of
    them zero. *)
Theorem calloc_zero_filled std_malloc h nmemb size :
  well_formed h ->
  0 < nmemb -> 0 < size -> nmemb * size <= SIZE_MAX - 15 ->
  exists p h',
    calloc std_malloc nmemb size h = Ret p h' /\
    (p = 0 -> h' = h) /\
    (p = 0 <->
     find (fits_block (request_size (nmemb * size))) (chain_blocks h) = None) /\
    (p <> 0 ->
     (exists b, In b (chain_blocks h') /\ bi_payload b = p /\
                bi_free b = false /\ nmemb * size <= bi_size b) /\
     (forall x, p <= x < p + nmemb * size -> bytes h' x = 0)).
Proof.
  intros (l & Hc) Hn Hs Hle.
  set (total := nmemb * size) in *.
  assert (Hle' : total <= SIZE_MAX) by lia.
  assert (Hreq : total <= request_size total).
  { destruct (align_up_no_wrap total) as (_ & G & _); [lia|].
    rewrite request_size_max. lia. }
  destruct (fits_cases (request_size total) l) as [Hno|(l1 & t & l2 & -> & Hfit & Hno)].
  - exists 0, h. split; [exact (calloc_none std_malloc _ _ _ _ Hc Hn Hs Hle' Hno)|].
    split; [reflexivity|]. split; [|intros G; contradiction].
    split; [|reflexivity]. intros _.
    rewrite (chain_blocks_Chain _ _ Hc). now apply find_layout_none.
  - destruct (calloc_some std_malloc _ _ _ _ _ _ Hc Hn Hs Hle Hfit Hno)
      as (m' & R & Hc' & Hz).
    destruct (Chain_block _ _ _ _ _ Hc) as (_ & Hb0 & _).
    exists (end_addr (heap_base h) l1 + 32), (set_bytes m' h).
    split; [exact R|]. split; [intros; lia|]. split.
    + split; [intros; lia|]. intros E. exfalso.
      destruct (find_layout_some (request_size total) 0 (heap_base h) l1 t l2 0 Hno Hfit)
        as (b & Hfind & _).
      assert (E' : find (fits_block (request_size total)) (chain_blocks h) = Some b).
      { rewrite (chain_blocks_Chain _ _ Hc). exact Hfind. }
      rewrite E in E'. discriminate.
    + intros _. split; [|exact Hz].
      destruct (carve_shape (request_size total) t Hfit) as (u & tl & Hcv & Hu & _).
      fold total in Hc'. rewrite Hcv in Hc'. cbn [app] in Hc'.
      rewrite (chain_blocks_Chain _ _ Hc'). cbn [heap_base set_bytes].
      destruct (layout_In 0 (heap_base h) l1 u false (tl ++ l2) 0)
        as (b & Hin & _ & Hp & Hsz & Hf).
      exists b. repeat split; auto. lia.
Qed.

(** ** The properties above on concrete runs *)

Lemma demo_fresh_reachable : reachable demo_std_malloc demo_fresh.
Proof.
  apply reach_step with (h := program_start).
  - apply reach_start; reflexivity.
  - apply step_init with (heap_size := 1024); [rewrite wB_eq; lia | reflexivity].
Qed.

Lemma demo_released_reachable : reachable demo_std_malloc demo_released.
Proof.
  apply reach_step with (h := demo_one); [exact demo_one_reachable|].
  apply step_free with (p := 4128); [|reflexivity].
  split; [rewrite wB_eq; lia|]. right. right. right.
  exists (mkInfo 4096 4128 32 false 0 4160). split; [|reflexivity].
  vm_compute. left. reflexivity.
Qed.

Lemma find_fit_scans_chain_witness :
  find_fit 64 demo_one =
    Ret (match find (fits_block 64) (chain_blocks demo_one) with
         | Some b => bi_hdr b
         | None => 0
         end) demo_one /\
  (forall b, find (fits_block 64) (chain_blocks demo_one) = Some b ->
             bi_hdr b <> 0 /\ bi_free b = true /\ 64 <= bi_size b).
Proof.
  apply (find_fit_scans_chain demo_one 64). eexists. exact demo_one_chain.
Defined.

Lemma dump_heap_doubly_linked_witness :
  exists r,
    dump_heap demo_one = Ret r demo_one /\
    (r = None <-> initialized demo_one = false) /\
    (forall blocks, r = Some blocks ->
       linked 0 blocks /\ map bi_hdr (firstn 1 blocks) = [head demo_one]).
Proof.
  apply (dump_heap_doubly_linked demo_std_malloc demo_one).
  - exact demo_std_malloc_ok.
  - exact demo_one_reachable.
Defined.

(** [init_allocator(1024)], [malloc(32)], [free]: one block of 992 bytes. *)
Lemma all_free_is_one_block_witness :
  chain_blocks demo_released =
    [mkInfo (heap_base demo_released) (heap_base demo_released + 32)
            (heap_total_size demo_released - 32) true 0 0].
Proof.
  apply (all_free_is_one_block demo_std_malloc demo_released).
  - exact demo_std_malloc_ok.
  - exact demo_released_reachable.
  - reflexivity.
  - intros b Hb. vm_compute in Hb. destruct Hb as [<-|[]]. reflexivity.
Defined.

(** [malloc(50)] on the fresh arena of 1024 bytes, then [free]. *)
Lemma malloc_then_free_restores_chain_witness :
  exists p h1,
    malloc demo_std_malloc 50 demo_fresh = Ret p h1 /\
    (p = 0 -> h1 = demo_fresh) /\
    (p <> 0 ->
     exists h2, free p h1 = Ret tt h2 /\ chain_blocks h2 = chain_blocks demo_fresh).
Proof.
  apply (malloc_then_free_restores_chain demo_std_malloc demo_fresh 50).
  - exact demo_std_malloc_ok.
  - exact demo_fresh_reachable.
  - reflexivity.
Defined.

(** [calloc(10, 4)], the call of the test program, on the fresh arena. *)
Lemma calloc_zero_filled_witness :
  exists p h',
    calloc demo_std_malloc 10 4 demo_fresh = Ret p h' /\
    (p = 0 -> h' = demo_fresh) /\
    (p = 0 <->
     find (fits_block (request_size (10 * 4))) (chain_blocks demo_fresh) = None) /\
    (p <> 0 ->
     (exists b, In b (chain_blocks h') /\ bi_payload b = p /\
                bi_free b = false /\ 10 * 4 <= bi_size b) /\
     (forall x, p <= x < p + 10 * 4 -> bytes h' x = 0)).
Proof.
  apply (calloc_zero_filled demo_std_malloc demo_fresh 10 4).
  - eexists. exact demo_fresh_chain.
  - lia.
  - lia.
  - vm_compute. discriminate.
Defined.

(** ** [realloc]: the calls that do not resize *)

Lemma realloc_foreign std_malloc h q n :
  q <> 0 -> n <> 0 ->
  0 <= heap_total_size h < 2 ^ 63 ->
  initialized h = false \/ outside_arena h q ->
  realloc std_malloc q n h = Ret 0 (log_add (NotFromHeap true q) h).
Proof.
  intros Hq Hn Ht Hout. unfold realloc.
  destruct (Z.eqb_spec q 0) as [?|_]; [contradiction|].
  destruct (Z.eqb_spec n 0) as [?|_]; [contradiction|].
  assert (E : pointer_in_heap q h = Ret false h).
  { destruct Hout as [Hi|Ho].
    - unfold pointer_in_heap. rewrite Hi. cbn [negb]. now rewrite orb_true_r.
    - apply pointer_in_heap_outside; [lia | lia | exact Ho]. }
  eapply bind_run; [exact E|]. reflexivity.
Qed.

(** X10: the calls of [realloc] that do not resize a block.  A null pointer
    makes the call a [malloc].  A size of 0 makes it a [free] that returns
    null: an allocated block is released, a foreign pointer is reported by
    [free].  A non-null pointer outside the arena, with a size other than 0,
    is reported on [stderr] and null is returned; nothing else changes. *)
Theorem realloc_without_resize std_malloc h l1 s l2 :
  Chain h (l1 ++ (s, false) :: l2) -> 0 < s ->
  let p := end_addr (heap_base h) l1 + 32 in
  (forall n, realloc std_malloc 0 n h = malloc std_malloc n h) /\
  (exists h', realloc std_malloc p 0 h = Ret 0 h' /\
              free p h = Ret tt h' /\ chain_list h' = release l1 s l2 /\
              stderr_log h' = stderr_log h) /\
  (forall q, q <> 0 -> outside_arena h q ->
     realloc std_malloc q 0 h = Ret 0 (log_add (NotFromHeap false q) h) /\
     (forall n, n <> 0 ->
        realloc std_malloc q n h = Ret 0 (log_add (NotFromHeap true q) h)) /\
     chain_list (log_add (NotFromHeap true q) h) = chain_list h).
Proof.
  intros Hc Hpos p.
  pose proof Hc as (_ & Hbase & Hw & Ht & _).
  pose proof (Chain_total_min _ _ Hc) as Hmin.
  destruct (Chain_block _ _ _ _ _ Hc) as (_ & Hb0 & _).
  split; [reflexivity|]. split.
  - destruct (free_spec _ _ _ _ Hc Hpos) as (m' & R & Hc' & _). fold p in R.
    exists (set_bytes m' h). split; [|split; [exact R|split]].
    + unfold realloc. destruct (Z.eqb_spec p 0) as [?|_]; [unfold p in *; lia|].
      cbn [Z.eqb]. eapply bind_run; [exact R|]. reflexivity.
    + now apply chain_list_Chain.
    + reflexivity.
  - intros q Hq Hout. split; [|split].
    + unfold realloc. destruct (Z.eqb_spec q 0) as [?|_]; [contradiction|].
      cbn [Z.eqb]. eapply bind_run; [apply free_outside; assumption|]. reflexivity.
    + intros n Hn. apply realloc_foreign; auto. lia.
    + rewrite (chain_list_Chain _ _ (Chain_log_add _ _ _ Hc)).
      symmetry. now apply chain_list_Chain.
Qed.

Lemma realloc_without_resize_witness :
  (forall n, realloc demo_std_malloc 0 n demo_one = malloc demo_std_malloc n demo_one) /\
  (exists h', realloc demo_std_malloc 4128 0 demo_one = Ret 0 h' /\
              free 4128 demo_one = Ret tt h' /\
              chain_list h' = [(992, true)] /\
              stderr_log h' = stderr_log demo_one) /\
  (forall q, q <> 0 -> outside_arena demo_one q ->
     realloc demo_std_malloc q 0 demo_one =
       Ret 0 (log_add (NotFromHeap false q) demo_one) /\
     (forall n, n <> 0 ->
        realloc demo_std_malloc q n demo_one =
          Ret 0 (log_add (NotFromHeap true q) demo_one)) /\
     chain_list (log_add (NotFromHeap true q) demo_one) = chain_list demo_one).
Proof.
  apply (realloc_without_resize demo_std_malloc demo_one [] 32 [(928, true)]).
  - exact demo_one_chain.
  - lia.
Defined.

(** X11: what [realloc] does not check.  [free] refuses a pointer whose
    header would lie before the arena and a block that is already free;
    [realloc] checks neither.  For a pointer into the first 32 bytes of the
    arena it reads the size field of a header in front of the arena buffer.
    For the payload of a free block that holds the rounded size it runs
    [split_block] on it, which hands the block out again, with no
    diagnostic. *)
Theorem realloc_unchecked_pointers std_malloc h l n :
  Chain h l -> n <> 0 ->
  (forall q, heap_base h <= q < heap_base h + 32 ->
     free q h = Ret tt (log_add (InvalidHeader q) h) /\
     realloc std_malloc q n h = Err OutOfBounds) /\
  (forall l1 s l2, l = l1 ++ (s, true) :: l2 -> request_size n <= s ->
     let p := end_addr (heap_base h) l1 + 32 in
     (exists d, free p h = Ret tt (log_add d h)) /\
     exists h', realloc std_malloc p n h = Ret p h' /\
                chain_list h' = l1 ++ carve (request_size n) s ++ l2 /\
                stderr_log h' = stderr_log h).
Proof.
  intros Hc Hn.
  pose proof Hc as (Hi & Hbase & Hw & Ht & _).
  pose proof (Chain_total_min _ _ Hc) as Hmin.
  split.
  - intros q Hq. split; [apply free_header_outside; lia|].
    unfold realloc.
    destruct (Z.eqb_spec q 0) as [?|_]; [lia|].
    destruct (Z.eqb_spec n 0) as [?|_]; [contradiction|].
    assert (E : pointer_in_heap q h = Ret true h).
    { unfold pointer_in_heap. rewrite Hi.
      destruct (Z.eqb_spec q 0) as [?|_]; [lia|]. cbn [negb orb].
      unfold to_ptrdiff. destruct (Z.ltb_spec (heap_total_size h) (2 ^ 63)); [|lia].
      f_equal. apply andb_true_intro. split; [apply Z.leb_le | apply Z.ltb_lt]; lia. }
    eapply bind_run; [exact E|]. cbv beta. cbn [negb].
    unfold bind, get_size, ld, in_arena.
    replace ((heap_base h <=? payload_to_block q) &&
             (payload_to_block q + Z.of_nat 8 <=? heap_base h + heap_total_size h))
      with false; [reflexivity|].
    symmetry. apply andb_false_iff.
    unfold payload_to_block. rewrite hdr_sz_eq.
    destruct (Z.eqb_spec q 0) as [?|_]; [lia|]. unfold sub64, wrap.
    change (Z.of_nat 8) with 8.
    destruct (Z.lt_ge_cases q 32) as [Hlt|Hge].
    + right. apply Z.leb_gt.
      replace ((q - 32) mod wB) with (q - 32 + wB).
      * rewrite wB_eq in *. lia.
      * apply Z.mod_unique with (q := -1); rewrite wB_eq in *; lia.
    + left. apply Z.leb_gt. rewrite Z.mod_small by lia. lia.
  - intros l1 s l2 -> Hfit p.
    split; [apply (free_already_free _ _ _ _ Hc)|].
    destruct (Chain_block _ _ _ _ _ Hc)
      as (Hin & Hb0 & Hb & Hs & Hend & Hend2 & E1 & E2 & _).
    pose proof (request_size_min n) as Hmin'.
    destruct (split_block_free h l1 s l2 (request_size n) Hc) as (m' & R & Hc'); [lia|].
    exists (set_bytes m' h). split; [|split; [now apply chain_list_Chain | reflexivity]].
    unfold realloc. fold p.
    destruct (Z.eqb_spec p 0) as [?|_]; [unfold p in *; lia|].
    destruct (Z.eqb_spec n 0) as [?|_]; [contradiction|].
    eapply bind_run; [apply (pointer_in_heap_block _ _ _ _ _ Hc); lia|].
    cbv beta. cbn [negb]. unfold p. rewrite payload_to_block_eq by lia.
    replace (end_addr (heap_base h) l1 + 32 - 32) with (end_addr (heap_base h) l1) by lia.
    fold (request_size n). mstep. rewrite E1.
    destruct (Z.leb_spec (request_size n) s) as [_|?]; [|lia].
    eapply bind_run; [exact R|]. reflexivity.
Qed.

Lemma realloc_unchecked_pointers_witness :
  (forall q, heap_base demo_one <= q < heap_base demo_one + 32 ->
     free q demo_one = Ret tt (log_add (InvalidHeader q) demo_one) /\
     realloc demo_std_malloc q 100 demo_one = Err OutOfBounds) /\
  (forall l1 s l2, [(32, false); (928, true)] = l1 ++ (s, true) :: l2 ->
     request_size 100 <= s ->
     let p := end_addr (heap_base demo_one) l1 + 32 in
     (exists d, free p demo_one = Ret tt (log_add d demo_one)) /\
     exists h', realloc demo_std_malloc p 100 demo_one = Ret p h' /\
                chain_list h' = l1 ++ carve (request_size 100) s ++ l2 /\
                stderr_log h' = stderr_log demo_one).
Proof.
  apply (realloc_unchecked_pointers demo_std_malloc demo_one [(32, false); (928, true)] 100).
  - exact demo_one_chain.
  - discriminate.
Defined.

(** ** [malloc] before [init_allocator] *)

Lemma align_up_default : align_up DEFAULT_HEAP_SIZE = DEFAULT_HEAP_SIZE.
Proof. reflexivity. Qed.

(** X12: the first [malloc] of a program that never called [init_allocator]
    sets up the arena itself, asking [std::malloc] for [DEFAULT_HEAP_SIZE]
    (16 MiB).  When that fails [malloc] does not return null: the
    [std::bad_alloc] of [init_allocator] leaves it.  Otherwise a request that
    fits is carved from the start of the new arena. *)
Theorem malloc_first_use std_malloc h size :
  initialized h = false -> 0 < size <= DEFAULT_HEAP_SIZE - 32 ->
  let base := std_malloc DEFAULT_HEAP_SIZE in
  (base = 0 -> malloc std_malloc size h = Err BadAlloc) /\
  (0 < base -> base + DEFAULT_HEAP_SIZE < wB ->
   exists h',
     malloc std_malloc size h = Ret (base + 32) h' /\
     heap_base h' = base /\ heap_total_size h' = DEFAULT_HEAP_SIZE /\
     chain_list h' = carve (request_size size) (DEFAULT_HEAP_SIZE - 32) /\
     size <= request_size size < size + 32).
Proof.
  intros Hi Hsz base. assert (Hn : size <> 0) by lia.
  rewrite (malloc_uninitialized std_malloc h size Hi Hn). split.
  - intros Hb. unfold bind, init_allocator. rewrite Hi, align_up_default.
    fold base. rewrite Hb. reflexivity.
  - intros Hb Hw.
    pose proof (init_allocator_run std_malloc h DEFAULT_HEAP_SIZE Hi) as R.
    cbv zeta in R. rewrite align_up_default in R. fold base in R.
    specialize (R Hb Hw ltac:(unfold DEFAULT_HEAP_SIZE; lia)).
    match type of R with _ = Ret tt ?hf => set (h1 := hf) in * end.
    assert (Hc : Chain h1 ([] ++ (DEFAULT_HEAP_SIZE - 32, true) :: [])).
    { unfold h1, Chain. cbn [initialized heap_base heap_total_size head bytes app].
      unfold DEFAULT_HEAP_SIZE in *.
      repeat split; try reflexivity; try lia; try discriminate;
        cbn [seg nxt_of end_addr]; fields_tac. }
    assert (Hreq : size <= request_size size < size + 32 /\
                   request_size size <= DEFAULT_HEAP_SIZE - 32).
    { destruct (align_up_no_wrap size) as (_ & G & Hm).
      { unfold SIZE_MAX, DEFAULT_HEAP_SIZE in *. rewrite wB_eq. lia. }
      rewrite request_size_max. unfold MIN_BLOCK_SIZE, DEFAULT_HEAP_SIZE in *.
      revert Hm. Z.to_euclidean_division_equations. lia. }
    destruct (malloc_some std_malloc h1 [] _ [] size Hc Hn) as (m' & R' & Hc');
      [lia | constructor |].
    rewrite (malloc_initialized std_malloc h1 size eq_refl Hn) in R'.
    exists (set_bytes m' h1). split; [|split; [reflexivity|split; [reflexivity|split]]].
    + eapply bind_run; [exact R|]. exact R'.
    + rewrite (chain_list_Chain _ _ Hc'). cbn [app]. now rewrite app_nil_r.
    + lia.
Qed.

Lemma malloc_first_use_witness :
  (malloc (fun _ => 0) 100 program_start = Err BadAlloc) /\
  exists h',
     malloc demo_std_malloc 100 program_start = Ret (4096 + 32) h' /\
     heap_base h' = 4096 /\ heap_total_size h' = DEFAULT_HEAP_SIZE /\
     chain_list h' = carve (request_size 100) (DEFAULT_HEAP_SIZE - 32) /\
     100 <= request_size 100 < 100 + 32.
Proof.
  split.
  - apply (malloc_first_use (fun _ => 0) program_start 100); [reflexivity | | reflexivity].
    vm_compute. split; [reflexivity | discriminate].
  - apply (malloc_first_use demo_std_malloc program_start 100).
    + reflexivity.
    + vm_compute. split; [reflexivity | discriminate].
    + reflexivity.
    + reflexivity.
Defined.

(** ** Which bytes the operations write *)

Lemma hdr_byte_app a l1 l2 x :
  hdr_byte a (l1 ++ l2) x <-> hdr_byte a l1 x \/ hdr_byte (end_addr a l1) l2 x.
Proof.
  revert a; induction l1 as [|[s f] r IH]; intros a; cbn [app hdr_byte end_addr].
  - tauto.
  - rewrite IH. tauto.
Qed.

Lemma hdr_byte_range a l x :
  nonneg_sizes l -> hdr_byte a l x -> a <= x < end_addr a l.
Proof.
  revert a; induction l as [|[s f] r IH]; intros a Hn H; [contradiction|].
  inversion Hn as [|? ? Hs Hr]; subst. cbn [fst] in Hs.
  cbn [hdr_byte end_addr] in *. pose proof (end_addr_le (a + 32 + s) r Hr).
  destruct H as [H|H]; [lia|]. specialize (IH _ Hr H). lia.
Qed.

Lemma hdr_byte_layout p a l nx x :
  hdr_byte a l x <->
  exists b, In b (layout p a l nx) /\ bi_hdr b <= x < bi_hdr b + 32.
Proof.
  revert p a; induction l as [|[s f] r IH]; intros p a; cbn [hdr_byte layout].
  - split; [contradiction | intros (b & [] & _)].
  - rewrite (IH a (a + 32 + s)). split.
    + intros [H|(b & Hb & H)].
      * eexists. split; [left; reflexivity|]. exact H.
      * exists b. split; [right; exact Hb | exact H].
    + intros (b & [<-|Hb] & H); [left; exact H | right; eauto].
Qed.

Lemma in_header_Chain h l x :
  Chain h l -> in_header h x <-> hdr_byte (heap_base h) l x.
Proof.
  intros Hc. unfold in_header. rewrite (chain_blocks_Chain _ _ Hc).
  symmetry. apply hdr_byte_layout.
Qed.

(** A payload byte of a block is not a header byte of the chain. *)
Lemma payload_not_hdr a l1 s f l2 x :
  nonneg_sizes (l1 ++ (s, f) :: l2) ->
  end_addr a l1 + 32 <= x < end_addr a l1 + 32 + s ->
  ~ hdr_byte a (l1 ++ (s, f) :: l2) x.
Proof.
  intros Hn Hx H. apply nonneg_app in Hn. destruct Hn as [Hn1 Hn2].
  inversion Hn2 as [|? ? _ Hn3]; subst.
  apply hdr_byte_app in H. cbn [hdr_byte] in H. destruct H as [H|[H|H]].
  - apply (hdr_byte_range _ _ _ Hn1) in H. lia.
  - lia.
  - apply (hdr_byte_range _ _ _ Hn3) in H. lia.
Qed.

Lemma in_payload_Chain h l x :
  Chain h l -> in_payload h x ->
  exists l1 s f l2, l = l1 ++ (s, f) :: l2 /\
    end_addr (heap_base h) l1 + 32 <= x < end_addr (heap_base h) l1 + 32 + s.
Proof.
  intros Hc (b & Hin & Hx). rewrite (chain_blocks_Chain _ _ Hc) in Hin.
  destruct (In_layout _ _ _ _ _ Hin) as (l1 & s & f & l2 & -> & _ & Hp & Hs & _).
  exists l1, s, f, l2. split; [reflexivity | lia].
Qed.

Lemma in_allocated_payload_Chain h l x :
  Chain h l -> in_allocated_payload h x ->
  exists l1 s l2, l = l1 ++ (s, false) :: l2 /\
    end_addr (heap_base h) l1 + 32 <= x < end_addr (heap_base h) l1 + 32 + s.
Proof.
  intros Hc (b & Hin & Hf & Hx). rewrite (chain_blocks_Chain _ _ Hc) in Hin.
  destruct (In_layout _ _ _ _ _ Hin) as (l1 & s & f & l2 & -> & _ & Hp & Hs & Hf').
  exists l1, s, l2. split; [congruence | lia].
Qed.

(** Two blocks of one chain do not overlap. *)
Lemma blocks_apart a (l1 l2 k1 k2 : list block) x y :
  nonneg_sizes (l1 ++ x :: l2) ->
  l1 ++ x :: l2 = k1 ++ y :: k2 -> x <> y ->
  end_addr a l1 + 32 + fst x <= end_addr a k1 \/
  end_addr a k1 + 32 + fst y <= end_addr a l1.
Proof.
  intros Hn Heq Hxy.
  destruct (two_blocks _ _ _ _ _ _ Heq Hxy) as [(k' & -> & ->)|(k' & -> & ->)].
  - left. rewrite end_addr_app. destruct x as [sx fx]. cbn [end_addr fst].
    apply end_addr_le. apply nonneg_app in Hn. destruct Hn as [_ Hn].
    inversion Hn as [|? ? _ Hn']; subst. apply nonneg_app in Hn'. tauto.
  - right. rewrite end_addr_app. destruct y as [sy fy]. cbn [end_addr fst].
    apply end_addr_le. rewrite <- app_assoc in Hn. apply nonneg_app in Hn.
    destruct Hn as [_ Hn]. inversion Hn as [|? ? _ Hn']; subst.
    apply nonneg_app in Hn'. tauto.
Qed.

Lemma Chain_nonneg h l : Chain h l -> nonneg_sizes l.
Proof. intros (_ & _ & _ & _ & _ & _ & Hseg & _). eapply seg_nonneg; eauto. Qed.

Lemma Ret_set_bytes_inj {A} (a a' : A) m m' h :
  Ret a (set_bytes m h) = Ret a' (set_bytes m' h) -> m = m'.
Proof.
  intros E.
  assert (G : bytes (set_bytes m h) = bytes (set_bytes m' h)) by congruence.
  exact G.
Qed.

(** [split_block] on a free block writes into that block's header, into the
    header of the remainder it splits off and into the [prev] field of the
    following header. *)
Lemma split_block_free_writes h l1 s l2 asize :
  Chain h (l1 ++ (s, true) :: l2) ->
  0 <= asize <= s ->
  let b := end_addr (heap_base h) l1 in
  exists m',
    split_block b asize h = Ret tt (set_bytes m' h) /\
    (forall x, ~ (b <= x < b + 32) ->
               (asize + 32 + 32 <= s ->
                ~ (b + 32 + asize <= x < b + 32 + asize + 32)) ->
               (l2 <> [] -> ~ (b + 32 + s + 24 <= x < b + 32 + s + 32)) ->
               m' x = bytes h x).
Proof.
  intros Hc Ha b0.
  destruct (Chain_block _ _ _ _ _ Hc)
    as (Hin & Hb0 & Hb & Hs & Hend & Hend2 & E1 & E2 & E3 & E4 & S1 & S2 & N1 & N2).
  pose proof Hc as (Hi & Hbase & Hw & Ht & Hhd & Hne & Hseg & He).
  subst b0. set (b := end_addr (heap_base h) l1) in *.
  unfold split_block. rewrite hdr_sz_eq. unfold MIN_BLOCK_SIZE.
  destruct (Z.leb_spec (asize + 32 + 32) s) as [Hbig|Hsmall].
  - assert (Hnewb : add64 (add64 b 32) asize = b + 32 + asize).
    { w64. reflexivity. }
    assert (Hrem : sub64 (sub64 s asize) 32 = s - asize - 32).
    { w64. reflexivity. }
    assert (Hcond : (add64 (add64 asize 32) 32 <=? s) = true).
    { w64. apply Z.leb_le. lia. }
    assert (Hin' : hdr_in h (b + 32 + asize)) by (unfold hdr_in in *; lia).
    rewrite Hnewb.
    destruct l2 as [|[s2 f2] r2].
    + eexists; split.
      * mstep. rewrite E2. cbn [negb]. mstep. rewrite E1, Hcond.
        eapply bind_run.
        { mstep. rewrite E1, Hrem. do 4 mstep. rd_simp. rewrite E4. cbn [nxt_of].
          mstep. mstep. rd_simp. rewrite E4. cbn [nxt_of Z.eqb negb when].
          mstep. mstep. mlast. }
        cbv beta. mlast.
      * intros x H1 H2 H3. repeat (rewrite store_outside by lia). reflexivity.
    + assert (Hin2 : hdr_in h (b + 32 + s)).
      { destruct (seg_hdr_in h _ _ _ _ _ _ S2) as (G & _); [lia| lia | exact G]. }
      eexists; split.
      * mstep. rewrite E2. cbn [negb]. mstep. rewrite E1, Hcond.
        eapply bind_run.
        { mstep. rewrite E1, Hrem. do 4 mstep. rd_simp. rewrite E4. cbn [nxt_of].
          mstep. mstep. rd_simp. rewrite E4. cbn [nxt_of].
          destruct (Z.eqb_spec (b + 32 + s) 0) as [?|_]; [lia|]. cbn [negb when].
          eapply bind_run.
          { mstep. rd_simp. rewrite E4. cbn [nxt_of]. mlast. }
          cbv beta. mstep. mlast. }
        cbv beta. mlast.
      * intros x H1 H2 H3. specialize (H3 ltac:(discriminate)).
        repeat (rewrite store_outside by lia). reflexivity.
  - assert (Hcond : (add64 (add64 asize 32) 32 <=? s) = false).
    { w64. apply Z.leb_gt. lia. }
    eexists; split.
    + mstep. rewrite E2. cbn [negb]. mstep. rewrite E1, Hcond. mstep. mlast.
    + intros x H1 H2 H3. repeat (rewrite store_outside by lia). reflexivity.
Qed.

(** [coalesce] writes header bytes only. *)
Lemma coalesce_next_writes h l1 s l2 :
  Chain h (l1 ++ (s, true) :: l2) ->
  let b := end_addr (heap_base h) l1 in
  exists m',
    coalesce_next b h = Ret tt (set_bytes m' h) /\
    (forall x, ~ (b <= x < b + 32) -> ~ hdr_byte (b + 32 + s) l2 x ->
               m' x = bytes h x).
Proof.
  intros Hc b0.
  destruct (Chain_block _ _ _ _ _ Hc)
    as (Hin & Hb0 & Hb & Hs & Hend & Hend2 & E1 & E2 & E3 & E4 & S1 & S2 & N1 & N2).
  pose proof Hc as (Hi & Hbase & Hw & Ht & Hhd & Hne & Hseg & He).
  subst b0. set (b := end_addr (heap_base h) l1) in *.
  unfold coalesce_next. rewrite hdr_sz_eq.
  destruct l2 as [|[s2 f2] r2].
  - exists (bytes h). rewrite set_bytes_id. split; [|reflexivity].
    mstep. rewrite E4. cbn [nxt_of].
    eapply bind_run; [apply is_free_block_null|]. reflexivity.
  - assert (Hin2 : hdr_in h (b + 32 + s)).
    { destruct (seg_hdr_in h _ _ _ _ _ _ S2) as (G & _); [lia| lia | exact G]. }
    pose proof S2 as (F1 & F2 & F3 & F4 & S3).
    destruct f2.
    + assert (Hsz : 0 <= s2) by (rewrite <- F1; apply rd_size_range).
      assert (Hend3 : b + 32 + s + 32 + s2 <= heap_base h + heap_total_size h).
      { pose proof (end_addr_ge (b + 32 + s + 32 + s2) r2) as G.
        cbn [end_addr] in Hend2. inversion N2; subst. specialize (G H2). lia. }
      destruct r2 as [|[s3 f3] r3].
      * eexists; split.
        -- mstep. rewrite E4. cbn [nxt_of].
           eapply bind_run; [apply is_free_block_run; [lia | hdr_tac]|].
           cbv beta. rewrite F2. cbn [when].
           mstep. rewrite E4. cbn [nxt_of]. mstep. rewrite E1. mstep. rewrite F1.
           mstep. mstep. rd_simp. rewrite F4. cbn [nxt_of].
           mstep. mstep. rd_simp. rewrite F4. cbn [nxt_of Z.eqb negb when].
           reflexivity.
        -- intros x H1 H2. cbn [hdr_byte] in H2.
           repeat (rewrite store_outside by lia). reflexivity.
      * assert (Hin3 : hdr_in h (b + 32 + s + 32 + s2)).
        { destruct (seg_hdr_in h _ _ _ _ _ _ S3) as (G & _);
            [lia | cbn [end_addr] in *; lia | exact G]. }
        eexists; split.
        -- mstep. rewrite E4. cbn [nxt_of].
           eapply bind_run; [apply is_free_block_run; [lia | hdr_tac]|].
           cbv beta. rewrite F2. cbn [when].
           mstep. rewrite E4. cbn [nxt_of]. mstep. rewrite E1. mstep. rewrite F1.
           mstep. mstep. rd_simp. rewrite F4. cbn [nxt_of].
           mstep. mstep. rd_simp. rewrite F4. cbn [nxt_of].
           destruct (Z.eqb_spec (b + 32 + s + 32 + s2) 0) as [?|_]; [lia|].
           cbn [negb when]. mstep. rd_simp. rewrite F4. cbn [nxt_of]. mlast.
        -- intros x H1 H2. cbn [hdr_byte] in H2.
           repeat (rewrite store_outside by lia). reflexivity.
    + exists (bytes h). rewrite set_bytes_id. split; [|reflexivity].
      mstep. rewrite E4. cbn [nxt_of].
      eapply bind_run; [apply is_free_block_run; [lia | hdr_tac]|].
      cbv beta. rewrite F2. reflexivity.
Qed.

Lemma coalesce_prev_writes h l1 s l2 :
  Chain h (l1 ++ (s, true) :: l2) ->
  let b := end_addr (heap_base h) l1 in
  exists m' r,
    coalesce_prev b h = Ret r (set_bytes m' h) /\
    (forall x, ~ hdr_byte (heap_base h) l1 x -> ~ hdr_byte (b + 32 + s) l2 x ->
               m' x = bytes h x).
Proof.
  intros Hc b0.
  destruct (Chain_block _ _ _ _ _ Hc)
    as (Hin & Hb0 & Hb & Hs & Hend & Hend2 & E1 & E2 & E3 & E4 & S1 & S2 & N1 & N2).
  pose proof Hc as (_ & Hbase & Hw & Ht & _).
  subst b0. unfold coalesce_prev. rewrite hdr_sz_eq.
  destruct l1 as [|x0 l0] using rev_ind.
  - exists (bytes h), (heap_base h). rewrite set_bytes_id. split; [|reflexivity].
    cbn [end_addr last_hdr] in *. mstep. rewrite E3.
    eapply bind_run; [apply is_free_block_null|]. reflexivity.
  - clear IHl0. destruct x0 as [sp fp].
    rewrite <- app_assoc in Hc. cbn [app] in Hc.
    destruct (Chain_block _ _ _ _ _ Hc)
      as (Pin & Pb0 & Pb & Ps & Pend & Pend2 & P1 & P2 & P3 & P4 & T1 & T2 & M1 & M2).
    rewrite last_hdr_app, end_addr_app in *. cbn [last_hdr end_addr nxt_of] in *.
    set (pv := end_addr (heap_base h) l0) in *.
    destruct fp.
    + destruct l2 as [|[s2 f2] r2].
      * eexists; eexists; split.
        -- mstep. rewrite E3.
           eapply bind_run; [apply is_free_block_run; [lia | hdr_tac]|].
           cbv beta. rewrite P2.
           mstep. rewrite E3. mstep. rewrite P1. mstep. rewrite E1.
           mstep. mstep. rd_simp. rewrite E4. cbn [nxt_of].
           mstep. mstep. rd_simp. rewrite E4. cbn [nxt_of Z.eqb negb when].
           mstep. reflexivity.
        -- intros x H1 H2. rewrite hdr_byte_app in H1. cbn [hdr_byte] in H1.
           fold pv in H1.
           repeat (rewrite store_outside by lia). reflexivity.
      * assert (Hin2 : hdr_in h (pv + 32 + sp + 32 + s)).
        { destruct (seg_hdr_in h _ _ _ _ _ _ S2) as (G & _);
            [lia | cbn [end_addr] in *; lia | exact G]. }
        eexists; eexists; split.
        -- mstep. rewrite E3.
           eapply bind_run; [apply is_free_block_run; [lia | hdr_tac]|].
           cbv beta. rewrite P2.
           mstep. rewrite E3. mstep. rewrite P1. mstep. rewrite E1.
           mstep. mstep. rd_simp. rewrite E4. cbn [nxt_of].
           mstep. mstep. rd_simp. rewrite E4. cbn [nxt_of].
           destruct (Z.eqb_spec (pv + 32 + sp + 32 + s) 0) as [?|_]; [lia|].
           cbn [negb when].
           eapply bind_run.
           { mstep. rd_simp. rewrite E4. cbn [nxt_of]. mlast. }
           reflexivity.
        -- intros x H1 H2. rewrite hdr_byte_app in H1. cbn [hdr_byte] in H1, H2.
           fold pv in H1.
           repeat (rewrite store_outside by lia). reflexivity.
    + exists (bytes h), (pv + 32 + sp). rewrite set_bytes_id.
      split; [|reflexivity].
      mstep. rewrite E3.
      eapply bind_run; [apply is_free_block_run; [lia | hdr_tac]|].
      cbv beta. rewrite P2. reflexivity.
Qed.

Lemma hdr_byte_absorb a s l2 x :
  hdr_byte (a + 32 + fst (absorb_next s l2)) (snd (absorb_next s l2)) x ->
  hdr_byte (a + 32 + s) l2 x.
Proof.
  destruct l2 as [|[s2 [|]] r]; cbn [absorb_next fst snd hdr_byte]; auto.
  intros H. right. replace (a + 32 + s + 32 + s2) with (a + 32 + (s + 32 + s2)) by lia.
  exact H.
Qed.

(** Releasing an allocated block writes header bytes of the chain only. *)
Lemma free_writes h l1 s l2 :
  Chain h (l1 ++ (s, false) :: l2) -> 0 < s ->
  exists m',
    free (end_addr (heap_base h) l1 + 32) h = Ret tt (set_bytes m' h) /\
    Chain (set_bytes m' h) (release l1 s l2) /\
    (forall x, ~ hdr_byte (heap_base h) (l1 ++ (s, false) :: l2) x ->
               m' x = bytes h x).
Proof.
  intros Hc Hpos.
  destruct (free_spec _ _ _ _ Hc Hpos) as (m' & R & Hc' & _).
  exists m'. split; [exact R|]. split; [exact Hc'|].
  destruct (Chain_block _ _ _ _ _ Hc)
    as (Hin & Hb0 & Hb & Hs & Hend & Hend2 & E1 & E2 & E3 & E4 & S1 & S2 & N1 & N2).
  pose proof Hc as (_ & Hbase & Hw & Ht & _).
  set (b := end_addr (heap_base h) l1) in *.
  pose proof (Chain_set_free h l1 s false l2 true Hc) as Hc1. fold b in Hc1.
  destruct (coalesce_next_writes _ _ _ _ Hc1) as (m1 & R1 & F1).
  destruct (coalesce_next_spec _ _ _ _ Hc1) as (m1' & R1' & Hc2).
  assert (Em : m1' = m1).
  { rewrite R1' in R1. exact (Ret_set_bytes_inj _ _ _ _ _ R1). }
  subst m1'.
  destruct (coalesce_prev_writes _ _ _ _ Hc2) as (m2 & r & R2 & F2).
  cbn [heap_base set_bytes bytes] in R1, R2, F1, F2. fold b in R1, R2, F1, F2.
  assert (Hrun : free (b + 32) h = Ret tt (set_bytes m2 h)).
  { unfold free. destruct (Z.eqb_spec (b + 32) 0) as [?|_]; [lia|].
    eapply bind_run; [reflexivity|]. cbv beta.
    destruct (Z.ltb_spec (b + 32) (heap_base h)) as [?|_]; [lia|].
    destruct (Z.leb_spec (heap_base h + heap_total_size h) (b + 32)) as [?|_]; [lia|].
    cbn [orb]. rewrite payload_to_block_eq by lia.
    replace (b + 32 - 32) with b by lia.
    eapply bind_run; [reflexivity|]. cbv beta.
    destruct (Z.ltb_spec b (heap_base h)) as [?|_]; [lia|].
    destruct (Z.leb_spec (heap_base h + heap_total_size h) b) as [?|_]; [lia|].
    cbn [orb]. mstep. rewrite E2. mstep.
    eapply bind_run; [|reflexivity].
    rewrite coalesce_eq. eapply bind_run; [exact R1|]. cbv beta. exact R2. }
  assert (Em : m' = m2).
  { rewrite Hrun in R. symmetry. exact (Ret_set_bytes_inj _ _ _ _ _ R). }
  subst m'. intros x Hx. rewrite hdr_byte_app in Hx. cbn [hdr_byte] in Hx. fold b in Hx.
  rewrite F2.
  - rewrite F1.
    + apply store_outside. lia.
    + lia.
    + tauto.
  - tauto.
  - intros G. apply hdr_byte_absorb in G. tauto.
Qed.

(** Allocating from a free block writes into its header, into the header of
    the remainder and into the [prev] field of the header that follows. *)
Lemma malloc_writes std_malloc h l1 s l2 size :
  Chain h (l1 ++ (s, true) :: l2) -> size <> 0 ->
  request_size size <= s ->
  Forall (fun x => fits (request_size size) x = false) l1 ->
  let b := end_addr (heap_base h) l1 in
  exists m',
    malloc std_malloc size h = Ret (b + 32) (set_bytes m' h) /\
    Chain (set_bytes m' h) (l1 ++ carve (request_size size) s ++ l2) /\
    (forall x, ~ (b <= x < b + 32) ->
               (request_size size + 32 + 32 <= s ->
                ~ (b + 32 + request_size size <= x
                   < b + 32 + request_size size + 32)) ->
               (l2 <> [] -> ~ (b + 32 + s + 24 <= x < b + 32 + s + 32)) ->
               m' x = bytes h x).
Proof.
  intros Hc Hn Hfit Hno b.
  destruct (malloc_some std_malloc _ _ _ _ _ Hc Hn Hfit Hno) as (m' & R & Hc').
  exists m'. split; [exact R|]. split; [exact Hc'|].
  pose proof (request_size_min size) as Hmin.
  destruct (split_block_free_writes h l1 s l2 (request_size size) Hc) as (m1 & R1 & F1);
    [lia|].
  fold b in R1, F1.
  destruct (Chain_block _ _ _ _ _ Hc) as (Hin & Hb0 & Hb & Hs & Hend & _).
  assert (Hrun : malloc std_malloc size h = Ret (b + 32) (set_bytes m1 h)).
  { unfold malloc.
    destruct (Z.eqb_spec size 0) as [?|_]; [contradiction|].
    eapply bind_run; [reflexivity|]. cbv beta.
    pose proof Hc as (Hi & _ & Hw & _). rewrite Hi. cbn [negb when].
    eapply bind_run; [apply ret_run|]. cbv beta.
    eapply bind_run; [apply (find_fit_spec h _ _ Hc)|].
    cbv beta. fold (request_size size).
    rewrite first_fit_some; auto.
    2:{ unfold fits. cbn [fst snd andb]. apply Z.leb_le. assumption. }
    fold b. destruct (Z.eqb_spec b 0) as [?|_]; [lia|].
    eapply bind_run; [exact R1|]. cbv beta.
    rewrite block_to_payload_eq; [reflexivity | lia | unfold b; lia]. }
  assert (Em : m' = m1).
  { fold b in R. rewrite Hrun in R. symmetry. exact (Ret_set_bytes_inj _ _ _ _ _ R). }
  subst m'. exact F1.
Qed.

(** X13: [malloc] on an initialized heap.  The call returns.  It leaves every
    payload byte of every allocated block, every byte outside the arena and
    the diagnostics as they were.  A non-null result is the payload of an
    allocated block of the new chain that holds the rounded size, lies inside
    the arena above its header, shares no byte with a block that was
    allocated before the call, and whose bytes are the ones that were there
    before: [malloc] does not clear the memory it hands out. *)
Theorem malloc_keeps_live_data std_malloc h size :
  well_formed h ->
  exists p h',
    malloc std_malloc size h = Ret p h' /\
    (forall x, in_allocated_payload h x -> bytes h' x = bytes h x) /\
    (forall x, outside_arena h x -> bytes h' x = bytes h x) /\
    stderr_log h' = stderr_log h /\
    (p <> 0 ->
     exists b, In b (chain_blocks h') /\ bi_payload b = p /\ bi_free b = false /\
               request_size size <= bi_size b /\
               heap_base h + 32 <= p /\
               p + bi_size b <= heap_base h + heap_total_size h /\
               (forall x, p <= x < p + bi_size b ->
                          ~ in_allocated_payload h x /\ bytes h' x = bytes h x)).
Proof.
  intros (l & Hc).
  destruct (Z.eq_dec size 0) as [->|Hn].
  { exists 0, h. split; [apply malloc_zero|]. repeat split; auto. contradiction. }
  destruct (fits_cases (request_size size) l) as [Hno|(l1 & s & l2 & -> & Hfit & Hno)].
  { exists 0, h. split; [exact (malloc_none std_malloc _ _ _ Hc Hn Hno)|].
    repeat split; auto. contradiction. }
  destruct (malloc_writes std_malloc _ _ _ _ _ Hc Hn Hfit Hno) as (m' & R & Hc' & F).
  destruct (Chain_block _ _ _ _ _ Hc)
    as (Hin & Hb0 & Hb & Hs & Hend & Hend2 & _ & _ & _ & _ & _ & _ & _ & N2).
  pose proof (Chain_nonneg _ _ Hc) as Hnn.
  set (b := end_addr (heap_base h) l1) in *.
  pose proof (request_size_min size) as Hmin.
  assert (Hnext : l2 <> [] -> b + 32 + s + 32 <= heap_base h + heap_total_size h).
  { intros G. pose proof (end_addr_ge (b + 32 + s) l2 N2) as G'.
    destruct l2; [contradiction|]. cbn [length] in G'. lia. }
  assert (Hlive : forall x, in_allocated_payload h x -> x < b \/ b + 32 + s + 32 <= x).
  { intros x Hx.
    destruct (in_allocated_payload_Chain _ _ _ Hc Hx) as (k1 & s' & k2 & Heq & Hr).
    destruct (blocks_apart (heap_base h) _ _ _ _ _ _ Hnn Heq) as [G|G];
      [discriminate | |]; cbn [fst] in G; fold b in G; lia. }
  exists (b + 32), (set_bytes m' h). split; [exact R|].
  split; [|split; [|split; [reflexivity|]]].
  - intros x Hx. apply Hlive in Hx. apply F; first [lia | intros _; lia].
  - intros x Hx. unfold hdr_in in Hin.
    apply F; first [destruct Hx; lia | intros G; specialize (Hnext G); destruct Hx; lia].
  - intros _.
    destruct (carve_shape (request_size size) s Hfit) as (u & tl & Hcv & Hu & _).
    pose proof Hc' as Hc''. rewrite Hcv in Hc''. cbn [app] in Hc''.
    destruct (layout_In 0 (heap_base h) l1 u false (tl ++ l2) 0)
      as (bi & Hbi & _ & Hp & Hsz & Hf).
    exists bi. rewrite (chain_blocks_Chain _ _ Hc''). cbn [heap_base set_bytes].
    fold b in Hp. rewrite Hsz. repeat split; auto; try lia.
    + intros Hx'. apply Hlive in Hx'. lia.
    + apply F; [lia | | first [lia | intros _; lia]].
      intros Hbig. unfold carve in Hcv.
      destruct (Z.leb_spec (request_size size + 32 + 32) s); [|lia].
      injection Hcv as <- _. lia.
Qed.

Lemma malloc_keeps_live_data_witness :
  exists p h',
    malloc demo_std_malloc 50 demo_one = Ret p h' /\
    (forall x, in_allocated_payload demo_one x -> bytes h' x = bytes demo_one x) /\
    (forall x, outside_arena demo_one x -> bytes h' x = bytes demo_one x) /\
    stderr_log h' = stderr_log demo_one /\
    (p <> 0 ->
     exists b, In b (chain_blocks h') /\ bi_payload b = p /\ bi_free b = false /\
               request_size 50 <= bi_size b /\
               heap_base demo_one + 32 <= p /\
               p + bi_size b <= heap_base demo_one + heap_total_size demo_one /\
               (forall x, p <= x < p + bi_size b ->
                          ~ in_allocated_payload demo_one x /\
                          bytes h' x = bytes demo_one x)).
Proof.
  apply (malloc_keeps_live_data demo_std_malloc demo_one 50).
  eexists. exact demo_one_chain.
Defined.

(** X14: [free] writes block headers only.  In a reachable state, for null, a
    pointer outside the arena, a pointer into the first 32 bytes of the arena
    or the payload address of a block of the chain, the call returns and
    every byte that is not a header byte of the chain is unchanged; so no
    payload byte of any block, the released one included, is written. *)
Theorem free_writes_headers_only std_malloc h p :
  std_malloc_ok std_malloc ->
  reachable std_malloc h -> initialized h = true ->
  free_arg h p ->
  exists h',
    free p h = Ret tt h' /\
    (forall x, ~ in_header h x -> bytes h' x = bytes h x) /\
    (forall x, in_payload h x -> bytes h' x = bytes h x).
Proof.
  intros Hok Hr Hi (Hp & Harg).
  destruct (reachable_Inv _ Hok _ Hr) as [(Hi' & _)|(l & Hc & Hg)]; [congruence|].
  pose proof Hc as (_ & Hbase & Hw & Ht & _).
  pose proof (Chain_nonneg _ _ Hc) as Hnn.
  assert (Hpay : forall h', (forall x, ~ in_header h x -> bytes h' x = bytes h x) ->
                             forall x, in_payload h x -> bytes h' x = bytes h x).
  { intros h' F x Hx. apply F. rewrite (in_header_Chain _ _ _ Hc).
    destruct (in_payload_Chain _ _ _ Hc Hx) as (k1 & s' & f' & k2 & -> & Hx').
    now apply payload_not_hdr. }
  assert (Hsame : forall d, exists h', Ret tt (log_add d h) = Ret tt h' /\
             (forall x, ~ in_header h x -> bytes h' x = bytes h x) /\
             (forall x, in_payload h x -> bytes h' x = bytes h x)).
  { intros d. exists (log_add d h). repeat split; auto. }
  destruct (Z.eq_dec p 0) as [->|Hnz].
  { exists h. rewrite free_null. repeat split; auto. }
  destruct (Z.lt_ge_cases p (heap_base h)) as [Hlo|Hlo].
  { rewrite free_outside by (auto; left; lia). apply Hsame. }
  destruct (Z.le_gt_cases (heap_base h + heap_total_size h) p) as [Hhi|Hhi].
  { rewrite free_outside by (auto; right; lia). apply Hsame. }
  destruct (Z.lt_ge_cases p (heap_base h + 32)) as [Hhd|Hhd].
  { rewrite free_header_outside by lia. apply Hsame. }
  destruct Harg as [?|[[?|?]|[?|(b & Hin & Hpy)]]]; try lia.
  rewrite (chain_blocks_Chain _ _ Hc) in Hin.
  destruct (In_layout _ _ _ _ _ Hin) as (l1 & s & f & l2 & -> & _ & Hp' & _ & _).
  rewrite Hpy in Hp'. clear Hpy Hin. subst p. destruct f.
  - destruct (free_already_free _ _ _ _ Hc) as (d & R). rewrite R. apply Hsame.
  - destruct (free_writes _ _ _ _ Hc (good_alloc_pos _ _ _ Hg)) as (m' & R & _ & F).
    exists (set_bytes m' h). split; [exact R|].
    assert (F' : forall x, ~ in_header h x -> bytes (set_bytes m' h) x = bytes h x).
    { intros x Hx. apply F. now rewrite <- (in_header_Chain _ _ _ Hc). }
    split; [exact F' | now apply Hpay].
Qed.

Lemma free_writes_headers_only_witness :
  exists h',
    free 4128 demo_one = Ret tt h' /\
    (forall x, ~ in_header demo_one x -> bytes h' x = bytes demo_one x) /\
    (forall x, in_payload demo_one x -> bytes h' x = bytes demo_one x).
Proof.
  apply (free_writes_headers_only demo_std_malloc demo_one 4128).
  - exact demo_std_malloc_ok.
  - exact demo_one_reachable.
  - reflexivity.
  - split; [rewrite wB_eq; lia|]. right. right. right.
    exists (mkInfo 4096 4128 32 false 0 4160). split; [|reflexivity].
    vm_compute. left. reflexivity.
Defined.

(** ** The relocate path of [realloc] *)

Lemma hdr_byte_carve a asize t k2 x :
  hdr_byte a (carve asize t ++ k2) x ->
  a <= x < a + 32 \/ a + 32 + asize <= x < a + 32 + t \/ hdr_byte (a + 32 + t) k2 x.
Proof.
  unfold carve. destruct (Z.leb_spec (asize + 32 + 32) t) as [Hbig|Hsmall];
    cbn [app hdr_byte].
  - replace (a + 32 + asize + 32 + (t - asize - 32)) with (a + 32 + t) by lia.
    intros [G|[G|G]]; [left; exact G | right; left; lia | right; right; exact G].
  - tauto.
Qed.

(** The old block of a relocation is a block of the chain after the
    allocation of the new one. *)
Lemma relocate_blocks h (l1 l2 k1 k2 : list block) s t asize :
  nonneg_sizes (l1 ++ (s, false) :: l2) ->
  l1 ++ (s, false) :: l2 = k1 ++ (t, true) :: k2 ->
  asize <= t ->
  let b := end_addr (heap_base h) l1 in
  let nb := end_addr (heap_base h) k1 in
  (b + 32 + s <= nb \/ nb + 32 + t <= b) /\
  exists a1 a2,
    a1 ++ (s, false) :: a2 = k1 ++ carve asize t ++ k2 /\
    end_addr (heap_base h) a1 = b.
Proof.
  intros Hnn Heq Hle b nb.
  destruct (carve_shape asize t Hle) as (u & tl & Hcv & Hu & Hce).
  split.
  - destruct (blocks_apart (heap_base h) _ _ _ _ _ _ Hnn Heq) as [G|G];
      [discriminate | |]; cbn [fst] in G; fold b nb in G; lia.
  - destruct (two_blocks _ _ _ _ _ _ Heq) as [(k' & Hk1 & Hl2)|(k' & Hl1 & Hk2)].
    + discriminate.
    + exists l1, (k' ++ carve asize t ++ k2). split; [|reflexivity].
      rewrite Hk1, <- app_assoc. reflexivity.
    + exists (k1 ++ carve asize t ++ k'), l2. split.
      * rewrite Hk2, <- !app_assoc. reflexivity.
      * unfold b. rewrite Hl1, !end_addr_app. fold nb. cbn [end_addr].
        rewrite (end_addr_shift nb (carve asize t)), Hce. f_equal. lia.
Qed.

(** The relocate path when a free block holds the rounded request: the old
    payload is copied to the new block and live payloads are kept. *)
Lemma relocate_copies std_malloc h l1 s l2 k1 t k2 new_size :
  Chain h (l1 ++ (s, false) :: l2) ->
  l1 ++ (s, false) :: l2 = k1 ++ (t, true) :: k2 ->
  0 < s -> new_size <> 0 ->
  s < request_size new_size -> request_size new_size <= t ->
  Forall (fun x => fits (request_size new_size) x = false) k1 ->
  let p := end_addr (heap_base h) l1 + 32 in
  let q := end_addr (heap_base h) k1 + 32 in
  exists m' a1 a2,
    relocate std_malloc p new_size h = Ret q (set_bytes m' h) /\
    a1 ++ (s, false) :: a2 = k1 ++ carve (request_size new_size) t ++ k2 /\
    Chain (set_bytes m' h) (release a1 s a2) /\
    (forall i, 0 <= i < s -> m' (q + i) = bytes h (p + i)) /\
    (forall x, in_allocated_payload h x -> m' x = bytes h x).
Proof.
  intros Hc Heq Hpos Hn Hlt Hle Hno p q.
  set (asize := request_size new_size) in *.
  pose proof Hc as (_ & Hbase & Hw & Ht & _).
  pose proof (Chain_nonneg _ _ Hc) as Hnn.
  pose proof Hc as Hck. rewrite Heq in Hck.
  destruct (Chain_block _ _ _ _ _ Hc) as (Hin & Hb0 & Hb & Hs & Hend & _).
  destruct (Chain_block _ _ _ _ _ Hck)
    as (Kin & Kb0 & Kb & Ks & Kend & Kend2 & _ & _ & _ & _ & _ & _ & _ & KN2).
  destruct (relocate_blocks h _ _ _ _ _ _ asize Hnn Heq Hle)
    as (Hdis & a1 & a2 & Ha & Hba).
  set (b := end_addr (heap_base h) l1) in *.
  set (nb := end_addr (heap_base h) k1) in *.
  assert (Hnext : k2 <> [] -> nb + 32 + t + 32 <= heap_base h + heap_total_size h).
  { intros G. pose proof (end_addr_ge (nb + 32 + t) k2 KN2) as G'.
    destruct k2; [contradiction|]. cbn [length] in G'. lia. }
  destruct (malloc_writes std_malloc _ _ _ _ _ Hck Hn Hle Hno) as (m1 & R1 & Hc1 & F1).
  fold asize nb in R1, Hc1, F1.
  destruct (carve_shape asize t Hle) as (u & tl & Hcv & Hu & _).
  assert (Hc1u : Chain (set_bytes m1 h) (k1 ++ (u, false) :: tl ++ k2)).
  { rewrite Hcv in Hc1. exact Hc1. }
  assert (Hc1a : Chain (set_bytes m1 h) (a1 ++ (s, false) :: a2)).
  { rewrite Ha. exact Hc1. }
  destruct (Chain_block _ _ _ _ _ Hc1a) as (Ain & _ & _ & _ & _ & _ & A1 & _).
  cbn [heap_base set_bytes bytes] in Ain, A1. rewrite Hba in Ain, A1.
  set (m2 := memcpy_bytes m1 (nb + 32) (b + 32) s).
  assert (Hc2u : Chain (set_bytes m2 h) (k1 ++ (u, false) :: tl ++ k2)).
  { apply (Chain_payload_write _ _ _ _ _ _ Hc1u). cbn [heap_base set_bytes bytes].
    fold nb. intros x Hx. apply memcpy_bytes_outside. lia. }
  assert (Hc2a : Chain (set_bytes m2 h) (a1 ++ (s, false) :: a2)).
  { rewrite Ha, Hcv. exact Hc2u. }
  destruct (free_writes _ _ _ _ Hc2a Hpos) as (m3 & R3 & Hc3 & F3).
  cbn [heap_base set_bytes bytes] in R3, F3. rewrite Hba in R3.
  assert (Hlive : forall x, in_allocated_payload h x ->
            (x < nb \/ nb + 32 + t + 32 <= x) /\
            ~ hdr_byte (heap_base h) (k1 ++ (t, true) :: k2) x).
  { intros x Hx.
    destruct (in_allocated_payload_Chain _ _ _ Hck Hx) as (c1 & s' & c2 & Heq' & Hr).
    split.
    - destruct (blocks_apart (heap_base h) _ _ _ _ _ _ (Chain_nonneg _ _ Hck) Heq')
        as [G|G]; [discriminate | |]; cbn [fst] in G; fold nb in G; lia.
    - rewrite Heq'. apply payload_not_hdr; [|exact Hr].
      rewrite <- Heq'. exact (Chain_nonneg _ _ Hck). }
  exists m3, a1, a2. split; [|split; [exact Ha|split; [exact Hc3|split]]].
  - unfold relocate, p. rewrite payload_to_block_eq by (fold b; lia).
    replace (b + 32 - 32) with b by lia.
    eapply bind_run; [exact R1|]. cbv beta.
    destruct (Z.eqb_spec (nb + 32) 0) as [?|_]; [lia|].
    fold asize. mstep. rewrite A1. rewrite Z.min_l by lia.
    eapply bind_run; [apply memcpy_run; cbn [heap_base heap_total_size set_bytes]; lia|].
    cbv beta. rewrite bytes_set_bytes, set_bytes_set_bytes. fold b. fold m2.
    eapply bind_run; [exact R3|]. reflexivity.
  - intros i Hi. unfold p, q. fold b nb.
    rewrite F3.
    + unfold m2, memcpy_bytes.
      destruct (Z.leb_spec (nb + 32) (nb + 32 + i)); [|lia].
      destruct (Z.ltb_spec (nb + 32 + i) (nb + 32 + s)); [|lia].
      cbn [andb]. replace (b + 32 + (nb + 32 + i - (nb + 32))) with (b + 32 + i) by lia.
      apply F1; first [lia | intros G; try specialize (Hnext G); lia].
    + rewrite Ha, Hcv. apply payload_not_hdr; [exact (Chain_nonneg _ _ Hc1u)|].
      fold nb. lia.
  - intros x Hx. destruct (Hlive x Hx) as [Hx1 Hx2].
    rewrite F3.
    + unfold m2. rewrite memcpy_bytes_outside by lia.
      apply F1; first [lia | intros G; try specialize (Hnext G); lia].
    + rewrite Ha. intros G. apply Hx2.
      apply hdr_byte_app in G. apply hdr_byte_app. fold nb in G |- *.
      destruct G as [G|G]; [left; exact G|].
      apply hdr_byte_carve in G. cbn [hdr_byte].
      destruct G as [G|[G|G]]; [right; left; exact G | lia | right; right; exact G].
Qed.

(** X15: a [realloc] that relocates.  The block is too small for the rounded
    size and cannot grow into its successor, and a free block of the chain
    holds the rounded size.  The call returns the payload of the first such
    block, a pointer other than the old one; the bytes of the old payload
    are at the new address; no payload byte of any allocated block changed;
    and the chain is the one left by carving the new block out of the free
    one and then releasing the old block. *)
Theorem realloc_relocation_copies_payload std_malloc h l1 s l2 k1 t k2 new_size :
  Chain h (l1 ++ (s, false) :: l2) ->
  l1 ++ (s, false) :: l2 = k1 ++ (t, true) :: k2 ->
  0 < s -> new_size <> 0 ->
  s < request_size new_size ->
  can_grow (request_size new_size) s l2 = false ->
  request_size new_size <= t ->
  Forall (fun x => fits (request_size new_size) x = false) k1 ->
  let p := end_addr (heap_base h) l1 + 32 in
  let q := end_addr (heap_base h) k1 + 32 in
  exists h' a1 a2,
    realloc std_malloc p new_size h = Ret q h' /\
    q <> 0 /\ q <> p /\
    (forall i, 0 <= i < s -> bytes h' (q + i) = bytes h (p + i)) /\
    (forall x, in_allocated_payload h x -> bytes h' x = bytes h x) /\
    a1 ++ (s, false) :: a2 = k1 ++ carve (request_size new_size) t ++ k2 /\
    chain_list h' = release a1 s a2 /\
    stderr_log h' = stderr_log h.
Proof.
  intros Hc Heq Hpos Hn Hlt Hng Hle Hno p q.
  destruct (relocate_copies std_malloc _ _ _ _ _ _ _ _ Hc Heq Hpos Hn Hlt Hle Hno)
    as (m' & a1 & a2 & R & Ha & Hc' & Hcopy & Hframe).
  fold p q in R, Hcopy.
  pose proof Hc as Hck. rewrite Heq in Hck.
  destruct (Chain_block _ _ _ _ _ Hck) as (_ & Kb0 & _).
  destruct (relocate_blocks h _ _ _ _ _ _ (request_size new_size)
              (Chain_nonneg _ _ Hc) Heq Hle) as (Hdis & _).
  destruct (Chain_block _ _ _ _ _ Hck) as (_ & _ & _ & Ks & _).
  exists (set_bytes m' h), a1, a2.
  split; [|split; [unfold q; lia|split; [unfold p, q; lia|]]].
  - unfold p. rewrite (realloc_relocates std_malloc _ _ _ _ _ Hc Hpos Hn Hlt Hng).
    exact R.
  - split; [exact Hcopy|]. split; [exact Hframe|]. split; [exact Ha|].
    split; [now apply chain_list_Chain | reflexivity].
Qed.

(** X16: what [realloc] promises about the contents.  For an allocated block
    of the chain and a size other than 0 the call returns.  A null result
    means that nothing happened: the state is the one before the call, and
    this is the case exactly when the block is too small for the rounded
    size, cannot grow into its successor and no free block holds the rounded
    size.  A non-null result is the old pointer or the payload of the first
    free block that holds the rounded size, and all the bytes of the old
    payload are found at the address returned. *)
Theorem realloc_keeps_contents std_malloc h l1 s l2 n :
  Chain h (l1 ++ (s, false) :: l2) -> 0 < s -> n <> 0 ->
  let p := end_addr (heap_base h) l1 + 32 in
  let asize := request_size n in
  exists q h',
    realloc std_malloc p n h = Ret q h' /\
    (q = 0 -> h' = h) /\
    (q = 0 <->
     s < asize /\ can_grow asize s l2 = false /\
     find (fits_block asize) (chain_blocks h) = None) /\
    (q <> 0 ->
     (forall i, 0 <= i < s -> bytes h' (q + i) = bytes h (p + i)) /\
     (q = p \/
      exists fb, find (fits_block asize) (chain_blocks h) = Some fb /\
                 bi_payload fb = q)).
Proof.
  intros Hc Hpos Hn p asize.
  destruct (Chain_block _ _ _ _ _ Hc) as (_ & Hb0 & _).
  assert (Hp : p <> 0) by (unfold p; lia).
  destruct (Z.le_gt_cases asize s) as [Hle|Hgt].
  { exists p, h. split; [exact (realloc_shrink std_malloc _ _ _ _ _ Hc Hpos Hn Hle)|].
    split; [intros; contradiction|]. split; [split; intros; lia|].
    intros _. split; [reflexivity | left; reflexivity]. }
  destruct (can_grow asize s l2) eqn:Hcg.
  { destruct (can_grow_true _ _ _ Hcg) as (s2 & r2 & -> & Hfit).
    assert (Hrange : s < request_size n <= s + 32 + s2) by (fold asize; lia).
    destruct (realloc_grow std_malloc _ _ _ _ _ _ Hc Hpos Hn Hrange) as (m' & R & _ & F).
    exists p, (set_bytes m' h). split; [exact R|].
    split; [intros; contradiction|].
    split; [split; [intros; contradiction | intros (_ & G & _); discriminate]|].
    intros _. split; [|left; reflexivity].
    intros i Hi. apply F. fold p. lia. }
  destruct (fits_cases asize (l1 ++ (s, false) :: l2))
    as [Hno|(k1 & t & k2 & Heq & Hfit & Hno)].
  - exists 0, h.
    split; [exact (realloc_relocate_fail std_malloc _ _ _ _ _ Hc Hpos Hn Hgt Hcg Hno)|].
    split; [reflexivity|]. split; [|intros; contradiction].
    split; [|reflexivity]. intros _. split; [exact Hgt|]. split; [reflexivity|].
    rewrite (chain_blocks_Chain _ _ Hc). now apply find_layout_none.
  - destruct (relocate_copies std_malloc _ _ _ _ _ _ _ _ Hc Heq Hpos Hn Hgt Hfit Hno)
      as (m' & a1 & a2 & R & _ & _ & Hcopy & _).
    pose proof Hc as Hck. rewrite Heq in Hck.
    destruct (Chain_block _ _ _ _ _ Hck) as (_ & Kb0 & _).
    destruct (find_layout_some asize 0 (heap_base h) k1 t k2 0 Hno Hfit)
      as (fb & Hfind & _ & Hfp & _).
    assert (Hfind' : find (fits_block asize) (chain_blocks h) = Some fb).
    { rewrite (chain_blocks_Chain _ _ Hck). exact Hfind. }
    exists (end_addr (heap_base h) k1 + 32), (set_bytes m' h).
    split; [|split; [intros; lia|split]].
    + unfold p. rewrite (realloc_relocates std_malloc _ _ _ _ _ Hc Hpos Hn Hgt Hcg).
      exact R.
    + split; [intros; lia|]. intros (_ & _ & G). rewrite G in Hfind'. discriminate.
    + intros _. split; [exact Hcopy|]. right. exists fb. split; [exact Hfind' | exact Hfp].
Qed.

(** ** Relocation on a concrete run *)

Lemma demo_two_chain :
  Chain demo_two ([] ++ (32, false) :: (32, false) :: (864, true) :: []).
Proof. chain_by_computation. Qed.

Lemma demo_two_reachable : reachable demo_std_malloc demo_two.
Proof.
  apply reach_step with (h := demo_one); [exact demo_one_reachable|].
  apply step_malloc with (size := 32) (p := 4192); [rewrite wB_eq; lia|].
  by_computation.
Qed.

(** [realloc(4128, 100)] with blocks of 32, 32 (allocated) and 864 (free)
    bytes: the block moves to 4256. *)
Lemma realloc_relocation_copies_payload_witness :
  exists h' a1 a2,
    realloc demo_std_malloc (end_addr (heap_base demo_two) [] + 32) 100 demo_two =
      Ret (end_addr (heap_base demo_two) [(32, false); (32, false)] + 32) h' /\
    end_addr (heap_base demo_two) [(32, false); (32, false)] + 32 <> 0 /\
    end_addr (heap_base demo_two) [(32, false); (32, false)] + 32 <>
      end_addr (heap_base demo_two) [] + 32 /\
    (forall i, 0 <= i < 32 ->
       bytes h' (end_addr (heap_base demo_two) [(32, false); (32, false)] + 32 + i) =
       bytes demo_two (end_addr (heap_base demo_two) [] + 32 + i)) /\
    (forall x, in_allocated_payload demo_two x -> bytes h' x = bytes demo_two x) /\
    a1 ++ (32, false) :: a2 =
      [(32, false); (32, false)] ++ carve (request_size 100) 864 ++ [] /\
    chain_list h' = release a1 32 a2 /\
    stderr_log h' = stderr_log demo_two.
Proof.
  apply (realloc_relocation_copies_payload demo_std_malloc demo_two
           [] 32 [(32, false); (864, true)] [(32, false); (32, false)] 864 [] 100).
  - exact demo_two_chain.
  - reflexivity.
  - lia.
  - discriminate.
  - by_computation.
  - reflexivity.
  - by_computation.
  - repeat constructor.
Defined.

Lemma realloc_keeps_contents_witness :
  exists q h',
    realloc demo_std_malloc (end_addr (heap_base demo_two) [] + 32) 100 demo_two =
      Ret q h' /\
    (q = 0 -> h' = demo_two) /\
    (q = 0 <->
     32 < request_size 100 /\
     can_grow (request_size 100) 32 [(32, false); (864, true)] = false /\
     find (fits_block (request_size 100)) (chain_blocks demo_two) = None) /\
    (q <> 0 ->
     (forall i, 0 <= i < 32 ->
        bytes h' (q + i) = bytes demo_two (end_addr (heap_base demo_two) [] + 32 + i)) /\
     (q = end_addr (heap_base demo_two) [] + 32 \/
      exists fb, find (fits_block (request_size 100)) (chain_blocks demo_two) = Some fb /\
                 bi_payload fb = q)).
Proof.
  apply (realloc_keeps_contents demo_std_malloc demo_two [] 32 [(32, false); (864, true)] 100).
  - exact demo_two_chain.
  - lia.
  - discriminate.
Defined.

(** ** The test program *)

Lemma memset_payload_chain h l1 s f l2 c n :
  Chain h (l1 ++ (s, f) :: l2) -> 0 <= n <= s ->
  let p := end_addr (heap_base h) l1 + 32 in
  memset p c n h = Ret tt (set_bytes (memset_bytes (bytes h) p c n) h) /\
  Chain (set_bytes (memset_bytes (bytes h) p c n) h) (l1 ++ (s, f) :: l2).
Proof.
  intros Hc Hn p.
  destruct (Chain_block _ _ _ _ _ Hc) as (Hin & Hb0 & Hb & Hs & Hend & _).
  split.
  - apply memset_run; unfold p; lia.
  - apply (Chain_payload_write _ _ _ _ _ _ Hc). fold p.
    intros x Hx. apply memset_bytes_outside. lia.
Qed.

Lemma malloc_blocks_none std_malloc h l n i :
  Chain h l -> Forall (fun x => snd x = false) l -> 0 <= i ->
  malloc_blocks std_malloc n i h = Ret (repeat 0 n) h.
Proof.
  intros Hc Hall. revert i. induction n as [|n IH]; intros i Hi; [reflexivity|].
  cbn [malloc_blocks repeat].
  eapply bind_run.
  { apply (malloc_none std_malloc _ _ _ Hc); [lia|].
    eapply Forall_impl; [|exact Hall]. intros [s f] Hf. cbn [snd] in Hf. subst f.
    reflexivity. }
  cbv beta. cbn [Z.eqb]. eapply bind_run; [apply IH; lia|]. reflexivity.
Qed.

Lemma heap_base_set_bytes m h : heap_base (set_bytes m h) = heap_base h.
Proof. reflexivity. Qed.

(** Bring the states of a run into the form [set_bytes m h]. *)
Ltac norm_heap H :=
  cbn [end_addr] in H;
  repeat rewrite ?heap_base_set_bytes, ?set_bytes_set_bytes, ?bytes_set_bytes in H.

(** X17: the test program.  With a buffer for the arena of 1 MiB, [main]
    gets past [realloc(b, 512)] with the block [b] owning all of the arena
    behind the 64 bytes released before: [split_block] gave nothing back.  Of
    the eight small allocations that follow only the first succeeds,
    [calloc(10, 4)] returns null, and the loop of [assert(z[i] == 0)] reads
    through that null pointer. *)
Theorem test_program_reads_null std_malloc h :
  initialized h = false ->
  let base := std_malloc (1024 * 1024) in
  0 < base -> base + 1024 * 1024 < wB ->
  (exists h',
     test_until_calloc std_malloc h =
       Ret (Some (mkVars (base + 128) [base + 32; 0; 0; 0; 0; 0; 0; 0] 0)) h' /\
     chain_list h' = [(64, false); (1024 * 1024 - 128, false)]) /\
  test_main std_malloc h = Err OutOfBounds.
Proof.
  intros Hi base Hb Hw.
  pose proof (init_allocator_run std_malloc h (1024 * 1024) Hi) as R0.
  cbv zeta in R0. change (align_up (1024 * 1024)) with 1048576 in R0.
  change (1024 * 1024) with 1048576 in *. fold base in R0.
  specialize (R0 Hb Hw ltac:(lia)).
  match type of R0 with _ = Ret tt ?hf => set (h0 := hf) in * end.
  assert (Hc0 : Chain h0 ([] ++ (1048544, true) :: [])).
  { unfold h0, Chain. cbn [initialized heap_base heap_total_size head bytes app].
    repeat split; try reflexivity; try lia; try discriminate;
      cbn [seg nxt_of end_addr]; fields_tac. }
  assert (Hhb : heap_base h0 = base) by reflexivity.
  (* a = malloc(64) *)
  destruct (malloc_some std_malloc h0 [] _ [] 64 Hc0) as (m1 & R1 & Hc1);
    [discriminate | by_computation | constructor |].
  norm_heap R1. rewrite Hhb in R1.
  change ([] ++ carve (request_size 64) 1048544 ++ [])
    with ([] ++ (64, false) :: [(1048448, true)]) in Hc1.
  (* memset(a, 0xAA, 64) *)
  destruct (memset_payload_chain _ _ _ _ _ 170 64 Hc1) as (R2 & Hc2); [lia|].
  norm_heap R2. norm_heap Hc2. rewrite Hhb in R2, Hc2.
  set (m2 := memset_bytes m1 (base + 32) 170 64) in *.
  (* b = malloc(128) *)
  destruct (malloc_some std_malloc (set_bytes m2 h0) [(64, false)] 1048448 [] 128)
    as (m3 & R3 & Hc3);
    [exact Hc2 | discriminate | by_computation | repeat constructor |].
  norm_heap R3. norm_heap Hc3. rewrite Hhb in R3.
  change ([(64, false)] ++ carve (request_size 128) 1048448 ++ [])
    with ([(64, false)] ++ (128, false) :: [(1048288, true)]) in Hc3.
  replace (base + 32 + 64 + 32) with (base + 128) in R3 by lia.
  (* memset(b, 0xBB, 128) *)
  destruct (memset_payload_chain _ _ _ _ _ 187 128 Hc3) as (R4 & Hc4); [lia|].
  norm_heap R4. norm_heap Hc4. rewrite Hhb in R4, Hc4.
  replace (base + 32 + 64 + 32) with (base + 128) in R4, Hc4 by lia.
  set (m4 := memset_bytes m3 (base + 128) 187 128) in *.
  (* free(a) *)
  assert (Hc4' : Chain (set_bytes m4 h0) ([] ++ (64, false) :: [(128, false); (1048288, true)]))
    by exact Hc4.
  destruct (free_spec _ _ _ _ Hc4') as (m5 & R5 & Hc5 & _); [lia|].
  norm_heap R5. norm_heap Hc5. rewrite Hhb in R5.
  change (release [] 64 [(128, false); (1048288, true)])
    with ([(64, true)] ++ (128, false) :: (1048288, true) :: []) in Hc5.
  (* b = realloc(b, 512) *)
  destruct (realloc_grow std_malloc _ _ _ _ _ 512 Hc5) as (m6 & R6 & Hc6 & _);
    [lia | discriminate | split; by_computation |].
  norm_heap R6. norm_heap Hc6. rewrite Hhb in R6.
  replace (base + 32 + 64 + 32) with (base + 128) in R6 by lia.
  change (128 + 32 + 1048288) with 1048448 in Hc6.
  (* blocks[0] = malloc(50) *)
  assert (Hc6' : Chain (set_bytes m6 h0) ([] ++ (64, true) :: [(1048448, false)]))
    by exact Hc6.
  destruct (malloc_some std_malloc _ [] 64 [(1048448, false)] 50 Hc6')
    as (m7 & R7 & Hc7);
    [discriminate | by_computation | constructor |].
  norm_heap R7. norm_heap Hc7. rewrite Hhb in R7.
  change ([] ++ carve (request_size 50) 64 ++ [(1048448, false)])
    with [(64, false); (1048448, false)] in Hc7.
  set (h7 := set_bytes m7 h0) in *.
  assert (Hall : Forall (fun x : block => snd x = false) [(64, false); (1048448, false)])
    by (repeat constructor).
  (* the run up to calloc *)
  assert (Hrun : test_until_calloc std_malloc h =
                 Ret (Some (mkVars (base + 128) [base + 32; 0; 0; 0; 0; 0; 0; 0] 0)) h7).
  { unfold test_until_calloc. change (1024 * 1024) with 1048576.
    eapply bind_run; [exact R0|]. cbv beta.
    eapply bind_run; [exact R1|]. cbv beta.
    destruct (Z.eqb_spec (base + 32) 0) as [?|_]; [lia|].
    eapply bind_run; [exact R2|]. cbv beta.
    eapply bind_run; [exact R3|]. cbv beta.
    eapply bind_run; [exact R4|]. cbv beta.
    eapply bind_run; [apply (dump_heap_spec _ _ Hc4)|]. cbv beta.
    eapply bind_run; [exact R5|]. cbv beta.
    eapply bind_run; [apply (dump_heap_spec _ _ Hc5)|]. cbv beta.
    eapply bind_run; [exact R6|]. cbv beta.
    eapply bind_run; [apply (dump_heap_spec _ _ Hc6)|]. cbv beta.
    eapply bind_run.
    { cbn [malloc_blocks]. change (50 + 0 * 10) with 50.
      eapply bind_run; [exact R7|]. cbv beta.
      eapply bind_run; [apply (malloc_blocks_none std_malloc _ _ 7 1 Hc7 Hall); lia|].
      reflexivity. }
    cbv beta. cbn [repeat nth Z.eqb negb when].
    eapply bind_run; [apply (dump_heap_spec _ _ Hc7)|]. cbv beta.
    eapply bind_run; [apply ret_run|]. cbv beta.
    eapply bind_run; [apply ret_run|]. cbv beta.
    eapply bind_run; [apply (dump_heap_spec _ _ Hc7)|]. cbv beta.
    eapply bind_run.
    { apply (calloc_none std_malloc _ _ 10 4 Hc7); try lia.
      - vm_compute. discriminate.
      - repeat constructor. }
    reflexivity. }
  split.
  - exists h7. split; [exact Hrun|]. now apply chain_list_Chain.
  - unfold test_main. eapply bind_run; [exact Hrun|]. cbv beta.
    unfold test_after_calloc, var_z. cbn [all_zero].
    unfold bind at 1. unfold bind at 1. unfold ld, in_arena.
    cbn [heap_base set_bytes h7 h0].
    destruct (Z.leb_spec base (0 + 0)) as [?|_]; [lia|]. reflexivity.
Qed.

Lemma test_program_reads_null_witness :
  (exists h',
     test_until_calloc demo_std_malloc program_start =
       Ret (Some (mkVars (4096 + 128) [4096 + 32; 0; 0; 0; 0; 0; 0; 0] 0)) h' /\
     chain_list h' = [(64, false); (1024 * 1024 - 128, false)]) /\
  test_main demo_std_malloc program_start = Err OutOfBounds.
Proof.
  apply (test_program_reads_null demo_std_malloc program_start).
  - reflexivity.
  - reflexivity.
  - reflexivity.
Defined.

(** ** Invariants of the block list along the calls

    A property of the block list that holds for the one block of a fresh
    arena and is kept when a block is carved, released or grown holds in
    every reachable state. *)

Lemma align_up_multiple n : align_up n mod 16 = 0.
Proof.
  unfold align_up, align_up_to. change (sub64 ALIGNMENT 1) with 15 at 1.
  rewrite land_mask by apply wrap_range.
  rewrite Z.mul_comm. apply Z.mod_mul. lia.
Qed.

Lemma request_size_multiple size : request_size size mod 16 = 0.
Proof.
  rewrite request_size_max. pose proof (align_up_multiple size) as H.
  unfold MIN_BLOCK_SIZE. destruct (Z.max_spec (align_up size) 32) as [[_ ->]|[_ ->]];
    [reflexivity | exact H].
Qed.

Lemma Chain_unique h l l' : Chain h l -> Chain h l' -> l = l'.
Proof.
  intros H1 H2. rewrite <- (chain_list_Chain _ _ H1). now apply chain_list_Chain.
Qed.

Section ListInvariant.

Variable std_malloc : Z -> Z.
Hypothesis std_malloc_valid : std_malloc_ok std_malloc.

Variable P : list block -> Prop.
Hypothesis P_init : forall t, t mod 16 = 0 -> 32 <= t -> P [(t - 32, true)].
Hypothesis P_carve : forall k1 t k2 asize,
  asize mod 16 = 0 -> 32 <= asize <= t ->
  P (k1 ++ (t, true) :: k2) -> P (k1 ++ carve asize t ++ k2).
Hypothesis P_release : forall l1 s l2,
  P (l1 ++ (s, false) :: l2) -> P (release l1 s l2).
Hypothesis P_grow : forall l1 s s2 r2,
  P (l1 ++ (s, false) :: (s2, true) :: r2) -> P (l1 ++ (s + 32 + s2, false) :: r2).

Lemma keeps_init h heap_size h' :
  initialized h = false ->
  init_allocator std_malloc heap_size h = Ret tt h' ->
  exists l', Chain h' l' /\ good l' /\ P l'.
Proof.
  intros Hi Hrun.
  destruct (init_allocator_chain _ std_malloc_valid _ _ _ Hi Hrun)
    as (Hc & Hmin & Ht & _).
  eexists; split; [exact Hc|]. split; [apply good_init|].
  apply P_init; [|exact Hmin]. rewrite Ht. apply align_up_multiple.
Qed.

Lemma keeps_malloc_body h l size p h' :
  Chain h l -> P l -> size <> 0 ->
  malloc_body size h = Ret p h' ->
  exists l', Chain h' l' /\ P l'.
Proof.
  intros Hc HP Hn Hrun.
  rewrite <- (malloc_initialized std_malloc) in Hrun by (try apply Hc; assumption).
  destruct (fits_cases (request_size size) l) as [Hno|(l1 & s & l2 & -> & Hs & Hno)].
  - rewrite (malloc_none std_malloc _ _ _ Hc Hn Hno) in Hrun.
    injection Hrun as _ <-. eauto.
  - destruct (malloc_some std_malloc _ _ _ _ _ Hc Hn Hs Hno) as (m' & R & Hc').
    rewrite R in Hrun. injection Hrun as _ <-.
    eexists; split; [exact Hc'|]. apply P_carve; [|  |exact HP].
    + apply request_size_multiple.
    + pose proof (request_size_min size). lia.
Qed.

Lemma keeps_malloc h l size p h' :
  Chain h l -> P l ->
  malloc std_malloc size h = Ret p h' ->
  exists l', Chain h' l' /\ P l'.
Proof.
  intros Hc HP Hrun. destruct (Z.eq_dec size 0) as [->|Hn].
  - rewrite malloc_zero in Hrun. injection Hrun as _ <-. eauto.
  - rewrite malloc_initialized in Hrun by (try apply Hc; assumption).
    exact (keeps_malloc_body h l size p h' Hc HP Hn Hrun).
Qed.

Lemma keeps_calloc h l nmemb size p h' :
  Chain h l -> P l ->
  0 <= nmemb -> 0 <= size ->
  calloc std_malloc nmemb size h = Ret p h' ->
  exists l', Chain h' l' /\ P l'.
Proof.
  intros Hc HP Hn Hs Hrun.
  destruct (Z.eq_dec nmemb 0) as [Hn0|Hn0].
  { rewrite calloc_null in Hrun by auto. injection Hrun as _ <-. eauto. }
  destruct (Z.eq_dec size 0) as [Hs0|Hs0].
  { rewrite calloc_null in Hrun by auto. injection Hrun as _ <-. eauto. }
  destruct (Z.lt_ge_cases SIZE_MAX (nmemb * size)) as [Hov|Hle].
  { rewrite calloc_null in Hrun by (right; right; lia).
    injection Hrun as _ <-. eauto. }
  assert (Hn' : 0 < nmemb) by lia. assert (Hs' : 0 < size) by lia.
  set (total := nmemb * size) in *.
  assert (Hcarve : forall l1 s l2, l = l1 ++ (s, true) :: l2 -> request_size total <= s ->
            P (l1 ++ carve (request_size total) s ++ l2)).
  { intros l1 s l2 -> Hfit. apply P_carve; [| |exact HP].
    - apply request_size_multiple.
    - pose proof (request_size_min total). lia. }
  destruct (Z.le_gt_cases total (SIZE_MAX - 15)) as [Hok|Hwrap].
  - destruct (fits_cases (request_size total) l) as [Hno|(l1 & s & l2 & El & Hfit & Hno)].
    + rewrite (calloc_none std_malloc _ _ _ _ Hc Hn' Hs' Hle Hno) in Hrun.
      injection Hrun as _ <-. eauto.
    + pose proof Hc as Hc0. rewrite El in Hc0.
      destruct (calloc_some std_malloc _ _ _ _ _ _ Hc0 Hn' Hs' Hok Hfit Hno)
        as (m' & R & Hc' & _).
      rewrite R in Hrun. injection Hrun as _ <-.
      eexists; split; [exact Hc'|]. now apply Hcarve.
  - assert (Hreq : request_size total = 32).
    { unfold request_size. rewrite align_up_wraps by lia. reflexivity. }
    destruct (fits_cases 32 l) as [Hno|(l1 & s & l2 & El & Hfit & Hno)].
    + rewrite <- Hreq in Hno.
      rewrite (calloc_none std_malloc _ _ _ _ Hc Hn' Hs' Hle Hno) in Hrun.
      injection Hrun as _ <-. eauto.
    + pose proof Hc as Hc0. rewrite El in Hc0.
      rewrite (calloc_overrun std_malloc _ _ _ _ _ _ Hc0 Hn' Hs') in Hrun;
        [discriminate | lia | exact Hfit | exact Hno].
Qed.

Lemma keeps_free h l p h' :
  Chain h l -> good l -> P l -> free_arg h p ->
  free p h = Ret tt h' ->
  exists l', Chain h' l' /\ P l'.
Proof.
  intros Hc Hg HP (Hp & Harg) Hrun.
  pose proof Hc as (_ & Hbase & Hw & Ht & _).
  destruct (Z.eq_dec p 0) as [->|Hnz].
  { rewrite free_null in Hrun. injection Hrun as <-. eauto. }
  destruct (Z.lt_ge_cases p (heap_base h)) as [Hlo|Hlo].
  { rewrite free_outside in Hrun by (auto; left; lia).
    injection Hrun as <-. eauto using Chain_log_add. }
  destruct (Z.le_gt_cases (heap_base h + heap_total_size h) p) as [Hhi|Hhi].
  { rewrite free_outside in Hrun by (auto; right; lia).
    injection Hrun as <-. eauto using Chain_log_add. }
  destruct (Z.lt_ge_cases p (heap_base h + 32)) as [Hhd|Hhd].
  { rewrite free_header_outside in Hrun by lia.
    injection Hrun as <-. eauto using Chain_log_add. }
  destruct Harg as [?|[[?|?]|[?|(b & Hin & Hpay)]]]; try lia.
  rewrite (chain_blocks_Chain _ _ Hc) in Hin.
  destruct (In_layout _ _ _ _ _ Hin) as (l1 & s & f & l2 & -> & _ & Hp' & _ & _).
  rewrite Hpay in Hp'. clear Hpay Hin. subst p. destruct f.
  - destruct (free_already_free _ _ _ _ Hc) as (d & R).
    rewrite R in Hrun. injection Hrun as <-. eauto using Chain_log_add.
  - destruct (free_spec _ _ _ _ Hc (good_alloc_pos _ _ _ Hg)) as (m' & R & Hc' & _).
    rewrite R in Hrun. injection Hrun as <-.
    eexists; split; [exact Hc' | now apply P_release].
Qed.

Lemma keeps_realloc_block h l1 s l2 new_size q h' :
  Chain h (l1 ++ (s, false) :: l2) -> good (l1 ++ (s, false) :: l2) ->
  P (l1 ++ (s, false) :: l2) ->
  new_size <> 0 ->
  realloc std_malloc (end_addr (heap_base h) l1 + 32) new_size h = Ret q h' ->
  exists l', Chain h' l' /\ P l'.
Proof.
  intros Hc Hg HP Hn Hrun.
  pose proof (good_alloc_pos _ _ _ Hg) as Hpos.
  destruct (Z.le_gt_cases (request_size new_size) s) as [Hle|Hgt].
  { rewrite (realloc_shrink std_malloc _ _ _ _ _ Hc Hpos Hn Hle) in Hrun.
    injection Hrun as _ <-. eauto. }
  destruct (can_grow (request_size new_size) s l2) eqn:Hcg.
  { destruct (can_grow_true _ _ _ Hcg) as (s2 & r2 & -> & Hfit).
    assert (Hrange : s < request_size new_size <= s + 32 + s2) by lia.
    destruct (realloc_grow std_malloc _ _ _ _ _ _ Hc Hpos Hn Hrange) as (m' & R & Hc' & _).
    rewrite R in Hrun. injection Hrun as _ <-.
    eexists; split; [exact Hc'|]. now apply P_grow. }
  rewrite (realloc_relocates std_malloc _ _ _ _ _ Hc Hpos Hn) in Hrun by (auto; lia).
  destruct (fits_cases (request_size new_size) (l1 ++ (s, false) :: l2))
    as [Hno|(k1 & t & k2 & Heq & Hfit & Hno)].
  - unfold relocate, bind in Hrun.
    rewrite (malloc_none std_malloc _ _ _ Hc Hn Hno) in Hrun.
    cbn [Z.eqb] in Hrun. injection Hrun as _ <-. eauto.
  - destruct (relocate_ok std_malloc _ _ _ _ _ _ _ _ Hc Heq Hpos Hn Hgt Hfit Hno)
      as (m' & a1 & a2 & R & Ha & Hc').
    rewrite R in Hrun. injection Hrun as _ <-.
    eexists; split; [exact Hc'|]. apply P_release. rewrite Ha.
    apply P_carve; [| |rewrite <- Heq; exact HP].
    + apply request_size_multiple.
    + pose proof (request_size_min new_size). lia.
Qed.

Lemma keeps_realloc h l p new_size q h' :
  Chain h l -> good l -> P l -> realloc_arg h p ->
  realloc std_malloc p new_size h = Ret q h' ->
  exists l', Chain h' l' /\ P l'.
Proof.
  intros Hc Hg HP (Hp & Harg) Hrun.
  pose proof Hc as (Hi & Hbase & Hw & Ht & _).
  destruct (Z.eq_dec p 0) as [->|Hnz].
  { unfold realloc in Hrun. cbn [Z.eqb] in Hrun.
    exact (keeps_malloc h l new_size q h' Hc HP Hrun). }
  assert (Ht0 : 0 <= heap_total_size h) by (pose proof (Chain_total_min _ _ Hc); lia).
  destruct Harg as [?|[Hout|(b & Hin & Hpay & Hfr)]]; [contradiction| |].
  - destruct (realloc_outside std_malloc h p new_size Ht Ht0 Hnz Hout) as (d & q' & R).
    rewrite R in Hrun. injection Hrun as _ <-. eauto using Chain_log_add.
  - rewrite (chain_blocks_Chain _ _ Hc) in Hin.
    destruct (In_layout _ _ _ _ _ Hin) as (l1 & s & f & l2 & -> & _ & Hp' & _ & Hf).
    rewrite Hpay in Hp'. rewrite Hfr in Hf. clear Hpay Hin Hfr. subst p f.
    destruct (Z.eq_dec new_size 0) as [->|Hn].
    + unfold realloc in Hrun.
      destruct (Z.eqb_spec (end_addr (heap_base h) l1 + 32) 0) as [?|_]; [lia|].
      cbn [Z.eqb] in Hrun. unfold bind in Hrun.
      destruct (free_spec _ _ _ _ Hc (good_alloc_pos _ _ _ Hg)) as (m' & R & Hc' & _).
      rewrite R in Hrun. injection Hrun as _ <-.
      eexists; split; [exact Hc' | now apply P_release].
    + exact (keeps_realloc_block h l1 s l2 new_size q h' Hc Hg HP Hn Hrun).
Qed.

(** The states in which [P] holds of the chain. *)
Lemma keeps_step h h' :
  Inv h -> (forall l, Chain h l -> P l) -> step std_malloc h h' ->
  forall l', Chain h' l' -> P l'.
Proof.
  intros HI HP Hstep l' Hc'.
  assert (G : exists l0, Chain h' l0 /\ P l0);
    [|destruct G as (l0 & Hc0 & HP0); now rewrite (Chain_unique _ _ _ Hc' Hc0)].
  destruct Hstep as [n h' Hn Hrun | n p h' Hn Hrun | n sz p h' Hn Hsz Hrun
                    | p h' Harg Hrun | p n q h' Harg Hn Hrun | x v Hx].
  - destruct (initialized h) eqn:Hi.
    + rewrite (init_allocator_again std_malloc) in Hrun by assumption.
      injection Hrun as <-. eauto.
    + destruct (keeps_init _ _ _ Hi Hrun) as (l0 & H0 & _ & H1). eauto.
  - destruct HI as [(Hi & _)|(l & Hc & Hg)].
    + destruct (Z.eq_dec n 0) as [->|Hn0].
      { rewrite malloc_zero in Hrun. injection Hrun as _ <-. eauto. }
      rewrite malloc_uninitialized in Hrun by assumption.
      unfold bind in Hrun.
      destruct (init_allocator std_malloc DEFAULT_HEAP_SIZE h) as [[] h1|] eqn:E;
        [|discriminate].
      destruct (keeps_init _ _ _ Hi E) as (l0 & H0 & _ & H1).
      exact (keeps_malloc_body h1 l0 n p h' H0 H1 Hn0 Hrun).
    + exact (keeps_malloc h l n p h' Hc (HP l Hc) Hrun).
  - destruct HI as [(Hi & _)|(l & Hc & Hg)].
    + destruct (Z.eq_dec n 0) as [Hn0|Hn0].
      { rewrite calloc_null in Hrun by auto. injection Hrun as _ <-. eauto. }
      destruct (Z.eq_dec sz 0) as [Hs0|Hs0].
      { rewrite calloc_null in Hrun by auto. injection Hrun as _ <-. eauto. }
      destruct (Z.lt_ge_cases SIZE_MAX (n * sz)) as [Hov|Hle].
      { rewrite calloc_null in Hrun by (right; right; lia).
        injection Hrun as _ <-. eauto. }
      assert (Htot : n * sz <> 0) by nia.
      pose proof Hrun as Hrun0.
      rewrite calloc_runs_malloc in Hrun by lia.
      unfold bind at 1 in Hrun.
      rewrite malloc_uninitialized in Hrun by assumption.
      unfold bind at 1 in Hrun.
      destruct (init_allocator std_malloc DEFAULT_HEAP_SIZE h) as [[] h1|] eqn:E;
        [|discriminate].
      destruct (keeps_init _ _ _ Hi E) as (l0 & H0 & _ & H1).
      rewrite <- (malloc_initialized std_malloc) in Hrun by (try apply H0; assumption).
      apply (keeps_calloc h1 l0 n sz p h' H0 H1); try lia.
      rewrite calloc_runs_malloc by lia. exact Hrun.
    + apply (keeps_calloc h l n sz p h' Hc (HP l Hc)); [lia | lia | exact Hrun].
  - destruct HI as [(Hi & Hb & Ht)|(l & Hc & Hg)].
    + exfalso. destruct Hc' as (Hi' & _).
      destruct (Z.eq_dec p 0) as [->|Hnz].
      * rewrite free_null in Hrun. injection Hrun as <-. congruence.
      * rewrite free_outside in Hrun by (auto; apply uninit_outside; auto; apply Harg).
        injection Hrun as <-. cbn in Hi'. congruence.
    + exact (keeps_free h l p h' Hc Hg (HP l Hc) Harg Hrun).
  - destruct HI as [(Hi & Hb & Ht)|(l & Hc & Hg)].
    + destruct (Z.eq_dec p 0) as [->|Hnz].
      * unfold realloc in Hrun. cbn [Z.eqb] in Hrun.
        destruct (Z.eq_dec n 0) as [->|Hn0].
        { rewrite malloc_zero in Hrun. injection Hrun as _ <-. eauto. }
        rewrite malloc_uninitialized in Hrun by assumption.
        unfold bind in Hrun.
        destruct (init_allocator std_malloc DEFAULT_HEAP_SIZE h) as [[] h1|] eqn:E;
          [|discriminate].
        destruct (keeps_init _ _ _ Hi E) as (l0 & H0 & _ & H1).
        exact (keeps_malloc_body h1 l0 n q h' H0 H1 Hn0 Hrun).
      * exfalso. destruct Hc' as (Hi' & _).
        destruct (realloc_outside std_malloc h p n) as (d & q' & R);
          [lia | lia | exact Hnz | apply uninit_outside; auto; apply Harg |].
        rewrite R in Hrun. injection Hrun as _ <-. cbn in Hi'. congruence.
    + exact (keeps_realloc h l p n q h' Hc Hg (HP l Hc) Harg Hrun).
  - destruct HI as [(Hi & _)|(l & Hc & Hg)].
    + exfalso. destruct Hc' as (Hi' & _). cbn in Hi'. congruence.
    + destruct Hx as (b & Hin & Hf & Hx).
      rewrite (chain_blocks_Chain _ _ Hc) in Hin.
      destruct (In_layout _ _ _ _ _ Hin) as (l1 & s & f & l2 & -> & _ & Hp & Hs & _).
      exists (l1 ++ (s, f) :: l2). split; [|now apply HP].
      apply (Chain_payload_write _ _ _ _ _ _ Hc).
      intros y Hy. unfold upd. destruct (Z.eqb_spec y x) as [->|_]; [|reflexivity].
      exfalso. apply Hy. lia.
Qed.

Lemma keeps_reachable h :
  reachable std_malloc h -> forall l, Chain h l -> P l.
Proof.
  induction 1 as [h Hi Hb Ht _ _|h h' Hr IH Hstep].
  - intros l (Hi' & _). congruence.
  - apply (keeps_step h h'); [|exact IH|exact Hstep].
    now apply (reachable_Inv std_malloc std_malloc_valid).
Qed.

End ListInvariant.

(** *** Alignment *)

Lemma aligned_sizes_app l1 l2 :
  aligned_sizes (l1 ++ l2) <-> aligned_sizes l1 /\ aligned_sizes l2.
Proof. apply Forall_app. Qed.

Lemma aligned_sizes_carve k1 t k2 asize :
  asize mod 16 = 0 -> 32 <= asize <= t ->
  aligned_sizes (k1 ++ (t, true) :: k2) -> aligned_sizes (k1 ++ carve asize t ++ k2).
Proof.
  intros Ha Hr H. apply aligned_sizes_app in H. destruct H as [H1 H2].
  inversion H2 as [|? ? Ht H3]; subst. cbn [fst] in Ht. unfold ALIGNMENT in Ht.
  apply aligned_sizes_app. split; [exact H1|]. apply aligned_sizes_app.
  split; [|exact H3]. unfold carve.
  destruct (asize + 32 + 32 <=? t); repeat constructor; cbn [fst]; unfold ALIGNMENT;
    try assumption.
  revert Ha Ht. Z.to_euclidean_division_equations. lia.
Qed.

Lemma aligned_sizes_release l1 s l2 :
  aligned_sizes (l1 ++ (s, false) :: l2) -> aligned_sizes (release l1 s l2).
Proof.
  intros H. apply aligned_sizes_app in H. destruct H as [H1 H2].
  inversion H2 as [|? ? Hs H3]; subst. cbn [fst] in Hs. unfold ALIGNMENT in Hs.
  unfold release.
  assert (G : fst (absorb_next s l2) mod 16 = 0 /\ aligned_sizes (snd (absorb_next s l2))).
  { destruct l2 as [|[s2 [|]] r]; cbn [absorb_next fst snd]; auto.
    inversion H3 as [|? ? Hs2 H4]; subst. cbn [fst] in Hs2. unfold ALIGNMENT in Hs2.
    split; [|exact H4]. revert Hs Hs2. Z.to_euclidean_division_equations. lia. }
  destruct (absorb_next s l2) as [s1 l2']. cbn [fst snd] in G. destruct G as [G1 G2].
  unfold merge_prev. destruct l1 as [|x0 l0] using rev_ind.
  - cbn [last app]. constructor; assumption.
  - clear IHl0. rewrite last_last. apply aligned_sizes_app in H1.
    destruct H1 as [H0 Hx]. inversion Hx as [|? ? Hp _]; subst.
    destruct x0 as [sp [|]]; cbn [fst] in Hp; unfold ALIGNMENT in Hp.
    + rewrite removelast_last. apply aligned_sizes_app. split; [exact H0|].
      constructor; [|exact G2]. cbn [fst]. unfold ALIGNMENT.
      revert Hp G1. Z.to_euclidean_division_equations. lia.
    + apply aligned_sizes_app. split.
      * apply aligned_sizes_app. split; [exact H0|]. constructor; [exact Hp|constructor].
      * constructor; assumption.
Qed.

Lemma aligned_sizes_grow l1 s s2 r2 :
  aligned_sizes (l1 ++ (s, false) :: (s2, true) :: r2) ->
  aligned_sizes (l1 ++ (s + 32 + s2, false) :: r2).
Proof.
  intros H. apply aligned_sizes_app in H. destruct H as [H1 H2].
  inversion H2 as [|? ? Hs H3]; subst. inversion H3 as [|? ? Hs2 H4]; subst.
  cbn [fst] in Hs, Hs2. unfold ALIGNMENT in Hs, Hs2.
  apply aligned_sizes_app. split; [exact H1|]. constructor; [|exact H4].
  cbn [fst]. unfold ALIGNMENT. revert Hs Hs2. Z.to_euclidean_division_equations. lia.
Qed.

Lemma aligned_sizes_init t : t mod 16 = 0 -> 32 <= t -> aligned_sizes [(t - 32, true)].
Proof.
  intros Ht _. constructor; [|constructor]. cbn [fst]. unfold ALIGNMENT.
  revert Ht. Z.to_euclidean_division_equations. lia.
Qed.

Lemma end_addr_aligned a l : aligned_sizes l -> (end_addr a l - a) mod 16 = 0.
Proof.
  revert a; induction l as [|[s f] r IH]; intros a H; cbn [end_addr].
  - now rewrite Z.sub_diag.
  - inversion H as [|? ? Hs Hr]; subst. cbn [fst] in Hs. unfold ALIGNMENT in Hs.
    specialize (IH (a + 32 + s) Hr). revert IH Hs.
    Z.to_euclidean_division_equations. lia.
Qed.

(** X18: alignment.  In every reachable state every payload size is a
    multiple of [ALIGNMENT] = 16 and every header and payload address differs
    from [heap_base] by a multiple of 16; so when the buffer that
    [std::malloc] returned is aligned to 16, every pointer [malloc], [calloc]
    and [realloc] hand out is. *)
Theorem payloads_are_aligned std_malloc h :
  std_malloc_ok std_malloc ->
  reachable std_malloc h ->
  forall b, In b (chain_blocks h) ->
    bi_size b mod ALIGNMENT = 0 /\
    (bi_hdr b - heap_base h) mod ALIGNMENT = 0 /\
    (bi_payload b - heap_base h) mod ALIGNMENT = 0 /\
    (heap_base h mod ALIGNMENT = 0 -> bi_payload b mod ALIGNMENT = 0).
Proof.
  intros Hok Hr b Hin.
  destruct (reachable_Inv _ Hok _ Hr) as [(Hi & _)|(l & Hc & _)].
  { rewrite chain_blocks_uninit in Hin by assumption. contradiction. }
  assert (Ha : aligned_sizes l).
  { apply (keeps_reachable std_malloc Hok aligned_sizes) with (h := h); auto.
    - apply aligned_sizes_init.
    - apply aligned_sizes_carve.
    - apply aligned_sizes_release.
    - apply aligned_sizes_grow. }
  rewrite (chain_blocks_Chain _ _ Hc) in Hin.
  destruct (In_layout _ _ _ _ _ Hin) as (l1 & s & f & l2 & -> & Hh & Hp & Hs & _).
  apply aligned_sizes_app in Ha. destruct Ha as [Ha1 Ha2].
  inversion Ha2 as [|? ? Hsz _]; subst. cbn [fst] in Hsz.
  pose proof (end_addr_aligned (heap_base h) l1 Ha1) as He.
  rewrite Hh, Hp. unfold ALIGNMENT in *.
  split; [exact Hsz|]. split; [exact He|].
  split; [|intros Hb]; revert He; try revert Hb;
    Z.to_euclidean_division_equations; lia.
Qed.

(** The second block of [demo_two]: 32 bytes at 4192. *)
Lemma payloads_are_aligned_witness :
  32 mod ALIGNMENT = 0 /\
  (4160 - heap_base demo_two) mod ALIGNMENT = 0 /\
  (4192 - heap_base demo_two) mod ALIGNMENT = 0 /\
  (heap_base demo_two mod ALIGNMENT = 0 -> 4192 mod ALIGNMENT = 0).
Proof.
  apply (payloads_are_aligned demo_std_malloc demo_two demo_std_malloc_ok
           demo_two_reachable (mkInfo 4160 4192 32 false 4096 4224)).
  vm_compute. right. left. reflexivity.
Defined.

(** *** The minimum block size *)

Lemma min_sizes_app l1 l2 : min_sizes (l1 ++ l2) <-> min_sizes l1 /\ min_sizes l2.
Proof. apply Forall_app. Qed.

Lemma min_sizes_free s l : 0 <= s -> min_sizes l -> min_sizes ((s, true) :: l).
Proof. intros Hs H. constructor; [|exact H]. cbn [fst snd]. split; [lia | discriminate]. Qed.

Lemma min_sizes_init t : t mod 16 = 0 -> 32 <= t -> min_sizes [(t - 32, true)].
Proof. intros _ Ht. apply min_sizes_free; [lia | constructor]. Qed.

Lemma min_sizes_carve k1 t k2 asize :
  asize mod 16 = 0 -> 32 <= asize <= t ->
  min_sizes (k1 ++ (t, true) :: k2) -> min_sizes (k1 ++ carve asize t ++ k2).
Proof.
  intros _ Hr H. apply min_sizes_app in H. destruct H as [H1 H2].
  inversion H2 as [|? ? _ H3]; subst.
  apply min_sizes_app. split; [exact H1|]. unfold carve, MIN_BLOCK_SIZE.
  destruct (Z.leb_spec (asize + 32 + 32) t); cbn [app].
  - constructor; [cbn [fst snd]; unfold MIN_BLOCK_SIZE; split; intros; lia|]. apply min_sizes_free; [lia|exact H3].
  - constructor; [cbn [fst snd]; unfold MIN_BLOCK_SIZE; split; intros; lia | exact H3].
Qed.

Lemma min_sizes_release l1 s l2 :
  min_sizes (l1 ++ (s, false) :: l2) -> min_sizes (release l1 s l2).
Proof.
  intros H. apply min_sizes_app in H. destruct H as [H1 H2].
  inversion H2 as [|? ? [Hs _] H3]; subst. cbn [fst] in Hs.
  unfold release.
  assert (G : 0 <= fst (absorb_next s l2) /\ min_sizes (snd (absorb_next s l2))).
  { destruct l2 as [|[s2 [|]] r]; cbn [absorb_next fst snd]; auto.
    inversion H3 as [|? ? [Hs2 _] H4]; subst. cbn [fst] in Hs2. split; [lia | exact H4]. }
  destruct (absorb_next s l2) as [s1 l2']. cbn [fst snd] in G. destruct G as [G1 G2].
  unfold merge_prev. destruct l1 as [|x0 l0] using rev_ind.
  - cbn [last app]. now apply min_sizes_free.
  - clear IHl0. rewrite last_last. apply min_sizes_app in H1.
    destruct H1 as [H0 Hx]. inversion Hx as [|? ? [Hp Hp'] _]; subst.
    destruct x0 as [sp [|]]; cbn [fst snd] in Hp, Hp'.
    + rewrite removelast_last. apply min_sizes_app. split; [exact H0|].
      apply min_sizes_free; [lia | exact G2].
    + apply min_sizes_app. split.
      * apply min_sizes_app. split; [exact H0 | exact Hx].
      * now apply min_sizes_free.
Qed.

Lemma min_sizes_grow l1 s s2 r2 :
  min_sizes (l1 ++ (s, false) :: (s2, true) :: r2) ->
  min_sizes (l1 ++ (s + 32 + s2, false) :: r2).
Proof.
  intros H. apply min_sizes_app in H. destruct H as [H1 H2].
  inversion H2 as [|? ? [_ Hs] H3]; subst. inversion H3 as [|? ? [Hs2 _] H4]; subst.
  cbn [fst snd] in Hs, Hs2. specialize (Hs eq_refl).
  apply min_sizes_app. split; [exact H1|]. constructor; [|exact H4].
  cbn [fst snd]. unfold MIN_BLOCK_SIZE in *. split; intros; lia.
Qed.

(** X19: the minimum block size.  In every reachable state every allocated
    block of the chain holds at least [MIN_BLOCK_SIZE] = 32 bytes, whatever
    was asked for, and no block has a negative size. *)
Theorem allocated_blocks_hold_minimum std_malloc h :
  std_malloc_ok std_malloc ->
  reachable std_malloc h ->
  Forall (fun b => 0 <= bi_size b /\
                   (bi_free b = false -> MIN_BLOCK_SIZE <= bi_size b))
         (chain_blocks h).
Proof.
  intros Hok Hr.
  destruct (reachable_Inv _ Hok _ Hr) as [(Hi & _)|(l & Hc & _)].
  { rewrite chain_blocks_uninit by assumption. constructor. }
  assert (Hm : min_sizes l).
  { apply (keeps_reachable std_malloc Hok min_sizes) with (h := h); auto.
    - apply min_sizes_init.
    - apply min_sizes_carve.
    - apply min_sizes_release.
    - apply min_sizes_grow. }
  apply Forall_forall. intros b Hin.
  rewrite (chain_blocks_Chain _ _ Hc) in Hin.
  destruct (In_layout _ _ _ _ _ Hin) as (l1 & s & f & l2 & -> & _ & _ & Hs & Hf).
  apply min_sizes_app in Hm. destruct Hm as [_ Hm].
  apply Forall_inv in Hm. cbn [fst snd] in Hm. rewrite Hs, Hf. exact Hm.
Qed.

Lemma allocated_blocks_hold_minimum_witness :
  Forall (fun b => 0 <= bi_size b /\
                   (bi_free b = false -> MIN_BLOCK_SIZE <= bi_size b))
         (chain_blocks demo_two).
Proof.
  apply (allocated_blocks_hold_minimum demo_std_malloc demo_two).
  - exact demo_std_malloc_ok.
  - exact demo_two_reachable.
Defined.

(** ** Calls before initialization *)

(** X20: the interface on an allocator that was never initialized (statics
    as at program start), for the calls that do not set up the arena.
    [malloc(0)], [calloc] with a zero argument and
    [free(nullptr)] do nothing; [free] of a non-null pointer compares it with
    the null [heap_base] and the size 0 and reports it as not from the heap;
    [realloc] of a non-null pointer reports it and returns null; [dump_heap]
    prints that the heap is not initialized.  The allocator is left
    uninitialized in each case. *)
Theorem calls_before_initialization std_malloc h p n :
  initialized h = false -> heap_base h = 0 -> heap_total_size h = 0 ->
  0 < p ->
  malloc std_malloc 0 h = Ret 0 h /\
  calloc std_malloc 0 n h = Ret 0 h /\ calloc std_malloc n 0 h = Ret 0 h /\
  free 0 h = Ret tt h /\
  free p h = Ret tt (log_add (NotFromHeap false p) h) /\
  realloc std_malloc p 0 h = Ret 0 (log_add (NotFromHeap false p) h) /\
  (n <> 0 -> realloc std_malloc p n h = Ret 0 (log_add (NotFromHeap true p) h)) /\
  dump_heap h = Ret None h /\
  forall d, initialized (log_add d h) = false.
Proof.
  intros Hi Hb Ht Hp.
  assert (Hout : outside_arena h p) by (right; lia).
  assert (Hnz : p <> 0) by lia.
  split; [reflexivity|].
  split; [apply calloc_null; auto|].
  split; [apply calloc_null; auto|].
  split; [reflexivity|].
  split; [now apply free_outside|].
  split; [|split; [|split]].
  - unfold realloc. destruct (Z.eqb_spec p 0) as [?|_]; [contradiction|].
    cbn [Z.eqb]. eapply bind_run; [apply free_outside; assumption|]. reflexivity.
  - intros Hn. apply realloc_foreign; auto. lia.
  - now apply dump_heap_uninit.
  - intros d. exact Hi.
Qed.

Lemma calls_before_initialization_witness :
  malloc demo_std_malloc 0 program_start = Ret 0 program_start /\
  calloc demo_std_malloc 0 8 program_start = Ret 0 program_start /\
  calloc demo_std_malloc 8 0 program_start = Ret 0 program_start /\
  free 0 program_start = Ret tt program_start /\
  free 4128 program_start = Ret tt (log_add (NotFromHeap false 4128) program_start) /\
  realloc demo_std_malloc 4128 0 program_start =
    Ret 0 (log_add (NotFromHeap false 4128) program_start) /\
  (8 <> 0 -> realloc demo_std_malloc 4128 8 program_start =
             Ret 0 (log_add (NotFromHeap true 4128) program_start)) /\
  dump_heap program_start = Ret None program_start /\
  forall d, initialized (log_add d program_start) = false.
Proof.
  apply (calls_before_initialization demo_std_malloc program_start 4128 8);
    reflexivity.
Defined.

(** ** The arena after initialization *)

Lemma same_arena_refl h : same_arena h h.
Proof. unfold same_arena. auto. Qed.

Lemma af_ret {A} (a : A) : arena_fixed (ret a).
Proof. intros h a' h' _ E. injection E as _ <-. apply same_arena_refl. Qed.

Lemma af_read {A} (f : Heap -> A) : arena_fixed (fun h => Ret (f h) h).
Proof. intros h a' h' _ E. injection E as _ <-. apply same_arena_refl. Qed.

Lemma af_bind {A B} (c : M A) (k : A -> M B) :
  arena_fixed c -> (forall a, arena_fixed (k a)) -> arena_fixed (bind c k).
Proof.
  intros Hc Hk h b h' Hi E. unfold bind in E.
  destruct (c h) as [a h1|] eqn:E1; [|discriminate].
  destruct (Hc _ _ _ Hi E1) as (G1 & G2 & G3 & G4).
  assert (Hi1 : initialized h1 = true) by congruence.
  destruct (Hk a _ _ _ Hi1 E) as (F1 & F2 & F3 & F4).
  unfold same_arena. repeat split; congruence.
Qed.

Lemma af_ld a n : arena_fixed (ld a n).
Proof.
  intros h v h' _ E. unfold ld in E. destruct (in_arena h a (Z.of_nat n)); [|discriminate].
  injection E as _ <-. apply same_arena_refl.
Qed.

Lemma af_sto a n v : arena_fixed (sto a n v).
Proof.
  intros h u h' _ E. unfold sto in E. destruct (in_arena h a (Z.of_nat n)); [|discriminate].
  injection E as _ <-. unfold same_arena. cbn. auto.
Qed.

Lemma af_memset p c n : arena_fixed (memset p c n).
Proof.
  intros h u h' _ E. unfold memset in E.
  destruct ((n =? 0) || in_arena h p n); [|discriminate].
  injection E as _ <-. unfold same_arena. cbn. auto.
Qed.

Lemma af_memcpy dst src n : arena_fixed (memcpy dst src n).
Proof.
  intros h u h' _ E. unfold memcpy in E.
  match type of E with (if ?c then _ else _) = _ => destruct c end; [|discriminate].
  injection E as _ <-. unfold same_arena. cbn. auto.
Qed.

Lemma af_report d : arena_fixed (report d).
Proof. intros h u h' _ E. injection E as _ <-. unfold same_arena. cbn. auto. Qed.

Lemma af_throw {A} e : arena_fixed (@throw A e).
Proof. intros h a h' _ E. discriminate. Qed.

(** Decompose a computation into the primitives above. *)
Ltac af_step :=
  first
    [ apply af_ret | apply af_read | apply af_ld | apply af_sto | apply af_memset
    | apply af_memcpy | apply af_report | apply af_throw
    | apply af_bind; [|intros ?]
    | match goal with
      | |- arena_fixed (if ?c then _ else _) => destruct c
      | |- arena_fixed (when ?c _) => unfold when
      end
    | progress cbv beta zeta ].

Ltac af_tac := repeat af_step.

Lemma af_is_free_block p : arena_fixed (is_free_block p).
Proof. unfold is_free_block. af_tac. Qed.

Lemma af_find_fit_from fuel : forall b asize, arena_fixed (find_fit_from fuel b asize).
Proof.
  induction fuel as [|fuel IH]; intros b asize; cbn [find_fit_from]; [apply af_throw|].
  unfold get_free, get_size, get_next. af_tac. apply IH.
Qed.

Lemma af_find_fit asize : arena_fixed (find_fit asize).
Proof.
  intros h b h' Hi E. unfold find_fit in E. exact (af_find_fit_from _ _ _ h b h' Hi E).
Qed.

Lemma af_split_block b asize : arena_fixed (split_block b asize).
Proof.
  unfold split_block, get_free, get_size, get_next, set_size, set_free, set_next, set_prev.
  af_tac.
Qed.

Lemma af_coalesce b : arena_fixed (coalesce b).
Proof.
  unfold coalesce. af_tac; apply af_is_free_block.
Qed.

Lemma af_init_allocator std_malloc n : arena_fixed (init_allocator std_malloc n).
Proof.
  intros h u h' Hi E. unfold init_allocator in E. rewrite Hi in E.
  injection E as _ <-. apply same_arena_refl.
Qed.

Lemma af_malloc std_malloc n : arena_fixed (malloc std_malloc n).
Proof.
  unfold malloc. af_tac;
    first [apply af_init_allocator | apply af_find_fit | apply af_split_block].
Qed.

Lemma af_free p : arena_fixed (free p).
Proof.
  unfold free, get_free, set_free. af_tac; apply af_is_free_block.
Qed.

Lemma af_pointer_in_heap p : arena_fixed (pointer_in_heap p).
Proof.
  intros h b h' _ E. unfold pointer_in_heap in E.
  destruct ((p =? 0) || negb (initialized h)); injection E as _ <-;
    apply same_arena_refl.
Qed.

Lemma af_realloc std_malloc p n : arena_fixed (realloc std_malloc p n).
Proof.
  unfold realloc. af_tac;
    first [apply af_malloc | apply af_free | apply af_pointer_in_heap
          | apply af_split_block | apply af_is_free_block].
Qed.

Lemma af_calloc std_malloc nmemb size : arena_fixed (calloc std_malloc nmemb size).
Proof. unfold calloc. af_tac. apply af_malloc. Qed.

Lemma af_dump_from fuel : forall b, arena_fixed (dump_from fuel b).
Proof.
  induction fuel as [|fuel IH]; intros b; cbn [dump_from]; [apply af_throw|].
  unfold get_free, get_size, get_next, get_prev. af_tac. apply IH.
Qed.

Lemma af_dump_heap : arena_fixed dump_heap.
Proof. unfold dump_heap. af_tac. apply af_dump_from. Qed.

(** X21: once the allocator is initialized the arena is fixed.  No call of
    the interface, whatever its arguments and whatever it finds in memory,
    changes [heap_base], [heap_total_size], [head] or [initialized]: the
    arena is never moved, never grows and is never set up a second time, so
    a request that does not fit is never served by getting more memory. *)
Theorem arena_is_fixed std_malloc :
  (forall n, arena_fixed (init_allocator std_malloc n)) /\
  (forall n, arena_fixed (malloc std_malloc n)) /\
  (forall nmemb size, arena_fixed (calloc std_malloc nmemb size)) /\
  (forall p n, arena_fixed (realloc std_malloc p n)) /\
  (forall p, arena_fixed (free p)) /\
  arena_fixed dump_heap.
Proof.
  split; [intros n; apply af_init_allocator|].
  split; [intros n; apply af_malloc|].
  split; [intros nmemb size; apply af_calloc|].
  split; [intros p n; apply af_realloc|].
  split; [intros p; apply af_free | apply af_dump_heap].
Qed.
